(** * Code-change extraction and proposal pipeline of the coder assistant

    A shallow embedding of [chat_interface.py] (block scanner, filename
    resolver, filename validator, proposal queue, change applier) and of
    [file_editor.py] (backups, reads, writes), with the properties the
    specification states about them.

    Python [str] values are modelled as lists of characters.  A character is
    an [ascii], read as a code point between 0 and 255 (Latin-1); the
    character classes below ([isspace], [isalpha], [lower], the regular
    expression class [\w]) are Python's, restricted to that range. *)

From Stdlib Require Import List Ascii String Arith NArith Lia Bool.
From stdpp Require Import gmap strings.
Import ListNotations.

Set Default Proof Using "Type".

(** ** Python strings *)

Abbreviation str := (list ascii).

Definition lit (s : String.string) : str := String.list_ascii_of_string s.

Module PyStr.

Definition nlc : ascii := ascii_of_nat 10.
Definition nl : str := [nlc].

(** [text_of_lines] writes a multi-line literal: the lines joined by a
    newline character. *)
Fixpoint text_of_lines (ls : list String.string) : str :=
  match ls with
  | [] => []
  | [l] => lit l
  | l :: ls' => lit l ++ nl ++ text_of_lines ls'
  end.

Definition eqb (a b : str) : bool := bool_decide (a = b).

(** [s[a:b]] and [s[a:]] for indices that are not negative. *)
Definition substr (s : str) (a b : nat) : str := firstn (b - a) (skipn a s).
Definition from (s : str) (a : nat) : str := skipn a s.

(** [s[i]] for [0 <= i]; [None] stands for [IndexError]. *)
Definition get (s : str) (i : nat) : option ascii := nth_error s i.

Fixpoint startswith (p s : str) : bool :=
  match p, s with
  | [], _ => true
  | a :: p', b :: s' => Ascii.eqb a b && startswith p' s'
  | _ :: _, [] => false
  end.

Fixpoint find_aux (sub s : str) (pos : nat) : option nat :=
  if startswith sub s then Some pos
  else match s with
       | [] => None
       | _ :: s' => find_aux sub s' (S pos)
       end.

(** [s.find(sub, start)]; [None] stands for the result -1. *)
Definition find (sub s : str) (start : nat) : option nat :=
  if length s <? start then None else find_aux sub (skipn start s) start.

(** [sub in s] *)
Definition contains (sub s : str) : bool :=
  match find sub s 0 with Some _ => true | None => false end.

(** [c in s] for a one-character string [c]. *)
Definition has (c : ascii) (s : str) : bool := existsb (Ascii.eqb c) s.

(** [str.isspace] on one character. *)
Definition isspace (c : ascii) : bool :=
  let n := nat_of_ascii c in
  ((9 <=? n) && (n <=? 13)) || ((28 <=? n) && (n <=? 32))
  || (n =? 133) || (n =? 160).

(** [str.isalpha] on one character. *)
Definition isalpha (c : ascii) : bool :=
  let n := nat_of_ascii c in
  ((65 <=? n) && (n <=? 90)) || ((97 <=? n) && (n <=? 122))
  || (n =? 170) || (n =? 181) || (n =? 186)
  || ((192 <=? n) && (n <=? 214)) || ((216 <=? n) && (n <=? 246))
  || ((248 <=? n) && (n <=? 255)).

Fixpoint lstrip_by (p : ascii -> bool) (s : str) : str :=
  match s with
  | [] => []
  | c :: s' => if p c then lstrip_by p s' else s
  end.

Definition rstrip_by (p : ascii -> bool) (s : str) : str :=
  rev (lstrip_by p (rev s)).

(** [s.strip()] *)
Definition strip (s : str) : str := rstrip_by isspace (lstrip_by isspace s).

(** [s.lstrip(chars)] *)
Definition lstrip (chars s : str) : str :=
  lstrip_by (fun c => has c chars) s.

(** [s.split(sep)] for a one-character separator. *)
Fixpoint split (sep : ascii) (s : str) : list str :=
  match s with
  | [] => [[]]
  | c :: s' =>
      if Ascii.eqb c sep then [] :: split sep s'
      else match split sep s' with
           | [] => [[c]]
           | l :: ls => (c :: l) :: ls
           end
  end.

(** [sep.join(parts)] *)
Fixpoint join (sep : str) (parts : list str) : str :=
  match parts with
  | [] => []
  | [p] => p
  | p :: ps => p ++ sep ++ join sep ps
  end.

Definition lower_char (c : ascii) : ascii :=
  let n := nat_of_ascii c in
  if ((65 <=? n) && (n <=? 90)) || ((192 <=? n) && (n <=? 214))
     || ((216 <=? n) && (n <=? 222))
  then ascii_of_nat (n + 32) else c.

(** [s.lower()] *)
Definition lower (s : str) : str := map lower_char s.

(** Truth value of a string: [bool(s)]. *)
Definition truthy (s : str) : bool :=
  match s with [] => false | _ :: _ => true end.

End PyStr.

(** ** BlockScanner: [ChatInterface.parse_code_blocks]
    ([chat_interface.py], lines 145 to 263) *)

(** The dictionaries appended to [code_blocks]. *)
Record CodeBlock := mkBlock {
  language : str;
  code : str;
  filename : option str
}.

Module Scanner.
Import PyStr.

Definition fence : str := lit "```".
Definition nl_fence : str := nl ++ fence.
Definition hash : ascii := ascii_of_nat 35.
Definition dot : ascii := ascii_of_nat 46.
Definition slash : ascii := ascii_of_nat 47.

(** [language in ['markdown', 'md']] *)
Definition is_markdown (language : str) : bool :=
  eqb language (lit "markdown") || eqb language (lit "md").

(** [text[i+3:line_end].strip() or "text"] *)
Definition language_of (tag : str) : str :=
  if truthy (strip tag) then strip tag else lit "text".

(** *** Nesting mode: the inner [while j < len(text)] loop *)

Inductive md_outcome :=
| Next (j nesting_level : nat)   (* go on scanning at [j] *)
| Close.                         (* the [break]: the block ends at [j] *)

(** [text.find('\n', j)], with [len(text)] in place of -1. *)
Definition line_end_from (text : str) (j : nat) : nat :=
  match find nl text j with
  | Some e => e
  | None => length text
  end.

(** [text[j-1] == '\n'], read only where [1 <= j]. *)
Definition after_newline (text : str) (j : nat) : bool :=
  match get text (j - 1) with
  | Some c => Ascii.eqb c nlc
  | None => false
  end.

(** [after_ticks and after_ticks[0].isalpha()] *)
Definition opens (after_ticks : str) : bool :=
  truthy after_ticks &&
  match after_ticks with
  | c :: _ => isalpha c
  | [] => false
  end.

(** One iteration of the inner loop, entered with [j < len(text)]. *)
Definition md_step (text : str) (content_start j nesting_level : nat)
  : md_outcome :=
  if (j =? content_start) || after_newline text j then
    if eqb (substr text j (j + 3)) fence then
      let line_end_j := line_end_from text j in
      let after_ticks := strip (substr text (j + 3) line_end_j) in
      if opens after_ticks then
        Next (line_end_j + 1) (nesting_level + 1)
      else if 0 <? nesting_level then
        Next (line_end_j + 1) (nesting_level - 1)
      else Close
    else Next (j + 1) nesting_level
  else Next (j + 1) nesting_level.

Inductive md_result :=
| MdClosed (j : nat)   (* left by [break] at the closing fence at [j] *)
| MdEof                (* left with [j >= len(text)] *)
| MdFuel.              (* the model ran out of fuel *)

Fixpoint md_scan (fuel : nat) (text : str) (content_start j lvl : nat)
  : md_result :=
  match fuel with
  | 0 => MdFuel
  | S fuel' =>
      if j <? length text then
        match md_step text content_start j lvl with
        | Next j' lvl' => md_scan fuel' text content_start j' lvl'
        | Close => MdClosed j
        end
      else MdEof
  end.

(** *** Non-nesting mode *)

(** The two [find] calls that look for the closing marker. *)
Definition find_closing (text : str) (content_start : nat) : option nat :=
  match find nl_fence text content_start with
  | Some closing => Some closing
  | None => find fence text content_start
  end.

(** The extracted [code] and the next value of [i]. *)
Definition plain_body (text : str) (content_start : nat) : str * nat :=
  match find_closing text content_start with
  | None => (from text content_start, length text)
  | Some closing => (substr text content_start closing, closing + 4)
  end.

(** The filename comment on the first line: the [filename] found and the
    [code] that is kept. *)
Definition lift_filename (code : str) : option str * str :=
  match split nlc code with
  | [] => (None, code)
  | line0 :: rest =>
      let first_line := strip line0 in
      if startswith [hash] first_line
         && (has dot first_line || has slash first_line) then
        let potential_filename := strip (lstrip [hash] first_line) in
        if has slash potential_filename || has dot potential_filename then
          (Some potential_filename, join nl rest)
        else (None, code)
      else (None, code)
  end.

Definition plain_block (language : str) (text : str) (content_start : nat)
  : CodeBlock :=
  let (filename, code) := lift_filename (fst (plain_body text content_start)) in
  {| language := language; code := strip code; filename := filename |}.

Definition md_block (language body : str) : CodeBlock :=
  {| language := language; code := strip body; filename := None |}.

(** *** The outer [while i < len(text)] loop *)

Fixpoint parse_loop (fuel : nat) (text : str) (i : nat)
  (code_blocks : list CodeBlock) : option (list CodeBlock) :=
  match fuel with
  | 0 => None
  | S fuel' =>
      if i <? length text then
        if eqb (substr text i (i + 3)) fence then
          match find nl text i with
          | None => Some code_blocks
          | Some line_end =>
              let language := language_of (substr text (i + 3) line_end) in
              let content_start := line_end + 1 in
              if is_markdown language then
                match md_scan (S (length text)) text content_start
                        content_start 0 with
                | MdClosed j =>
                    parse_loop fuel' text (j + 3)
                      (code_blocks
                         ++ [md_block language (substr text content_start j)])
                | MdEof =>
                    Some (code_blocks
                            ++ [md_block language (from text content_start)])
                | MdFuel => None
                end
              else
                parse_loop fuel' text (snd (plain_body text content_start))
                  (code_blocks ++ [plain_block language text content_start])
          end
        else parse_loop fuel' text (i + 1) code_blocks
      else Some code_blocks
  end.

Definition parse_code_blocks (text : str) : option (list CodeBlock) :=
  parse_loop (S (length text)) text 0 [].

End Scanner.

Definition nested_readme : str :=
  PyStr.text_of_lines
    ["```markdown"; "# README"; "This is a readme file.";
     "## Installation"; "```bash"; "pip install requests"; "```";
     "## Usage"; "```bash"; "python main.py"; "```";
     "## More info"; "Some more content here."; "```"].

(** *** Vocabulary for the statements about the scanner *)

Module ScanSpec.
Import PyStr Scanner.

(** Index [j] starts a line of the block body that begins at
    [content_start], and the three characters at [j] are the fence marker. *)
Definition fence_line (text : str) (content_start j : nat) : Prop :=
  (j = content_start \/ get text (j - 1) = Some nlc)
  /\ substr text j (j + 3) = fence.

(** What follows the marker on the fence line at [j], trimmed: its tag. *)
Definition tag_at (text : str) (j : nat) : str :=
  strip (substr text (j + 3) (line_end_from text j)).

(** The tag is not empty and its first character is alphabetic. *)
Definition alpha_tag (tag : str) : Prop :=
  exists c rest, tag = c :: rest /\ isalpha c = true.

(** [sub] occurs in [s] at index [k]. *)
Definition occurs_at (sub s : str) (k : nat) : Prop :=
  k <= length s /\ startswith sub (skipn k s) = true.

(** [c] is the first index from [start] on at which [sub] occurs in [s]. *)
Definition first_at (sub s : str) (start c : nat) : Prop :=
  start <= c /\ occurs_at sub s c
  /\ forall k, start <= k -> k < c -> ~ occurs_at sub s k.

(** [sub] occurs nowhere in [s] from [start] on. *)
Definition absent_from (sub s : str) (start : nat) : Prop :=
  forall k, start <= k -> ~ occurs_at sub s k.

(** A markdown block whose first body line is a fence tagged [1]. *)
Definition digit_tag_text : str :=
  text_of_lines ["```markdown"; "```1"; "x"; "```"; "end"].

(** A python block closed by a fence in the middle of a line. *)
Definition midline_fence_text : str :=
  text_of_lines ["```python"; "x = 1 ``` tail"].

End ScanSpec.

(** *** Vocabulary for the filename-comment round trip *)

Module RoundTrip.
Import PyStr Scanner.

(** Whitespace other than newlines. *)
Definition blank (s : str) : Prop :=
  Forall (fun c => isspace c = true /\ c <> nlc) s.

(** What a comment can name as a path: one line, no surrounding
    whitespace, a [.] or a [/] in it, and no [#] at its head. *)
Definition names_path (path : str) : Prop :=
  ~ In nlc path /\ strip path = path /\ (In dot path \/ In slash path)
  /\ startswith [hash] path = false.

(** A comment line that names [path]: maybe indented, one [#] and [more],
    maybe a gap, the path, maybe blanks after it. *)
Definition comment_line (indent : str) (more : nat) (gap path trail : str)
  : str :=
  indent ++ repeat hash (S more) ++ gap ++ path ++ trail.

(** No line of [body] starts with a fence marker. *)
Definition fence_free_lines (body : str) : Prop :=
  Forall (fun line => startswith fence line = false) (split nlc body).

(** The lines of [s] after its first line do not start with a fence. *)
Definition tail_fence_free (s : str) : Prop :=
  Forall (fun line => startswith fence line = false) (tl (split nlc s)).

(** One fenced block, tagged [tag], with body [body], followed by [rest]. *)
Definition fenced (tag body rest : str) : str :=
  fence ++ tag ++ nl ++ body ++ nl_fence ++ rest.

End RoundTrip.

(** ** FilenameValidator: [ChatInterface._is_valid_filename]
    ([chat_interface.py], lines 347 to 374) *)

Module Validator.
Import PyStr Scanner.

Definition space : ascii := ascii_of_nat 32.
Definition dquote : ascii := ascii_of_nat 34.

(** [invalid_chars]: the characters < > | : * ? and the double quote. *)
Definition invalid_chars : list ascii :=
  ["<"%char; ">"%char; "|"%char; ":"%char; "*"%char; "?"%char; dquote].

Definition _is_valid_filename (filename : str) : bool :=
  if negb (has dot filename) && negb (has slash filename) then false
  else if has space filename then false
  else if 200 <? length filename then false
  else if existsb (fun char => has char filename) invalid_chars then false
  else true.

End Validator.

(** ** Regular expressions: the fragment of [re] that the resolver uses *)

Module Regex.
Import PyStr.

(** A position in the subject: the character before it, if any, and the
    text from it on. *)
Definition cursor : Type := option ascii * str.

Inductive re :=
| Chr (p : ascii -> bool)   (* one character of a class *)
| Seq (r1 r2 : re)
| Star (r : re)             (* greedy [r*] *)
| Boundary.                 (* [\b] *)

(** Greedy [r+]. *)
Definition Plus (r : re) : re := Seq r (Star r).

(** [\w] on a [str] pattern: alphanumeric (alphabetic, decimal, digit or
    numeric) or underscore. *)
Definition is_word (c : ascii) : bool :=
  let n := nat_of_ascii c in
  isalpha c || ((48 <=? n) && (n <=? 57)) || (n =? 95)
  || (n =? 178) || (n =? 179) || (n =? 185)
  || ((188 <=? n) && (n <=? 190)).

Definition is_word_opt (c : option ascii) : bool :=
  match c with
  | Some c => is_word c
  | None => false
  end.

(** [\b] holds at a position when exactly one of its two sides is a word
    character; the ends of the text count as non-word. *)
Definition at_boundary (cur : cursor) : bool :=
  xorb (is_word_opt (fst cur)) (is_word_opt (head (snd cur))).

(** The loop of a greedy star, over the matcher [body] of what it repeats:
    try one more iteration, and stop where that fails.  An iteration that
    consumes nothing is given up, so [n] iterations, one per remaining
    character, are all the loop can make. *)
Fixpoint star_loop (body : (cursor -> option cursor) -> cursor -> option cursor)
  (k : cursor -> option cursor) (n : nat) (cur : cursor) : option cursor :=
  match n with
  | 0 => k cur
  | S n' =>
      match body
              (fun cur' =>
                 if length (snd cur') <? length (snd cur)
                 then star_loop body k n' cur' else None)
              cur with
      | Some res => Some res
      | None => k cur
      end
  end.

(** Backtracking matcher, in continuation-passing style: [bmatch r k cur]
    tries the ways [r] can match at [cur], in the order of the engine (a
    greedy star tries one more iteration before it tries to stop), and
    answers with the first for which the continuation [k] succeeds. *)
Fixpoint bmatch (r : re) (k : cursor -> option cursor) (cur : cursor)
  : option cursor :=
  match r with
  | Chr p =>
      match snd cur with
      | c :: rest => if p c then k (Some c, rest) else None
      | [] => None
      end
  | Seq r1 r2 => bmatch r1 (bmatch r2 k) cur
  | Star r' => star_loop (bmatch r') k (length (snd cur)) cur
  | Boundary => if at_boundary cur then k cur else None
  end.

(** [pattern.match] at a position: the position after the match. *)
Definition match_at (r : re) (cur : cursor) : option cursor :=
  bmatch r Some cur.

(** [re.findall] for a pattern whose only group spans the whole match: scan
    from left to right; a match is recorded and the scan resumes at its end;
    where nothing matches the scan moves on by one character.  An empty match
    is recorded too and the scan moves on by one character. *)
Fixpoint findall_from (fuel : nat) (r : re) (cur : cursor) : list str :=
  match fuel with
  | 0 => []
  | S fuel' =>
      match match_at r cur with
      | Some cur' =>
          let matched :=
            firstn (length (snd cur) - length (snd cur')) (snd cur) in
          if truthy matched then matched :: findall_from fuel' r cur'
          else
            match snd cur with
            | [] => [matched]
            | c :: rest => matched :: findall_from fuel' r (Some c, rest)
            end
      | None =>
          match snd cur with
          | [] => []
          | c :: rest => findall_from fuel' r (Some c, rest)
          end
      end
  end.

Definition findall (r : re) (text : str) : list str :=
  findall_from (S (length text)) r (None, text).

End Regex.

(** ** FilenameResolver: [_extract_file_mentions] and the head of the loop
    of [auto_create_files] ([chat_interface.py], lines 286 to 300 and 330
    to 345) *)

Module Resolver.
Import PyStr Scanner Regex.

Definition in_range (lo hi : nat) (c : ascii) : bool :=
  (lo <=? nat_of_ascii c) && (nat_of_ascii c <=? hi).

(** [[a-zA-Z0-9]] *)
Definition ext_char (c : ascii) : bool :=
  in_range 97 122 c || in_range 65 90 c || in_range 48 57 c.

(** [[a-zA-Z0-9_-]] *)
Definition seg_char (c : ascii) : bool :=
  ext_char c || Ascii.eqb c "_"%char || Ascii.eqb c "-"%char.

(** [\b([a-zA-Z0-9_-]+(?:/[a-zA-Z0-9_-]+)*\.[a-zA-Z0-9]+)\b] *)
Definition filename_pattern : re :=
  Seq Boundary
    (Seq (Plus (Chr seg_char))
       (Seq (Star (Seq (Chr (Ascii.eqb slash)) (Plus (Chr seg_char))))
          (Seq (Chr (Ascii.eqb dot))
             (Seq (Plus (Chr ext_char)) Boundary)))).

Definition _extract_file_mentions (text : str) : list str :=
  findall filename_pattern text.

(** [not filename], for a filename that is [None] or a string. *)
Definition no_filename (filename : option str) : bool :=
  match filename with
  | None => true
  | Some s => negb (truthy s)
  end.

(** The two [if not filename ...] statements at the head of the loop body of
    [auto_create_files]: the filename the block ends up with. *)
Definition resolve_filename (n_blocks : nat) (mentioned_files : list str)
  (user_message : str) (block : CodeBlock) : option str :=
  let filename := filename block in
  let filename :=
    match mentioned_files with
    | first :: _ =>
        if no_filename filename && (n_blocks =? 1) then Some first
        else filename
    | [] => filename
    end in
  if no_filename filename && is_markdown (language block) then
    match mentioned_files with
    | first :: _ => Some first
    | [] =>
        if contains (lit "readme") (lower user_message)
        then Some (lit "README.md")
        else filename
    end
  else filename.

End Resolver.

(** *** Vocabulary for the statements about the resolver *)

Module ResolveSpec.
Import PyStr Scanner Regex Resolver.

(** What it means for [r] to match from one position to another. *)
Inductive matches : re -> cursor -> cursor -> Prop :=
| M_chr (p : ascii -> bool) (prev : option ascii) (c : ascii) (rest : str) :
    p c = true -> matches (Chr p) (prev, c :: rest) (Some c, rest)
| M_seq (r1 r2 : re) (a b c : cursor) :
    matches r1 a b -> matches r2 b c -> matches (Seq r1 r2) a c
| M_star_stop (r : re) (a : cursor) : matches (Star r) a a
| M_star_step (r : re) (a b c : cursor) :
    matches r a b -> matches (Star r) b c -> matches (Star r) a c
| M_boundary (a : cursor) :
    at_boundary a = true -> matches Boundary a a.

(** The character before the position reached after reading [w]. *)
Definition last_of (prev : option ascii) (w : str) : option ascii :=
  fold_left (fun _ c => Some c) w prev.

(** A non-empty run of characters of one class. *)
Definition run_of (p : ascii -> bool) (w : str) : Prop :=
  w <> [] /\ Forall (fun c => p c = true) w.

(** The text of the segments that follow the first: [/seg/seg...]. *)
Definition slashed (segs : list str) : str :=
  concat (map (fun seg => slash :: seg) segs).

(** A message mentions a readme, in whatever case. *)
Definition mentions_readme (user_message : str) : Prop :=
  exists k, lower (substr user_message k (k + 6)) = lit "readme".

(** Path segments of [[a-zA-Z0-9_-]] separated by [/], then [.] and an
    alphanumeric extension. *)
Definition filename_shaped (tok : str) : Prop :=
  exists seg segs ext,
    tok = join [slash] (seg :: segs) ++ [dot] ++ ext
    /\ run_of seg_char seg
    /\ Forall (run_of seg_char) segs
    /\ run_of ext_char ext.

(** The token [tok] stands at the position [cur], followed by [rest]: it is
    filename-shaped and has a word boundary on either side. *)
Definition token_at (cur : cursor) (tok rest : str) : Prop :=
  snd cur = tok ++ rest
  /\ filename_shaped tok
  /\ at_boundary cur = true
  /\ at_boundary (last_of (fst cur) tok, rest) = true.

(** [toks] is what a scan from left to right finds from the position [cur]
    on: where a token stands it is taken and the scan resumes behind it;
    where no token stands the scan moves on by one character; it ends with
    the text. *)
Inductive mentions : cursor -> list str -> Prop :=
| Mn_done (prev : option ascii) : mentions (prev, []) []
| Mn_skip (prev : option ascii) (c : ascii) (rest : str) (toks : list str) :
    (forall tok rest', ~ token_at (prev, c :: rest) tok rest') ->
    mentions (Some c, rest) toks -> mentions (prev, c :: rest) toks
| Mn_token (prev : option ascii) (tok rest : str) (toks : list str) :
    token_at (prev, tok ++ rest) tok rest ->
    mentions (last_of prev tok, rest) toks ->
    mentions (prev, tok ++ rest) (tok :: toks).

(** Some token stands somewhere in [text]. *)
Definition token_in (text : str) : Prop :=
  exists pre tok rest,
    text = pre ++ tok ++ rest
    /\ token_at (last_of None pre, tok ++ rest) tok rest.

End ResolveSpec.

(** ** Paths: [pathlib.Path] as far as the file editor uses it *)

(** A path is its list of parts and whether it is anchored at the root.
    Parsing drops empty and [.] components and keeps [..]; the root written
    with exactly two slashes is not told apart from the plain root. *)
Record path := mkPath {
  absolute : bool;
  parts : list str
}.

Module Path.
Import PyStr Scanner.

(** [Path(s)] *)
Definition of_str (s : str) : path :=
  {| absolute := startswith [slash] s;
     parts := List.filter (fun part => truthy part && negb (eqb part [dot]))
                (split slash s) |}.

(** [a / b] *)
Definition join (a b : path) : path :=
  if absolute b then b
  else {| absolute := absolute a; parts := parts a ++ parts b |}.

Fixpoint strip_prefix (base p : list str) : option (list str) :=
  match base, p with
  | [], _ => Some p
  | b :: base', x :: p' => if eqb b x then strip_prefix base' p' else None
  | _ :: _, [] => None
  end.

(** [p.relative_to(base)]; [None] stands for [ValueError]. *)
Definition relative_to (p base : path) : option path :=
  if Bool.eqb (absolute p) (absolute base) then
    match strip_prefix (parts base) (parts p) with
    | Some rest => Some {| absolute := false; parts := rest |}
    | None => None
    end
  else None.

(** [p.name] *)
Definition name (p : path) : str := List.last (parts p) [].

(** [p.parent] *)
Definition parent (p : path) : path :=
  {| absolute := absolute p; parts := List.removelast (parts p) |}.

End Path.

(** ** Time stamps: [datetime.now().strftime("%Y%m%d_%H%M%S_%f")] *)

Record datetime := mkDatetime {
  year : N; month : N; day : N;
  hour : N; minute : N; second : N;
  microsecond : N
}.

Module Clock.

Definition digit (d : N) : ascii := ascii_of_N (48 + d mod 10).

(** The [width] low-order decimal digits of [n]: [n] zero-padded to [width]
    digits when [n < 10 ^ width]. *)
Fixpoint zpad (width : nat) (n : N) : str :=
  match width with
  | 0 => []
  | S width' => zpad width' (n / 10) ++ [digit n]
  end.

Fixpoint decimal_fuel (fuel : nat) (n : N) : str :=
  match fuel with
  | 0 => []
  | S fuel' =>
      if (n <? 10)%N then [digit n]
      else decimal_fuel fuel' (n / 10) ++ [digit n]
  end.

(** [str(n)] for a count [n]. *)
Definition decimal (n : nat) : str := decimal_fuel (S n) (N.of_nat n).

Definition underscore : ascii := "_"%char.

(** The fields a [datetime] can hold, for years of four digits. *)
Definition valid (dt : datetime) : Prop :=
  (1000 <= year dt < 10000 /\ 1 <= month dt <= 12 /\ 1 <= day dt <= 31
   /\ hour dt < 24 /\ minute dt < 60 /\ second dt < 60
   /\ microsecond dt < 1000000)%N.

Definition strftime (dt : datetime) : str :=
  zpad 4 (year dt) ++ zpad 2 (month dt) ++ zpad 2 (day dt)
  ++ [underscore]
  ++ zpad 2 (hour dt) ++ zpad 2 (minute dt) ++ zpad 2 (second dt)
  ++ [underscore]
  ++ zpad 6 (microsecond dt).

End Clock.

(** ** What the operating system and the repository do *)

Inductive read_result :=
| ReadOk (content : str)
| ReadDecodeError          (* [UnicodeDecodeError] *)
| ReadError.               (* any other exception *)

(** The calls the editor and the chat interface make outside their own code.
    A call that can raise inside a [try] block answers [false] (or an error
    result) where it raises; the world it leaves may still have changed.
    [p.exists()] is the one call made outside the [try] blocks:
    [path_exists] is what it answers where it answers, and [Stat], further
    down, says where it raises instead. *)
Class OS (W : Type) := {
  (** [p.exists()], where it answers *)
  path_exists : path -> W -> bool;
  (** [datetime.now()] *)
  now : W -> datetime;
  (** [p.mkdir(parents=True, exist_ok=True)] *)
  mkdir_parents : path -> W -> W * bool;
  (** [shutil.copy2(src, dst)] *)
  copy2 : path -> path -> W -> W * bool;
  (** [open(p, "w", encoding="utf-8")] and [f.write(content)] *)
  write_text : path -> str -> W -> W * bool;
  (** [open(p, "r", encoding="utf-8")] and [f.read()] *)
  read_utf8 : path -> W -> read_result;
  (** [open(p, "r", encoding="latin-1")] and [f.read()] *)
  read_latin1 : path -> W -> option str;
  (** [GitManager.commit_changes(message, files)] *)
  commit_changes : str -> list str -> W -> W * bool;
  (** [FileScanner.scan_directory()] *)
  scan_directory : W -> W
}.

(** ** Proposals, printed messages and the trace of a session *)

Record Proposal := mkProposal {
  file_path : str;
  description : str;
  current_content : str;
  new_content : str
}.

(** The lines the code prints, by the statement that prints them. *)
Inductive message :=
| MsgBackupCreated (backup_path : path)
| MsgBackupError (target : path)
| MsgWriteError (relative_path : str)
| MsgExistsError (relative_path : str)
| MsgCreateError (relative_path : str)
| MsgReadError (relative_path : str)
| MsgProposed (number : nat) (proposal : Proposal)
| MsgNothingToApprove
| MsgApplied (is_new_file : bool) (target : str)
| MsgApplyFailed (target : str)
| MsgProcessed (count : nat)
| MsgFailedSome (count : nat) (targets : list str)
| MsgFailedAll (count : nat)
| MsgNothingToReject
| MsgRejected (count : nat)
| MsgRejectedItem (target : str).

(** What a session does, in order: the calls it makes and what it prints. *)
Inductive event :=
| CallExists (p : path) (answer : bool)
| CallExistsRaised (p : path)
| CallNow (dt : datetime)
| CallMkdir (p : path) (ok : bool)
| CallCopy (src dst : path) (ok : bool)
| CallWrite (p : path) (content : str) (ok : bool)
| CallRead (p : path)
| CallCommit (commit_message : str) (files : list str) (ok : bool)
| CallScan
| Print (m : message).

(** The state of a [ChatInterface] with its project's world. *)
Record Session (W : Type) := mkSession {
  world : W;
  trace : list event;
  pending_proposals : list Proposal
}.
Arguments mkSession {W}.
Arguments world {W}.
Arguments trace {W}.
Arguments pending_proposals {W}.

(** ** A state monad over sessions *)

Module Run.

Definition M (W A : Type) : Type := Session W -> A * Session W.

Definition ret {W A : Type} (a : A) : M W A := fun s => (a, s).

Definition bind {W A B : Type} (m : M W A) (k : A -> M W B) : M W B :=
  fun s => let (a, s') := m s in k a s'.

Definition emit {W : Type} (e : event) : M W unit :=
  fun s => (tt, {| world := world s; trace := trace s ++ [e];
                   pending_proposals := pending_proposals s |}).

(** A call that leaves the world as it is. *)
Definition ask {W A : Type} (f : W -> A) (log : A -> event) : M W A :=
  fun s => let a := f (world s) in
           (a, {| world := world s; trace := trace s ++ [log a];
                  pending_proposals := pending_proposals s |}).

(** A call that may change the world. *)
Definition act {W A : Type} (f : W -> W * A) (log : A -> event) : M W A :=
  fun s => let (w, a) := f (world s) in
           (a, {| world := w; trace := trace s ++ [log a];
                  pending_proposals := pending_proposals s |}).

Definition get_pending {W : Type} : M W (list Proposal) :=
  fun s => (pending_proposals s, s).

Definition set_pending {W : Type} (ps : list Proposal) : M W unit :=
  fun s => (tt, {| world := world s; trace := trace s;
                   pending_proposals := ps |}).

End Run.

Notation "'let*' x ':=' m 'in' k" := (Run.bind m (fun x => k))
  (at level 10, x binder, m at level 100, k at level 200).

(** ** FileEditor: [_create_backup], [read_file], [write_file] and
    [create_file] of [file_editor.py] (lines 51 to 179) *)

(** [write_file] and [create_file] are given here for the calls of
    [exists()] that answer; [RaisingEditor], further down, follows the same
    lines with the [OSError] that [exists()] can raise. *)

Module FileEditor.
Import PyStr Scanner Run.

Section Editor.
Context {W : Type} `{OS W}.

(** [self.project_path], the resolved (absolute) project directory. *)
Variable project_path : path.

(** [self.backup_dir = self.project_path / ".code_assistant_backups"] *)
Definition backup_dir : path :=
  Path.join project_path (Path.of_str (lit ".code_assistant_backups")).

(** [f"{relative_path.name}.{timestamp}.bak"] *)
Definition backup_name (relative_path : path) (timestamp : str) : str :=
  Path.name relative_path ++ [dot] ++ timestamp ++ lit ".bak".

Definition backup_subdir (relative_path : path) : path :=
  Path.join backup_dir (Path.parent relative_path).

Definition backup_path (relative_path : path) (timestamp : str) : path :=
  Path.join (backup_subdir relative_path)
    (Path.of_str (backup_name relative_path timestamp)).

(** [_create_backup(file_path)]: the path of the backup, or [None] when an
    exception was caught. *)
Definition _create_backup (target : path) : M W (option path) :=
  match Path.relative_to target project_path with
  | None =>
      let* _ := emit (Print (MsgBackupError target)) in ret None
  | Some relative_path =>
      let* dt := ask now CallNow in
      let timestamp := Clock.strftime dt in
      let* made :=
        act (mkdir_parents (backup_subdir relative_path))
          (CallMkdir (backup_subdir relative_path)) in
      if made then
        let* copied :=
          act (copy2 target (backup_path relative_path timestamp))
            (CallCopy target (backup_path relative_path timestamp)) in
        if copied then ret (Some (backup_path relative_path timestamp))
        else let* _ := emit (Print (MsgBackupError target)) in ret None
      else let* _ := emit (Print (MsgBackupError target)) in ret None
  end.

(** [read_file(relative_path)] *)
Definition read_file (relative_path : str) : M W str :=
  let target := Path.join project_path (Path.of_str relative_path) in
  let* first := ask (read_utf8 target) (fun _ => CallRead target) in
  match first with
  | ReadOk content => ret content
  | ReadDecodeError =>
      let* second := ask (read_latin1 target) (fun _ => CallRead target) in
      match second with
      | Some content => ret content
      | None =>
          let* _ := emit (Print (MsgReadError relative_path)) in ret []
      end
  | ReadError =>
      let* _ := emit (Print (MsgReadError relative_path)) in ret []
  end.

(** The body of the [try] block shared by [write_file] and [create_file]:
    make the parent directory, then open and write. *)
Definition put (target : path) (content : str) (on_error : message)
  : M W bool :=
  let* made :=
    act (mkdir_parents (Path.parent target))
      (CallMkdir (Path.parent target)) in
  if made then
    let* written :=
      act (write_text target content) (CallWrite target content) in
    if written then ret true
    else let* _ := emit (Print on_error) in ret false
  else let* _ := emit (Print on_error) in ret false.

(** [write_file(relative_path, content, create_backup)] *)
Definition write_file (relative_path content : str) (create_backup : bool)
  : M W bool :=
  let target := Path.join project_path (Path.of_str relative_path) in
  let* _ :=
    (if create_backup then
       let* present := ask (path_exists target) (CallExists target) in
       if present then
         let* saved := _create_backup target in
         match saved with
         | Some backup => emit (Print (MsgBackupCreated backup))
         | None => ret tt
         end
       else ret tt
     else ret tt) in
  put target content (MsgWriteError relative_path).

(** [create_file(relative_path, content)] *)
Definition create_file (relative_path content : str) : M W bool :=
  let target := Path.join project_path (Path.of_str relative_path) in
  let* present := ask (path_exists target) (CallExists target) in
  if present then
    let* _ := emit (Print (MsgExistsError relative_path)) in ret false
  else put target content (MsgCreateError relative_path).

End Editor.
End FileEditor.

(** ** ProposalQueue and ChangeApplier: [auto_create_files],
    [propose_change], [approve_proposal] and [reject_proposal] of
    [chat_interface.py] (lines 265 to 328 and 376 to 496) *)

Module Chat.
Import PyStr Scanner Validator Resolver Run.

Section Interface.
Context {W : Type} `{OS W}.

(** The project directory of the loaded project. *)
Variable project_path : path.

(** [ProjectManager.get_file_content], with a project loaded. *)
Definition get_file_content (relative_path : str) : M W str :=
  FileEditor.read_file project_path relative_path.

(** [propose_change(file_path, description, current_content, new_content)] *)
Definition propose_change (target description current new : str) : M W unit :=
  let proposal :=
    {| file_path := target; description := description;
       current_content := current; new_content := new |} in
  let* pending := get_pending in
  let* _ := set_pending (pending ++ [proposal]) in
  emit (Print (MsgProposed (length (pending ++ [proposal])) proposal)).

(** The body of the [for block in code_blocks] loop of [auto_create_files]:
    whether the block was proposed. *)
Definition propose_block (n_blocks : nat) (mentioned_files : list str)
  (user_message : str) (block : CodeBlock) : M W bool :=
  match resolve_filename n_blocks mentioned_files user_message block with
  | Some filename =>
      if truthy filename && truthy (code block) then
        if _is_valid_filename filename then
          let* existing_content := get_file_content filename in
          let* _ :=
            (if truthy existing_content then
               propose_change filename
                 (lit "Update " ++ filename ++ lit " with new code")
                 existing_content (code block)
             else
               propose_change filename
                 (lit "Create new file " ++ filename) [] (code block)) in
          ret true
        else ret false
      else ret false
  | None => ret false
  end.

Fixpoint propose_blocks (n_blocks : nat) (mentioned_files : list str)
  (user_message : str) (blocks : list CodeBlock) (files_proposed : nat)
  : M W nat :=
  match blocks with
  | [] => ret files_proposed
  | block :: blocks' =>
      let* proposed :=
        propose_block n_blocks mentioned_files user_message block in
      propose_blocks n_blocks mentioned_files user_message blocks'
        (if proposed then files_proposed + 1 else files_proposed)
  end.

(** [auto_create_files(response, user_message)]; [None] only if the scanner
    ran out of fuel, which it never does. *)
Definition auto_create_files (response user_message : str)
  : M W (option nat) :=
  match parse_code_blocks response with
  | None => ret None
  | Some code_blocks =>
      let mentioned_files := _extract_file_mentions user_message in
      let* files_proposed :=
        propose_blocks (length code_blocks) mentioned_files user_message
          code_blocks 0 in
      ret (Some files_proposed)
  end.

(** The body of the [for proposal in self.pending_proposals] loop of
    [approve_proposal]: whether the change was applied. *)
Definition apply_proposal (proposal : Proposal) : M W bool :=
  let is_new_file := negb (truthy (current_content proposal)) in
  let* success :=
    (if is_new_file then
       let* created :=
         FileEditor.create_file project_path (file_path proposal)
           (new_content proposal) in
       if created then ret true
       else FileEditor.write_file project_path (file_path proposal)
              (new_content proposal) false
     else FileEditor.write_file project_path (file_path proposal)
            (new_content proposal) true) in
  if success then
    let* _ := emit (Print (MsgApplied is_new_file (file_path proposal))) in
    ret true
  else
    let* _ := emit (Print (MsgApplyFailed (file_path proposal))) in
    ret false.

(** The loop, with its two lists [successful_files] and [failed_files]. *)
Fixpoint apply_all (proposals : list Proposal)
  (successful_files failed_files : list str) : M W (list str * list str) :=
  match proposals with
  | [] => ret (successful_files, failed_files)
  | proposal :: rest =>
      let* success := apply_proposal proposal in
      if success then
        apply_all rest (successful_files ++ [file_path proposal]) failed_files
      else
        apply_all rest successful_files (failed_files ++ [file_path proposal])
  end.

Definition is_empty {A : Type} (l : list A) : bool :=
  match l with [] => true | _ :: _ => false end.

(** [f"Applied changes to {len(successful_files)} file(s)"] *)
Definition batch_message (successful_files : list str) : str :=
  lit "Applied changes to " ++ Clock.decimal (length successful_files)
  ++ lit " file(s)".

(** [approve_proposal()] *)
Definition approve_proposal : M W bool :=
  let* pending := get_pending in
  if is_empty pending then
    let* _ := emit (Print MsgNothingToApprove) in ret false
  else
    let* outcome := apply_all pending [] [] in
    let successful_files := fst outcome in
    let failed_files := snd outcome in
    let* _ :=
      (if is_empty successful_files then ret tt
       else
         let* _ :=
           act (commit_changes (batch_message successful_files)
                  successful_files)
             (CallCommit (batch_message successful_files) successful_files) in
         act (fun w => (scan_directory w, tt)) (fun _ => CallScan)) in
    let* _ := set_pending [] in
    if is_empty successful_files then
      let* _ := emit (Print (MsgFailedAll (length failed_files))) in
      ret false
    else
      let* _ := emit (Print (MsgProcessed (length successful_files))) in
      let* _ :=
        (if is_empty failed_files then ret tt
         else emit (Print (MsgFailedSome (length failed_files)
                             failed_files))) in
      ret true.

Fixpoint print_rejected (proposals : list Proposal) : M W unit :=
  match proposals with
  | [] => ret tt
  | proposal :: rest =>
      let* _ := emit (Print (MsgRejectedItem (file_path proposal))) in
      print_rejected rest
  end.

(** [reject_proposal()] *)
Definition reject_proposal : M W unit :=
  let* pending := get_pending in
  if is_empty pending then emit (Print MsgNothingToReject)
  else
    let* _ := emit (Print (MsgRejected (length pending))) in
    let* _ := print_rejected pending in
    set_pending [].

End Interface.
End Chat.

(** ** An in-memory world, to run the model on *)

Module MemFS.
Import PyStr.

(** Regular files by the parts of their absolute path; directories are not
    recorded, they exist as far as files lie below them. *)
Record fs := mkFs {
  files : gmap (list str) str;
  locked : gset (list str);       (* cannot be written, created or copied to *)
  unreadable : gset (list str);   (* cannot be read *)
  clock : datetime;
  commits : list (str * list str)
}.

Definition with_files (w : fs) (fm : gmap (list str) str) : fs :=
  {| files := fm; locked := locked w; unreadable := unreadable w;
     clock := clock w; commits := commits w |}.

Definition is_file (p : path) (w : fs) : bool :=
  match files w !! parts p with
  | Some _ => true
  | None => false
  end.

Definition readable (p : path) (w : fs) : option str :=
  if bool_decide (parts p ∈ unreadable w) then None
  else files w !! parts p.

Definition mem_mkdir (p : path) (w : fs) : fs * bool :=
  (w, negb (is_file p w) && negb (bool_decide (parts p ∈ locked w))).

Definition mem_write (p : path) (content : str) (w : fs) : fs * bool :=
  if bool_decide (parts p ∈ locked w) then (w, false)
  else (with_files w (<[parts p := content]> (files w)), true).

Definition mem_copy (src dst : path) (w : fs) : fs * bool :=
  match readable src w with
  | Some content => mem_write dst content w
  | None => (w, false)
  end.

Definition mem_read (p : path) (w : fs) : read_result :=
  match readable p w with
  | Some content => ReadOk content
  | None => ReadError
  end.

Definition mem_commit (message : str) (paths : list str) (w : fs)
  : fs * bool :=
  ({| files := files w; locked := locked w; unreadable := unreadable w;
      clock := clock w; commits := commits w ++ [(message, paths)] |}, true).

#[export] Instance mem_os : OS fs := {|
  path_exists := is_file;
  now := clock;
  mkdir_parents := mem_mkdir;
  copy2 := mem_copy;
  write_text := mem_write;
  read_utf8 := mem_read;
  read_latin1 := readable;
  commit_changes := mem_commit;
  scan_directory := fun w => w
|}.

(** The project directory [/proj] and a moment in time. *)
Definition proj : path := {| absolute := true; parts := [lit "proj"] |}.

Definition noon : datetime :=
  {| year := 2024; month := 3; day := 9;
     hour := 12; minute := 0; second := 7; microsecond := 123456 |}%N.

Definition empty_fs : fs :=
  {| files := ∅; locked := ∅; unreadable := ∅; clock := noon;
     commits := [] |}.

(** A project that holds the files [fl], given by their paths below [/proj]
    and their contents. *)
Definition project_with (fl : list (str * str)) : fs :=
  with_files empty_fs
    (list_to_map (map (fun f => (parts (Path.join proj (Path.of_str (fst f))),
                                 snd f)) fl)).

Definition start (w : fs) : Session fs :=
  {| world := w; trace := []; pending_proposals := [] |}.

Definition content_of (relative_path : str) (w : fs) : option str :=
  files w !! parts (Path.join proj (Path.of_str relative_path)).

End MemFS.

(** ** Vocabulary for the statements about proposals and their application *)

Module ApplySpec.
Import PyStr Scanner Run.

(** The session [s] after the events [evs]. *)
Definition logged {W : Type} (s : Session W) (evs : list event) : Session W :=
  {| world := world s; trace := trace s ++ evs;
     pending_proposals := pending_proposals s |}.

(** The computation [m] leaves the queue as it is, and what it adds to the
    trace are events that satisfy [P]. *)
Definition emits {W A : Type} (P : event -> Prop) (m : M W A) : Prop :=
  forall s, pending_proposals (snd (m s)) = pending_proposals s
            /\ exists evs, trace (snd (m s)) = trace s ++ evs /\ Forall P evs.

(** Events of a backup: the copy, and the two lines printed about it. *)
Definition is_backup_event (e : event) : bool :=
  match e with
  | CallCopy _ _ _ => true
  | Print (MsgBackupCreated _) => true
  | Print (MsgBackupError _) => true
  | _ => false
  end.

Definition no_backup (e : event) : Prop := is_backup_event e = false.

(** The line [approve_proposal] prints per proposal: its path and whether the
    change was applied. *)
Definition outcome_of (e : event) : option (str * bool) :=
  match e with
  | Print (MsgApplied _ target) => Some (target, true)
  | Print (MsgApplyFailed target) => Some (target, false)
  | _ => None
  end.

Definition silent (e : event) : Prop := outcome_of e = None.

Fixpoint outcomes (evs : list event) : list (str * bool) :=
  match evs with
  | [] => []
  | e :: evs' =>
      match outcome_of e with
      | Some o => o :: outcomes evs'
      | None => outcomes evs'
      end
  end.

Definition succeeded_in (os : list (str * bool)) : list str :=
  map fst (List.filter snd os).

Definition failed_in (os : list (str * bool)) : list str :=
  map fst (List.filter (fun o => negb (snd o)) os).

(** The end of the loop body of [approve_proposal]: print and report the
    [success] that the editor returned. *)
Definition finish {W : Type} (proposal : Proposal) (r : bool * Session W)
  : bool * Session W :=
  let is_new_file := negb (truthy (current_content proposal)) in
  if fst r
  then (true, logged (snd r)
                [Print (MsgApplied is_new_file (file_path proposal))])
  else (false, logged (snd r) [Print (MsgApplyFailed (file_path proposal))]).

(** The editor's part of applying one proposal. *)
Definition edit {W : Type} `{OS W} (project_path : path)
  (proposal : Proposal) : M W bool :=
  if negb (truthy (current_content proposal)) then
    let* created :=
      FileEditor.create_file project_path (file_path proposal)
        (new_content proposal) in
    if created then ret true
    else FileEditor.write_file project_path (file_path proposal)
           (new_content proposal) false
  else FileEditor.write_file project_path (file_path proposal)
         (new_content proposal) true.

Definition is_digit (c : ascii) : bool :=
  (48 <=? nat_of_ascii c) && (nat_of_ascii c <=? 57).

(** [YYYYMMDD_HHMMSS_microseconds]: eight digits, six digits, six digits. *)
Definition timestamp_shaped (ts : str) : Prop :=
  exists date time micro,
    ts = date ++ [Clock.underscore] ++ time ++ [Clock.underscore] ++ micro
    /\ length date = 8 /\ length time = 6 /\ length micro = 6
    /\ Forall (fun c => is_digit c = true) (date ++ time ++ micro).

(** The number a string of decimal digits writes. *)
Definition value (digits : str) : N :=
  fold_left (fun acc c => (10 * acc + (N_of_ascii c - 48))%N) digits 0%N.

(** The fields a time stamp writes, read back from their columns. *)
Definition read_timestamp (ts : str) : datetime :=
  {| year := value (substr ts 0 4);
     month := value (substr ts 4 6);
     day := value (substr ts 6 8);
     hour := value (substr ts 9 11);
     minute := value (substr ts 11 13);
     second := value (substr ts 13 15);
     microsecond := value (substr ts 16 22) |}.

End ApplySpec.

(** *** Worlds and responses the statements are tried on *)

Module Cases.
Import PyStr Scanner MemFS.

(** An empty fence pair, sent in answer to a message that names a file. *)
Definition empty_pair_response : str := text_of_lines ["```python"; "```"].
Definition empty_pair_message : str := lit "create main.py".

(** An update that was proposed for [app.py]; the file is gone by the time
    the proposal is applied. *)
Definition vanished_update : Proposal :=
  {| file_path := lit "app.py";
     description := lit "Update app.py with new code";
     current_content := lit "old"; new_content := lit "new" |}.

(** An update proposed for a file outside the project, named by its
    absolute path. *)
Definition outside_update : Proposal :=
  {| file_path := lit "/etc/app.conf";
     description := lit "Update /etc/app.conf with new code";
     current_content := lit "old"; new_content := lit "new" |}.

Definition outside_world : fs :=
  with_files empty_fs {[ [lit "etc"; lit "app.conf"] := lit "old" ]}.

(** An update of [src/app.py] in a project that holds it. *)
Definition inside_update : Proposal :=
  {| file_path := lit "src/app.py";
     description := lit "Update src/app.py with new code";
     current_content := lit "old"; new_content := lit "new" |}.

Definition inside_world : fs := project_with [(lit "src/app.py", lit "old")].

(** A project whose [notes.md] is empty on disk. *)
Definition empty_file_world : fs := project_with [(lit "notes.md", [])].

Definition notes_block : CodeBlock :=
  {| language := lit "markdown"; code := lit "# Notes";
     filename := Some (lit "notes.md") |}.

(** Two creations, of which the first cannot be written. *)
Definition locked_world : fs :=
  {| files := ∅; locked := {[ [lit "proj"; lit "a.py"] ]}; unreadable := ∅;
     clock := noon; commits := [] |}.

Definition two_creations : list Proposal :=
  [ {| file_path := lit "a.py"; description := lit "Create new file a.py";
       current_content := []; new_content := lit "a = 1" |};
    {| file_path := lit "b.py"; description := lit "Create new file b.py";
       current_content := []; new_content := lit "b = 2" |} ].

End Cases.


(** *** Vocabulary for the invariants of the scanned blocks *)

Module BlockSpec.
Import PyStr Scanner.

(** [s] carries no whitespace at either end: [s.strip() == s]. *)
Definition trimmed (s : str) : Prop := strip s = s.

(** What every block that the scanner appends satisfies. *)
Record well_formed (b : CodeBlock) : Prop := {
  language_named : language b <> [];
  language_trimmed : trimmed (language b);
  code_trimmed : trimmed (code b);
  markdown_unnamed : is_markdown (language b) = true -> filename b = None;
  filename_shape :
    forall f, filename b = Some f ->
      trimmed f /\ ~ In nlc f /\ (In dot f \/ In slash f)
}.

End BlockSpec.

(** *** Vocabulary for the proposals that [auto_create_files] queues *)

Module QueueSpec.
Import PyStr Scanner Validator BlockSpec.

(** A creation carries no current content and says so in its description;
    an update carries the content that was read. *)
Definition described (p : Proposal) : Prop :=
  (current_content p = []
   /\ description p = lit "Create new file " ++ file_path p)
  \/ (current_content p <> []
      /\ description p = lit "Update " ++ file_path p ++ lit " with new code").

Record queued_ok (p : Proposal) : Prop := {
  path_valid : _is_valid_filename (file_path p) = true;
  content_given : new_content p <> [];
  content_trimmed : trimmed (new_content p);
  description_fits : described p
}.

End QueueSpec.

(** ** Dictionaries: [dict] with [str] keys, in insertion order *)

Module PyDict.
Import PyStr.

Definition dict (V : Type) : Type := list (str * V).

(** [d.get(k)] *)
Fixpoint get {V : Type} (d : dict V) (k : str) : option V :=
  match d with
  | [] => None
  | (k', v) :: d' => if eqb k k' then Some v else get d' k
  end.

(** [d[k] = v]: a key that is there keeps its place, a new one goes to the
    end. *)
Fixpoint set {V : Type} (d : dict V) (k : str) (v : V) : dict V :=
  match d with
  | [] => [(k, v)]
  | (k', v') :: d' =>
      if eqb k k' then (k', v) :: d' else (k', v') :: set d' k v
  end.

(** [k in d] *)
Definition mem {V : Type} (d : dict V) (k : str) : bool :=
  match get d k with Some _ => true | None => false end.

Definition keys {V : Type} (d : dict V) : list str := map fst d.
Definition values {V : Type} (d : dict V) : list V := map snd d.

End PyDict.

(** ** More of [pathlib]: [str(p)] and [p.suffix] *)

Module PathText.
Import PyStr Scanner.

(** [str(p)] *)
Definition to_str (p : path) : str :=
  if absolute p then slash :: join [slash] (parts p)
  else match parts p with
       | [] => [dot]
       | _ :: _ => join [slash] (parts p)
       end.

Fixpoint rfind_from (c : ascii) (s : str) (pos : nat) (found : option nat)
  : option nat :=
  match s with
  | [] => found
  | x :: s' =>
      rfind_from c s' (S pos) (if Ascii.eqb x c then Some pos else found)
  end.

(** [s.rfind(c)] for a one-character string [c]; [None] stands for -1. *)
Definition rfind (c : ascii) (s : str) : option nat := rfind_from c s 0 None.

(** [PurePath.suffix]: the name from its last dot on, unless that dot is the
    first or the last character of the name. *)
Definition suffix_of_name (name : str) : str :=
  match rfind dot name with
  | Some i => if (0 <? i) && (i <? length name - 1) then from name i else []
  | None => []
  end.

(** [p.suffix] *)
Definition suffix (p : path) : str := suffix_of_name (Path.name p).

(** The order of [str]: by code points, a proper prefix first. *)
Fixpoint str_leb (a b : str) : bool :=
  match a, b with
  | [], _ => true
  | _ :: _, [] => false
  | x :: a', y :: b' =>
      if (nat_of_ascii x <? nat_of_ascii y) then true
      else if (nat_of_ascii y <? nat_of_ascii x) then false
      else str_leb a' b'
  end.

Fixpoint insert_sorted (x : str) (l : list str) : list str :=
  match l with
  | [] => [x]
  | y :: l' => if str_leb x y then x :: l else y :: insert_sorted x l'
  end.

(** [sorted(l)] for a list of strings: the one ascending arrangement of
    [l]. *)
Definition sorted (l : list str) : list str := fold_right insert_sorted [] l.

(** [s.count(c)] for a one-character string [c]. *)
Definition count (c : ascii) (s : str) : nat :=
  length (List.filter (Ascii.eqb c) s).

(** [s.endswith(p)] *)
Definition endswith (p s : str) : bool := startswith (rev p) (rev s).

End PathText.

(** ** FileScanner: [file_scanner.py] *)

(** What [os.walk] sees below a directory: the names of its files, in the
    order the directory lists them, and its subdirectories by name.  A
    directory that cannot be listed is seen as empty, and a link to a
    directory, which is not walked into, as no entry at all. *)
Inductive tree :=
| Node (files : list str) (dirs : forest)
with forest :=
| NoDirs
| SubDir (name : str) (content : tree) (rest : forest).

Scheme tree_forest_ind := Induction for tree Sort Prop
  with forest_tree_ind := Induction for forest Sort Prop.

Module FileScanner.
Import PyStr Scanner PathText Run.

Definition SOURCE_EXTENSIONS : list str :=
  map lit
    [".py"; ".pyw"; ".js"; ".jsx"; ".ts"; ".tsx"; ".java";
     ".cpp"; ".hpp"; ".c"; ".h"; ".cc"; ".cxx"; ".cs"; ".go"; ".rs"; ".rb";
     ".php"; ".swift"; ".kt"; ".kts"; ".scala"; ".r"; ".R"; ".m"; ".sql";
     ".sh"; ".bash"; ".md"; ".txt"; ".rst";
     ".json"; ".yaml"; ".yml"; ".toml"; ".ini"; ".cfg";
     ".html"; ".css"; ".xml"].

Definition EXCLUDE_DIRS : list str :=
  map lit
    ["__pycache__"; ".git"; ".svn"; ".hg";
     "node_modules"; "venv"; "env"; ".env";
     "build"; "dist"; ".eggs"; "*.egg-info";
     ".tox"; ".pytest_cache"; ".mypy_cache";
     "target"; "bin"; "obj"].

(** [x in s] for one of the two sets above. *)
Definition member (x : str) (s : list str) : bool := existsb (eqb x) s.

(** The body of [for file in files]: the files of one directory that are
    appended to [source_files]. *)
Fixpoint scan_files (root_path : path) (files : list str) : list path :=
  match files with
  | [] => []
  | file :: files' =>
      let file_path := Path.join root_path (Path.of_str file) in
      if member (suffix file_path) SOURCE_EXTENSIONS
      then file_path :: scan_files root_path files'
      else scan_files root_path files'
  end.

(** The loop over [os.walk(root)]: the directory itself first, then the
    subdirectories that are kept, in their order, each with all that lies
    below it. *)
Fixpoint walk (root_path : path) (t : tree) : list path :=
  match t with
  | Node files dirs => scan_files root_path files ++ walk_dirs root_path dirs
  end
with walk_dirs (root_path : path) (dirs : forest) : list path :=
  match dirs with
  | NoDirs => []
  | SubDir d content rest =>
      (if member d EXCLUDE_DIRS then []
       else walk (Path.join root_path (Path.of_str d)) content)
      ++ walk_dirs root_path rest
  end.

Section Scanner.
Context {W : Type} `{OS W}.

(** [self.project_path] *)
Variable project_path : path.

(** [scan_directory()], on what lies below the project directory: the new
    [source_files] and the count that is returned. *)
Definition scan_directory (t : tree) : list path * nat :=
  let source_files := walk project_path t in
  (source_files, length source_files).

(** [read_file(file_path)] *)
Definition read_file (file_path : path) : M W str :=
  let* first := ask (read_utf8 file_path) (fun _ => CallRead file_path) in
  match first with
  | ReadOk content => ret content
  | ReadDecodeError =>
      let* second :=
        ask (read_latin1 file_path) (fun _ => CallRead file_path) in
      match second with
      | Some content => ret content
      | None =>
          let* _ := emit (Print (MsgReadError (to_str file_path))) in ret []
      end
  | ReadError =>
      let* _ := emit (Print (MsgReadError (to_str file_path))) in ret []
  end.

(** The path a file is listed under: relative to the project where that
    can be, else as it is. *)
Definition listed_as (file_path : path) : str :=
  match Path.relative_to file_path project_path with
  | Some relative_path => to_str relative_path
  | None => to_str file_path
  end.

(** [load_all_files()]: the new [file_contents]. *)
Fixpoint load_files (source_files : list path)
  (file_contents : PyDict.dict str) : M W (PyDict.dict str) :=
  match source_files with
  | [] => ret file_contents
  | file_path :: rest =>
      let* content := read_file file_path in
      load_files rest
        (PyDict.set file_contents (listed_as file_path) content)
  end.

Definition load_all_files (source_files : list path)
  : M W (PyDict.dict str) :=
  load_files source_files [].

(** [get_file_list()] *)
Definition get_file_list (source_files : list path) : list str :=
  sorted (map listed_as source_files).

(** [get_file_structure()] *)
Fixpoint file_structure (source_files : list path)
  (structure : PyDict.dict (list str)) : PyDict.dict (list str) :=
  match source_files with
  | [] => structure
  | file_path :: rest =>
      match Path.relative_to file_path project_path with
      | Some relative_path =>
          let parent_dir := to_str (Path.parent relative_path) in
          let parent_dir :=
            if eqb parent_dir (lit ".") then lit "root" else parent_dir in
          let present :=
            match PyDict.get structure parent_dir with
            | Some names => names
            | None => []
            end in
          file_structure rest
            (PyDict.set structure parent_dir
               (present ++ [Path.name relative_path]))
      | None => file_structure rest structure
      end
  end.

Definition get_file_structure (source_files : list path)
  : PyDict.dict (list str) :=
  file_structure source_files [].

(** The dictionary that [get_statistics] returns. *)
Record statistics := mkStatistics {
  total_files : nat;
  total_lines : nat;
  total_chars : nat;
  by_extension : PyDict.dict nat
}.

(** [extensions.get(ext, 0) + 1] *)
Definition count_one (extensions : PyDict.dict nat) (ext : str)
  : PyDict.dict nat :=
  PyDict.set extensions ext
    (match PyDict.get extensions ext with Some n => n | None => 0 end + 1).

Fixpoint statistics_loop (source_files : list path) (stats : statistics)
  : M W statistics :=
  match source_files with
  | [] => ret stats
  | file_path :: rest =>
      let ext := suffix file_path in
      let extensions := count_one (by_extension stats) ext in
      let* content := read_file file_path in
      statistics_loop rest
        {| total_files := total_files stats;
           total_lines := total_lines stats + (count nlc content + 1);
           total_chars := total_chars stats + length content;
           by_extension := extensions |}
  end.

(** [get_statistics()] *)
Definition get_statistics (source_files : list path) : M W statistics :=
  statistics_loop source_files
    {| total_files := length source_files; total_lines := 0;
       total_chars := 0; by_extension := [] |}.

(** [get_file_content(relative_path)] *)
Definition get_file_content (file_contents : PyDict.dict str)
  (relative_path : str) : M W str :=
  match PyDict.get file_contents relative_path with
  | Some content => ret content
  | None =>
      let full_path := Path.join project_path (Path.of_str relative_path) in
      let* present := ask (path_exists full_path) (CallExists full_path) in
      if present then read_file full_path else ret []
  end.

(** [find_files_by_pattern(pattern)] *)
Fixpoint find_files_by_pattern (pattern : str) (source_files : list path)
  : list str :=
  match source_files with
  | [] => []
  | file_path :: rest =>
      if contains (lower pattern) (lower (Path.name file_path))
      then listed_as file_path :: find_files_by_pattern pattern rest
      else find_files_by_pattern pattern rest
  end.

End Scanner.
End FileScanner.

(** *** Vocabulary for the statements about the file scanner *)

Module TreeSpec.
Import PyStr Scanner PathText FileScanner.

(** [sub] is the subdirectory named [d] among [dirs]. *)
Inductive child : forest -> str -> tree -> Prop :=
| child_here (d : str) (sub : tree) (rest : forest) :
    child (SubDir d sub rest) d sub
| child_later (d' : str) (sub' : tree) (rest : forest) (d : str)
    (sub : tree) :
    child rest d sub -> child (SubDir d' sub' rest) d sub.

(** The tree holds a file [name] in the directory reached through the
    subdirectories [chain], from the top down. *)
Inductive located : tree -> list str -> str -> Prop :=
| located_here (files : list str) (dirs : forest) (name : str) :
    In name files -> located (Node files dirs) [] name
| located_below (files : list str) (dirs : forest) (d : str) (sub : tree)
    (chain : list str) (name : str) :
    child dirs d sub -> located sub chain name ->
    located (Node files dirs) (d :: chain) name.

(** A name a directory entry can have: not empty, without [/], and neither
    [.] nor [..]. *)
Definition entry_name (name : str) : Prop :=
  name <> [] /\ ~ In slash name /\ name <> [dot] /\ name <> [dot; dot].

Fixpoint names_ok (t : tree) : Prop :=
  match t with
  | Node files dirs => Forall entry_name files /\ dirs_ok dirs
  end
with dirs_ok (dirs : forest) : Prop :=
  match dirs with
  | NoDirs => True
  | SubDir d sub rest => entry_name d /\ names_ok sub /\ dirs_ok rest
  end.

(** The path of the file [name] in the directory [chain] below [root]. *)
Definition file_at (root : path) (chain : list str) (name : str) : path :=
  {| absolute := absolute root; parts := parts root ++ chain ++ [name] |}.

Definition kept (d : str) : Prop := member d EXCLUDE_DIRS = false.

Definition source_name (name : str) : Prop :=
  member (suffix_of_name name) SOURCE_EXTENSIONS = true.

(** The same tree up to the order in which directories list their
    entries. *)
Inductive same_tree : tree -> tree -> Prop :=
| same_node (files files' : list str) (dirs dirs' : forest) :
    Permutation files files' -> same_dirs dirs dirs' ->
    same_tree (Node files dirs) (Node files' dirs')
with same_dirs : forest -> forest -> Prop :=
| same_none : same_dirs NoDirs NoDirs
| same_skip (d : str) (sub sub' : tree) (rest rest' : forest) :
    same_tree sub sub' -> same_dirs rest rest' ->
    same_dirs (SubDir d sub rest) (SubDir d sub' rest')
| same_swap (d1 : str) (sub1 : tree) (d2 : str) (sub2 : tree)
    (rest : forest) :
    same_dirs (SubDir d1 sub1 (SubDir d2 sub2 rest))
      (SubDir d2 sub2 (SubDir d1 sub1 rest))
| same_trans (a b c : forest) :
    same_dirs a b -> same_dirs b c -> same_dirs a c.

Scheme same_tree_dirs_ind := Minimality for same_tree Sort Prop
  with same_dirs_tree_ind := Minimality for same_dirs Sort Prop.

(** Ascending in the order of [str]: each string is at most the next. *)
Fixpoint ascending (l : list str) : Prop :=
  match l with
  | [] => True
  | x :: l' =>
      match l' with
      | [] => True
      | y :: _ => str_leb x y = true
      end /\ ascending l'
  end.

(** The key [get_file_structure] files a path under, with the name it
    lists there. *)
Definition filed_under (project_path file_path : path)
  : option (str * str) :=
  match Path.relative_to file_path project_path with
  | Some relative_path =>
      let parent_dir := to_str (Path.parent relative_path) in
      Some (if eqb parent_dir (lit ".") then lit "root" else parent_dir,
            Path.name relative_path)
  | None => None
  end.

(** The names that the files of [source_files] filed under [key] have, in
    their order. *)
Fixpoint names_under (project_path : path) (key : str)
  (source_files : list path) : list str :=
  match source_files with
  | [] => []
  | file_path :: rest =>
      match filed_under project_path file_path with
      | Some (k, name) =>
          if eqb k key then name :: names_under project_path key rest
          else names_under project_path key rest
      | None => names_under project_path key rest
      end
  end.

(** The names a structure lists under [key]: none if the key is absent. *)
Definition names_at (structure : PyDict.dict (list str)) (key : str)
  : list str :=
  match PyDict.get structure key with Some names => names | None => [] end.

(** [extensions.get(ext, 0)] *)
Definition counted (extensions : PyDict.dict nat) (ext : str) : nat :=
  match PyDict.get extensions ext with Some n => n | None => 0 end.

(** How many of [source_files] have the suffix [ext]. *)
Definition with_suffix (ext : str) (source_files : list path) : nat :=
  length (List.filter (fun p => eqb (suffix p) ext) source_files).

End TreeSpec.

(** *** A project tree the statements are tried on *)

Module TreeCases.
Import PyStr FileScanner.

Definition leaf (files : list String.string) : tree :=
  Node (map lit files) NoDirs.

(** [main.py] and [notes.bin] at the top, and four subdirectories: [src],
    [node_modules], [pkg.egg-info] and [.code_assistant_backups]. *)
Definition sample_tree : tree :=
  Node [lit "main.py"; lit "notes.bin"]
    (SubDir (lit "src") (leaf ["app.py"; ".env"; "Makefile"])
       (SubDir (lit "node_modules") (leaf ["lib.js"])
          (SubDir (lit "pkg.egg-info") (leaf ["meta.json"])
             (SubDir (lit ".code_assistant_backups")
                (leaf ["main.py.20240309_120007_123456.bak"])
                NoDirs)))).

(** The same directories, listed in another order. *)
Definition sample_tree_reordered : tree :=
  Node [lit "notes.bin"; lit "main.py"]
    (SubDir (lit "node_modules") (leaf ["lib.js"])
       (SubDir (lit "src") (leaf ["Makefile"; "app.py"; ".env"])
          (SubDir (lit "pkg.egg-info") (leaf ["meta.json"])
             (SubDir (lit ".code_assistant_backups")
                (leaf ["main.py.20240309_120007_123456.bak"])
                NoDirs)))).

End TreeCases.

(** ** ProjectManager: the README of a project ([project_manager.py], lines
    73 to 83 and 126 to 136) *)

Module ProjectManager.
Import PyStr.

(** [readme_content], the text [create_new_project] writes to
    [README.md]. *)
Definition readme_content (description : str) : str :=
  lit "# Project" ++ nl
  ++ nl
  ++ lit "## Description" ++ nl
  ++ description ++ nl
  ++ nl
  ++ lit "## Notes" ++ nl
  ++ lit "This project was created and is managed by the Code Assistant tool."
  ++ nl.

Definition crc : ascii := ascii_of_nat 13.

(** What a file opened with [open(path, "r", encoding="utf-8")] gives for
    the characters it holds.  The file is read in text mode with universal
    newlines: a carriage return followed by a newline, and a carriage return
    alone, are each read as one newline. *)
Fixpoint universal_newlines (text : str) : str :=
  match text with
  | [] => []
  | c :: text' =>
      if Ascii.eqb c crc then
        match text' with
        | d :: text'' =>
            if Ascii.eqb d nlc then nlc :: universal_newlines text''
            else nlc :: universal_newlines text'
        | [] => [nlc]
        end
      else c :: universal_newlines text'
  end.

(** The lines of a text that was read: each with the newline that ends it;
    the last line is there only if it is not empty. *)
Fixpoint lines_of (text : str) : list str :=
  match text with
  | [] => []
  | c :: text' =>
      if Ascii.eqb c nlc then [c] :: lines_of text'
      else match lines_of text' with
           | [] => [[c]]
           | line :: lines => (c :: line) :: lines
           end
  end.

(** [f.readlines()] on a file that holds the characters [text]. *)
Definition readlines (text : str) : list str :=
  lines_of (universal_newlines text).

(** What [load_existing_project] makes of a [README.md] that holds the
    characters [text]: the new [project_description], which stays the
    [previous] one when the file has no more than two lines. *)
Definition description_from_readme (text previous : str) : str :=
  let lines := readlines text in
  if 2 <? length lines
  then strip (concat (firstn 8 (skipn 2 lines)))
  else previous.

(** A description of one line: it holds neither a newline nor a carriage
    return. *)
Definition one_line (description : str) : Prop :=
  ~ In nlc description /\ ~ In crc description.

End ProjectManager.

(** ** The chat front end: the rest of [chat_interface.py] *)

(** [s.split()]: the words of [s], separated by runs of whitespace. *)
Module Words.
Import PyStr.

Fixpoint words_from (current : str) (s : str) : list str :=
  match s with
  | [] => if truthy current then [current] else []
  | c :: s' =>
      if isspace c then
        (if truthy current then [current] else []) ++ words_from [] s'
      else words_from (current ++ [c]) s'
  end.

Definition words (s : str) : list str := words_from [] s.

End Words.

(** How a [prompt(...)] ends: with a line, or with [KeyboardInterrupt] or
    [EOFError]. *)
Inductive keyed :=
| Typed (line : str)
| CtrlC
| CtrlD.

(** How [OllamaClient.chat_stream] ends, once it has yielded its chunks: it
    is exhausted, it raises an exception (with this text), or the user
    interrupts it. *)
Inductive stream_end :=
| Exhausted
| Raised (text : str)
| Interrupted.

(** The dictionary of [ProjectManager.get_project_info]: the keys the chat
    interface reads, each absent or present.  A [statistics] entry always
    has its [total_files] and [total_lines]. *)
Record project_info := mkInfo {
  info_path : option str;
  info_description : option str;
  info_statistics : option (nat * nat);
  info_modified_files : option (list str)
}.

(** The calls the front end makes outside [chat_interface.py], besides
    those of the editor. *)
Class Desk (W : Type) := {
  (** [self.ollama_client.chat_stream(self.chat_history)], run to its end *)
  chat_stream : list (str * str) -> W -> W * (list str * stream_end);
  (** [input()]; [None] stands for [KeyboardInterrupt] or [EOFError] *)
  input : W -> W * option str;
  (** [self.project_manager.is_project_loaded()] *)
  is_project_loaded : W -> bool;
  (** [self.project_manager.get_project_info()] *)
  get_project_info : W -> project_info;
  (** [self.project_manager.get_file_list()] *)
  project_files : W -> list str;
  (** [self.project_manager.git_manager], as a truth value *)
  has_git_manager : W -> bool;
  (** [self.project_manager.git_manager.get_commit_history(max_count)] *)
  get_commit_history : nat -> W -> list str;
  (** [self.project_manager.revert_changes(commit_hash)] *)
  revert_changes : option str -> W -> W * bool
}.

(** What the front end prints, by the statement that prints it, and the
    calls it makes, in order. *)
Inductive shown :=
| ShowAssistant                          (* the prefix [Assistant: ] *)
| ShowChunk (chunk : str)
| ShowStreamError (error_msg : str)
| ShowBlank                              (* [print("\n")] *)
| ShowDetected (files_proposed : nat)    (* the lines before [input()] *)
| ShowRejecting
| ShowBanner
| ShowGoodbye
| ShowUseQuit
| ShowPressAgain
| ShowResponse (response : str)
| Asked (answer : option str)            (* [input()] and what it gave *)
| Streamed (messages : list (str * str)) (* [chat_stream(messages)] *)
| Reverted (commit_hash : option str) (ok : bool).

(** The state of a [ChatInterface]: the session of the core, the chat
    history, the counter of [Ctrl-D] presses, and what was shown. *)
Record Front (W : Type) := mkFront {
  core : Session W;
  chat_history : list (str * str);
  eof_count : nat;
  journal : list shown
}.
Arguments mkFront {W}.
Arguments core {W}.
Arguments chat_history {W}.
Arguments eof_count {W}.
Arguments journal {W}.

(** What [process_user_input] gives back: the response it returns, or the
    [KeyboardInterrupt] that passes through it.  [Unscanned] stands for a
    scan that ran out of steps, which no scan does. *)
Inductive reply :=
| Reply (response : str)
| Interrupt
| Unscanned.

(** How [run] stands after the keys it was given: it has returned, with
    these keys left unread, or it waits at the prompt. *)
Inductive run_state :=
| Exited (unread : list keyed)
| AtPrompt.

Module Console.
Import PyStr Scanner Run.

Definition MF (W A : Type) : Type := Front W -> A * Front W.

Definition unit_ {W A : Type} (a : A) : MF W A := fun f => (a, f).

Definition then_ {W A B : Type} (m : MF W A) (k : A -> MF W B) : MF W B :=
  fun f => let (a, f') := m f in k a f'.

(** A computation of the core, run on the session of the front end. *)
Definition lift {W A : Type} (m : M W A) : MF W A :=
  fun f => let (a, s) := m (core f) in
           (a, {| core := s; chat_history := chat_history f;
                  eof_count := eof_count f; journal := journal f |}).

Definition show {W : Type} (what : shown) : MF W unit :=
  fun f => (tt, {| core := core f; chat_history := chat_history f;
                   eof_count := eof_count f;
                   journal := journal f ++ [what] |}).

(** A call that reads the world. *)
Definition look {W A : Type} (g : W -> A) : MF W A :=
  fun f => (g (world (core f)), f).

(** A call that may change the world. *)
Definition call {W A : Type} (g : W -> W * A) : MF W A :=
  fun f => let (w, a) := g (world (core f)) in
           (a, {| core := {| world := w; trace := trace (core f);
                             pending_proposals :=
                               pending_proposals (core f) |};
                  chat_history := chat_history f;
                  eof_count := eof_count f; journal := journal f |}).

Definition get_history {W : Type} : MF W (list (str * str)) :=
  fun f => (chat_history f, f).

(** [self.chat_history.append({"role": role, "content": content})] *)
Definition append_history {W : Type} (role content : str) : MF W unit :=
  fun f => (tt, {| core := core f;
                   chat_history := chat_history f ++ [(role, content)];
                   eof_count := eof_count f; journal := journal f |}).

Definition get_eof_count {W : Type} : MF W nat := fun f => (eof_count f, f).

Definition set_eof_count {W : Type} (n : nat) : MF W unit :=
  fun f => (tt, {| core := core f; chat_history := chat_history f;
                   eof_count := n; journal := journal f |}).

End Console.

Notation "'let+' x ':=' m 'in' k" := (Console.then_ m (fun x => k))
  (at level 10, x binder, m at level 100, k at level 200).

Module ChatFront.
Import PyStr Scanner Run Console Words.

(** [f"  - {item}\n"] for each item *)
Definition bullets (items : list str) : str :=
  concat (map (fun item => lit "  - " ++ item ++ nl) items).

(** [info.get(key, default)] *)
Definition get_or (value : option str) (default : String.string) : str :=
  match value with Some v => v | None => lit default end.

(** [_show_help()] *)
Definition help_text : str :=
  text_of_lines
    [EmptyString;
     "Available commands:";
     "  /approve     - Approve and apply any pending proposals (if using manual mode)";
     "  /reject      - Reject any pending proposals (if using manual mode)";
     "  /status      - Show project status";
     "  /file <path> - Show content of a specific file";
     "  /files       - List all files in the project";
     "  /history     - Show git commit history";
     "  /revert      - Revert the last change";
     "  /revert <hash> - Revert to a specific commit";
     "  /help        - Show this help message";
     "  /quit, /exit - Exit the chat interface";
     EmptyString;
     "Exit options:";
     "  - Type /quit or /exit to exit immediately";
     "  - Press Ctrl+D twice consecutively to exit";
     "  - Press Ctrl+C to cancel current input (does not exit)";
     EmptyString;
     "Conversation mode:";
     "  - Have natural conversations with the AI about your code";
     "  - When the AI provides code with filenames, you'll be prompted:";
     "    Press Enter to approve all changes, or type 'q' to reject";
     EmptyString].

(** The head of the context of [add_system_context], up to the project
    information. *)
Definition context_head : str :=
  lit "You are an AI assistant helping with code development. "
  ++ lit "When providing code, use markdown code blocks with the filename as the first comment."
  ++ nl ++ nl
  ++ lit "Example format:" ++ nl
  ++ lit "```python" ++ nl ++ lit "# main.py" ++ nl ++ lit "import sys" ++ nl
  ++ lit "print('Hello')" ++ nl ++ lit "```" ++ nl ++ nl
  ++ lit "Current project information:" ++ nl.

(** The part of the context that lists the files: the first 20, and how
    many more there are. *)
Definition context_files (file_list : list str) : str :=
  if Chat.is_empty file_list then []
  else
    nl ++ lit "Project files:" ++ nl
    ++ bullets (firstn 20 file_list)
    ++ (if 20 <? length file_list
        then lit "  ... and " ++ Clock.decimal (length file_list - 20)
             ++ lit " more files" ++ nl
        else []).

Definition context_statistics (statistics : option (nat * nat)) : str :=
  match statistics with
  | Some (total_files, total_lines) =>
      lit "Total files: " ++ Clock.decimal total_files ++ nl
      ++ lit "Total lines: " ++ Clock.decimal total_lines ++ nl
  | None => []
  end.

(** The [context] that [add_system_context] builds. *)
Definition system_context (project_info : project_info)
  (file_list : list str) : str :=
  context_head
  ++ lit "Path: " ++ get_or (info_path project_info) "Unknown" ++ nl
  ++ lit "Description: "
  ++ get_or (info_description project_info) "No description" ++ nl
  ++ context_statistics (info_statistics project_info)
  ++ context_files file_list.

(** The status text for a loaded project. *)
Definition status_text (info : project_info) (pending : list Proposal)
  : str :=
  lit "Project Status:" ++ nl
  ++ lit "Path: " ++ get_or (info_path info) "Unknown" ++ nl
  ++ lit "Description: "
  ++ get_or (info_description info) "No description" ++ nl
  ++ match info_statistics info with
     | Some (total_files, total_lines) =>
         lit "Files: " ++ Clock.decimal total_files ++ nl
         ++ lit "Lines: " ++ Clock.decimal total_lines ++ nl
     | None => []
     end
  ++ match info_modified_files info with
     | Some (file :: files) =>
         nl ++ lit "Modified files: "
         ++ Clock.decimal (length (file :: files)) ++ nl
         ++ bullets (file :: files)
     | _ => []
     end
  ++ (if Chat.is_empty pending then []
      else
        nl ++ lit "Pending proposals: " ++ Clock.decimal (length pending)
        ++ nl
        ++ concat
             (map (fun proposal =>
                     lit "  - " ++ file_path proposal ++ lit ": "
                     ++ description proposal ++ nl)
                pending)).

Section Interface.
Context {W : Type} `{OS W} `{Desk W}.

(** The project directory of the loaded project. *)
Variable project_path : path.

(** [add_system_context()] *)
Definition add_system_context : MF W unit :=
  let+ loaded := look is_project_loaded in
  if loaded then
    let+ project_info := look get_project_info in
    let+ file_list := look project_files in
    append_history (lit "system") (system_context project_info file_list)
  else unit_ tt.

(** The loop [for chunk in ...]: print each chunk and add it to the
    response. *)
Fixpoint show_chunks (chunks : list str) (full_response : str)
  : MF W str :=
  match chunks with
  | [] => unit_ full_response
  | chunk :: rest =>
      let+ _ := show (ShowChunk chunk) in
      show_chunks rest (full_response ++ chunk)
  end.

(** [send_message(message)]; [None] stands for the [KeyboardInterrupt] of a
    stream that the user interrupts. *)
Definition send_message (message : str) : MF W (option str) :=
  let+ _ := append_history (lit "user") message in
  let+ _ := show ShowAssistant in
  let+ messages := get_history in
  let+ _ := show (Streamed messages) in
  let+ stream := call (chat_stream messages) in
  let+ full_response := show_chunks (fst stream) [] in
  match snd stream with
  | Interrupted => unit_ None
  | ended =>
      let+ full_response :=
        match ended with
        | Raised text =>
            let error_msg := nl ++ lit "Error during streaming: " ++ text in
            let+ _ := show (ShowStreamError error_msg) in
            unit_ (full_response ++ error_msg)
        | _ => unit_ full_response
        end in
      let+ _ := show ShowBlank in
      let+ _ := append_history (lit "assistant") full_response in
      unit_ (Some full_response)
  end.

(** [_get_project_status()] *)
Definition _get_project_status : MF W str :=
  let+ loaded := look is_project_loaded in
  if loaded then
    let+ info := look get_project_info in
    let+ pending := lift get_pending in
    unit_ (status_text info pending)
  else unit_ (lit "No project loaded").

(** [_show_file_content(file_path)] *)
Definition _show_file_content (target : str) : MF W str :=
  let+ content := lift (Chat.get_file_content project_path target) in
  if truthy content
  then unit_ (lit "Content of " ++ target ++ lit ":" ++ nl ++ content)
  else unit_ (lit "Could not read file: " ++ target).

(** [_list_files()] *)
Definition _list_files : MF W str :=
  let+ files := look project_files in
  if Chat.is_empty files then unit_ (lit "No files found in project")
  else unit_ (lit "Project files:" ++ nl ++ bullets files).

(** [_show_git_history()] *)
Definition _show_git_history : MF W str :=
  let+ git := look has_git_manager in
  if git then
    let+ history := look (get_commit_history 10) in
    if Chat.is_empty history then unit_ (lit "No commit history available")
    else
      unit_ (lit "Recent commits:" ++ nl
             ++ concat (map (fun commit => lit "  " ++ commit ++ nl) history))
  else unit_ (lit "No git repository available").

Definition revert (commit_hash : option str) : MF W bool :=
  let+ ok := call (revert_changes commit_hash) in
  let+ _ := show (Reverted commit_hash ok) in
  unit_ ok.

(** [_revert_to_commit(commit_hash)] *)
Definition _revert_to_commit (commit_hash : str) : MF W str :=
  let+ ok := revert (Some commit_hash) in
  if ok then unit_ (lit "Reverted to commit " ++ commit_hash)
  else unit_ (lit "Failed to revert to commit " ++ commit_hash).

(** [_revert_last_change()] *)
Definition _revert_last_change : MF W str :=
  let+ ok := revert None in
  if ok then unit_ (lit "Reverted last change")
  else unit_ (lit "Failed to revert last change").

(** The [if self.approve_proposal()] of both places that approve. *)
Definition approve (approved failed : String.string) : MF W reply :=
  let+ ok := lift (Chat.approve_proposal project_path) in
  if ok then unit_ (Reply (lit approved)) else unit_ (Reply (lit failed)).

(** The answer to the question whether to apply what was detected:
    [user_response == "" or user_response == "y" or
    user_response == "yes"]. *)
Definition says_yes (answer : str) : bool :=
  let user_response := lower (strip answer) in
  eqb user_response [] || eqb user_response (lit "y")
  || eqb user_response (lit "yes").

(** The last branch of [process_user_input]: a regular chat message. *)
Definition chat_turn (user_input : str) : MF W reply :=
  let+ sent := send_message user_input in
  match sent with
  | None => unit_ Interrupt
  | Some response =>
      let+ scanned :=
        lift (Chat.auto_create_files project_path response user_input) in
      match scanned with
      | None => unit_ Unscanned
      | Some files_proposed =>
          if 0 <? files_proposed then
            let+ _ := show (ShowDetected files_proposed) in
            let+ answer := call input in
            let+ _ := show (Asked answer) in
            match answer with
            | Some text =>
                if says_yes text
                then approve EmptyString "Failed to approve proposal"
                else
                  let+ _ := lift Chat.reject_proposal in
                  unit_ (Reply [])
            | None =>
                let+ _ := show ShowRejecting in
                let+ _ := lift Chat.reject_proposal in
                unit_ (Reply [])
            end
          else unit_ (Reply [])
      end
  end.

(** [process_user_input(user_input)] *)
Definition process_user_input (user_input : str) : MF W reply :=
  let user_input := strip user_input in
  let command := lower user_input in
  if eqb command (lit "/approve") then
    approve "Proposal approved and applied" "Failed to approve proposal"
  else if eqb command (lit "/reject") then
    let+ _ := lift Chat.reject_proposal in
    unit_ (Reply (lit "Proposal rejected"))
  else if eqb command (lit "/status") then
    let+ status := _get_project_status in unit_ (Reply status)
  else if startswith (lit "/file ") command then
    let+ content := _show_file_content (strip (from user_input 6)) in
    unit_ (Reply content)
  else if eqb command (lit "/files") then
    let+ files := _list_files in unit_ (Reply files)
  else if eqb command (lit "/history") then
    let+ history := _show_git_history in unit_ (Reply history)
  else if startswith (lit "/revert") command then
    match words user_input with
    | _ :: commit_hash :: _ =>
        let+ result := _revert_to_commit commit_hash in
        unit_ (Reply result)
    | _ =>
        let+ result := _revert_last_change in unit_ (Reply result)
    end
  else if eqb command (lit "/help") then unit_ (Reply help_text)
  else if eqb command (lit "/quit") || eqb command (lit "/exit") then
    unit_ (Reply (lit "QUIT"))
  else chat_turn user_input.

(** The loop of [run()], over the keys the user gives at the prompts one
    after the other. *)
Fixpoint run_loop (keys : list keyed) : MF W run_state :=
  match keys with
  | [] => unit_ AtPrompt
  | Typed user_input :: rest =>
      let+ _ := set_eof_count 0 in
      let+ answered := process_user_input user_input in
      match answered with
      | Reply response =>
          if eqb response (lit "QUIT") then
            let+ _ := show ShowGoodbye in unit_ (Exited rest)
          else
            let+ _ :=
              (if truthy response then show (ShowResponse response)
               else unit_ tt) in
            run_loop rest
      | Interrupt =>
          let+ _ := show ShowUseQuit in
          let+ _ := set_eof_count 0 in
          run_loop rest
      | Unscanned => unit_ AtPrompt
      end
  | CtrlC :: rest =>
      let+ _ := show ShowUseQuit in
      let+ _ := set_eof_count 0 in
      run_loop rest
  | CtrlD :: rest =>
      let+ count := get_eof_count in
      let+ _ := set_eof_count (count + 1) in
      if count + 1 =? 1 then
        let+ _ := show ShowPressAgain in run_loop rest
      else
        let+ _ := show ShowGoodbye in unit_ (Exited rest)
  end.

(** [run()] *)
Definition run (keys : list keyed) : MF W run_state :=
  let+ _ := show ShowBanner in
  let+ _ := add_system_context in
  run_loop keys.

End Interface.
End ChatFront.

(** *** Vocabulary for the statements about the front end *)

Module FrontSpec.
Import PyStr Console.

(** The computation [m] leaves the observation [g] of the state as it
    is. *)
Definition preserves {W A X : Type} (g : Front W -> X) (m : MF W A) : Prop :=
  forall f, g (snd (m f)) = g f.

(** Whatever the state, what [m] returns satisfies [P]. *)
Definition answers {W A : Type} (P : A -> Prop) (m : MF W A) : Prop :=
  forall f, P (fst (m f)).

(** A reply that does not end the session. *)
Definition goes_on (r : reply) : Prop := r <> Reply (lit "QUIT").

(** The queue of pending proposals of the front end. *)
Definition queue {W : Type} (f : Front W) : list Proposal :=
  pending_proposals (core f).

(** The input is [/quit] or [/exit], in any case and with any whitespace
    around it. *)
Definition quits (user_input : str) : Prop :=
  lower (strip user_input) = lit "/quit"
  \/ lower (strip user_input) = lit "/exit".

Definition quitsb (user_input : str) : bool :=
  eqb (lower (strip user_input)) (lit "/quit")
  || eqb (lower (strip user_input)) (lit "/exit").

(** Where the keys end the session, if they do: the keys left unread after
    the first line that quits, or after the second of two [Ctrl-D] presses
    in a row; [presses] is the number of [Ctrl-D] presses that came just
    before. *)
Fixpoint unread_after (presses : nat) (keys : list keyed)
  : option (list keyed) :=
  match keys with
  | [] => None
  | Typed user_input :: rest =>
      if quitsb user_input then Some rest else unread_after 0 rest
  | CtrlC :: rest => unread_after 0 rest
  | CtrlD :: rest =>
      match presses with
      | 0 => unread_after 1 rest
      | S _ => Some rest
      end
  end.

(** Two [Ctrl-D] presses in a row occur among the keys. *)
Definition double_press (keys : list keyed) : Prop :=
  exists before rest, keys = before ++ CtrlD :: CtrlD :: rest.

(** The full response of a stream: its chunks, and the line about the
    exception if it raised one. *)
Definition full_response (chunks : list str) (ended : stream_end) : str :=
  concat chunks
  ++ match ended with
     | Raised text => nl ++ lit "Error during streaming: " ++ text
     | _ => []
     end.

End FrontSpec.

(** ** A scripted desk, to run the front end on *)

Module ScriptedDesk.
Import PyStr MemFS.

(** The in-memory file system, with what the assistant will stream and what
    the user will answer at [input()], in the order of the calls. *)
Record desk := mkDesk {
  disk : fs;
  streams : list (list str * stream_end);
  answers : list (option str);
  loaded : bool;
  listing : list str
}.

Definition on_disk {A : Type} (g : fs -> fs * A) (d : desk) : desk * A :=
  let (w, a) := g (disk d) in
  ({| disk := w; streams := streams d; answers := answers d;
      loaded := loaded d; listing := listing d |}, a).

#[export] Instance desk_os : OS desk := {|
  path_exists := fun p d => is_file p (disk d);
  now := fun d => clock (disk d);
  mkdir_parents := fun p => on_disk (mem_mkdir p);
  copy2 := fun src dst => on_disk (mem_copy src dst);
  write_text := fun p content => on_disk (mem_write p content);
  read_utf8 := fun p d => mem_read p (disk d);
  read_latin1 := fun p d => readable p (disk d);
  commit_changes := fun message paths => on_disk (mem_commit message paths);
  scan_directory := fun d => d
|}.

#[export] Instance desk_front : Desk desk := {|
  chat_stream := fun _ d =>
    match streams d with
    | [] => (d, ([], Exhausted))
    | stream :: rest =>
        ({| disk := disk d; streams := rest; answers := answers d;
            loaded := loaded d; listing := listing d |}, stream)
    end;
  input := fun d =>
    match answers d with
    | [] => (d, None)
    | answer :: rest =>
        ({| disk := disk d; streams := streams d; answers := rest;
            loaded := loaded d; listing := listing d |}, answer)
    end;
  is_project_loaded := loaded;
  get_project_info := fun d =>
    {| info_path := Some (lit "/proj"); info_description := Some [];
       info_statistics := None; info_modified_files := None |};
  project_files := listing;
  has_git_manager := fun _ => true;
  get_commit_history := fun _ _ => [];
  revert_changes := fun _ d => (d, false)
|}.

Definition begin (d : desk) : Front desk :=
  {| core := {| world := d; trace := []; pending_proposals := [] |};
     chat_history := []; eof_count := 0; journal := [] |}.

(** The assistant answers with one block for [main.py], in two chunks, and
    the user presses Enter at the question that follows. *)
Definition one_file_desk : desk :=
  {| disk := empty_fs;
     streams :=
       [([text_of_lines ["Here it is:"; "```python"; "# main.py"; "print"];
          text_of_lines ["('Hello')"; "```"; EmptyString]],
         Exhausted)];
     answers := [Some []];
     loaded := false; listing := [] |}.

(** A line for the assistant, a [Ctrl-D], a line that quits, and one more
    line, which is never read. *)
Definition one_file_keys : list keyed :=
  [Typed (lit "write main.py"); CtrlD; Typed (lit " /QUIT "); Typed (lit "x")].

End ScriptedDesk.

(** ** FileEditor, the other functions: [delete_file], [append_to_file],
    [replace_in_file] and [restore_from_backup] of [file_editor.py] (lines
    181 to 276 and 297 to 318) *)

(** [s.replace(old, new)] *)
Module Replace.
Import PyStr.

(** From left to right: where [old] starts, [new] is written and the
    characters of [old] are skipped; elsewhere the character is kept. *)
Fixpoint replace_from (skip : nat) (old new s : str) : str :=
  match s with
  | [] => []
  | c :: s' =>
      match skip with
      | S skip' => replace_from skip' old new s'
      | 0 =>
          if startswith old s
          then new ++ replace_from (length old - 1) old new s'
          else c :: replace_from 0 old new s'
      end
  end.

(** An empty [old] is found before every character and at the end. *)
Definition replace (old new s : str) : str :=
  match old with
  | [] => new ++ concat (map (fun c => c :: new) s)
  | _ :: _ => replace_from 0 old new s
  end.

End Replace.

(** Two more calls on the file system. *)
Class Disk (W : Type) := {
  (** [file_path.unlink()] *)
  unlink : path -> W -> W * bool;
  (** [open(p, "a", encoding="utf-8")] and [f.write(content)] *)
  append_text : path -> str -> W -> W * bool
}.

(** What these functions call and print besides the events of the core. *)
Inductive note :=
| CallUnlink (p : path) (ok : bool)
| CallAppend (p : path) (content : str) (ok : bool)
| SayMissing (relative_path : str)       (* [Error: File ... does not exist] *)
| SayDeleteError (relative_path : str)
| SayAppendError (relative_path : str)
| SayNotFound (relative_path : str)      (* [Error: Text not found in file] *)
| SayRestoreError.

(** The session of the core with the notes of these functions. *)
Record Bench (W : Type) := mkBench {
  session : Session W;
  notes : list note
}.
Arguments mkBench {W}.
Arguments session {W}.
Arguments notes {W}.

Module Workbench.
Import Run.

Definition MB (W A : Type) : Type := Bench W -> A * Bench W.

Definition pure_ {W A : Type} (a : A) : MB W A := fun b => (a, b).

Definition next_ {W A B : Type} (m : MB W A) (k : A -> MB W B) : MB W B :=
  fun b => let (a, b') := m b in k a b'.

(** A computation of the core, run on the session of the bench. *)
Definition core_ {W A : Type} (m : M W A) : MB W A :=
  fun b => let (a, s) := m (session b) in
           (a, {| session := s; notes := notes b |}).

Definition jot {W : Type} (n : note) : MB W unit :=
  fun b => (tt, {| session := session b; notes := notes b ++ [n] |}).

(** A call that may change the world, noted with its answer. *)
Definition perform {W A : Type} (g : W -> W * A) (log : A -> note)
  : MB W A :=
  fun b => let (w, a) := g (world (session b)) in
           (a, {| session := {| world := w; trace := trace (session b);
                                pending_proposals :=
                                  pending_proposals (session b) |};
                  notes := notes b ++ [log a] |}).

End Workbench.

Notation "'let-' x ':=' m 'in' k" := (Workbench.next_ m (fun x => k))
  (at level 10, x binder, m at level 100, k at level 200).

Module FileEditorMore.
Import PyStr Scanner Run Workbench Replace.

Section Editor.
Context {W : Type} `{OS W} `{Disk W}.

(** [self.project_path] *)
Variable project_path : path.

(** The [if create_backup:] of [delete_file] and [append_to_file]: the file
    is known to exist. *)
Definition backup_first (target : path) (create_backup : bool) : M W unit :=
  if create_backup then
    let* saved := FileEditor._create_backup project_path target in
    match saved with
    | Some backup => emit (Print (MsgBackupCreated backup))
    | None => ret tt
    end
  else ret tt.

(** [delete_file(relative_path, create_backup)], for a call of [exists()]
    that answers (line 196 is outside the [try] block, as in
    [write_file]). *)
Definition delete_file (relative_path : str) (create_backup : bool)
  : MB W bool :=
  let target := Path.join project_path (Path.of_str relative_path) in
  let- present := core_ (ask (path_exists target) (CallExists target)) in
  if present then
    let- _ := core_ (backup_first target create_backup) in
    let- deleted := perform (unlink target) (CallUnlink target) in
    if deleted then pure_ true
    else let- _ := jot (SayDeleteError relative_path) in pure_ false
  else
    let- _ := jot (SayMissing relative_path) in pure_ false.

(** [append_to_file(relative_path, content, create_backup)], for a call
    of [exists()] that answers (line 230). *)
Definition append_to_file (relative_path content : str)
  (create_backup : bool) : MB W bool :=
  let target := Path.join project_path (Path.of_str relative_path) in
  let- present := core_ (ask (path_exists target) (CallExists target)) in
  if present then
    let- _ := core_ (backup_first target create_backup) in
    let- appended :=
      perform (append_text target content) (CallAppend target content) in
    if appended then pure_ true
    else let- _ := jot (SayAppendError relative_path) in pure_ false
  else
    let- _ := jot (SayMissing relative_path) in pure_ false.

(** [replace_in_file(relative_path, old_text, new_text, create_backup)] *)
Definition replace_in_file (relative_path old_text new_text : str)
  (create_backup : bool) : MB W bool :=
  let- content := core_ (FileEditor.read_file project_path relative_path) in
  if contains old_text content then
    core_ (FileEditor.write_file project_path relative_path
             (replace old_text new_text content) create_backup)
  else
    let- _ := jot (SayNotFound relative_path) in pure_ false.

(** [restore_from_backup(backup_path, relative_path)] *)
Definition restore_from_backup (backup_path relative_path : str)
  : MB W bool :=
  let target := Path.join project_path (Path.of_str relative_path) in
  let source := Path.of_str backup_path in
  let- copied :=
    core_ (act (copy2 source target) (CallCopy source target)) in
  if copied then pure_ true
  else let- _ := jot SayRestoreError in pure_ false.

End Editor.
End FileEditorMore.

(** *** Vocabulary for the statements about these functions *)

Module BenchSpec.
Import Run Workbench.

(** The bench [b] with the session [s] in place of its own. *)
Definition with_session {W : Type} (b : Bench W) (s : Session W) : Bench W :=
  {| session := s; notes := notes b |}.

(** What is left to do once the file is known to exist and the backup was
    tried: the call that changes the file, noted with its answer, and the
    line about its failure. *)
Definition finish_with {W : Type} (change : W -> W * bool)
  (log : bool -> note) (on_error : note) (b : Bench W) : bool * Bench W :=
  let done := change (world (session b)) in
  (snd done,
   {| session := {| world := fst done; trace := trace (session b);
                    pending_proposals := pending_proposals (session b) |};
      notes := notes b ++ log (snd done)
                 :: (if snd done then [] else [on_error]) |}).

End BenchSpec.

(** *** What a file system is taken to do, where a statement needs it *)

(** The content a path holds, if a file is there, and how copying, writing
    and making directories act on it: a copy that succeeds gives the
    destination the content of the source, and no call touches the content
    at a path that differs in its parts. *)
Class FileStore (W : Type) `{OS W} := {
  holds : path -> W -> option str;
  copy_holds : forall src dst w,
    snd (copy2 src dst w) = true ->
    holds dst (fst (copy2 src dst w)) = holds src w;
  copy_keeps : forall src dst q w,
    parts q <> parts dst -> holds q (fst (copy2 src dst w)) = holds q w;
  write_keeps : forall p content q w,
    parts q <> parts p ->
    holds q (fst (write_text p content w)) = holds q w;
  mkdir_keeps : forall p q w,
    holds q (fst (mkdir_parents p w)) = holds q w
}.

(** The in-memory file system, with [unlink] and appending. *)
Module MemDisk.
Import PyStr MemFS.

Definition mem_unlink (p : path) (w : fs) : fs * bool :=
  if is_file p w && negb (bool_decide (parts p ∈ locked w))
  then (with_files w (delete (parts p) (files w)), true)
  else (w, false).

Definition mem_append (p : path) (content : str) (w : fs) : fs * bool :=
  match files w !! parts p with
  | Some before => mem_write p (before ++ content) w
  | None => mem_write p content w
  end.

#[export] Instance mem_disk : Disk fs := {|
  unlink := mem_unlink;
  append_text := mem_append
|}.

Definition at_bench (w : fs) : Bench fs :=
  {| session := start w; notes := [] |}.

(** The file [/etc/app.conf], outside the project [/proj]. *)
Definition outside_file : str := lit "/etc/app.conf".

(** The backup that [inside_world] gets of [src/app.py] at [noon]. *)
Definition noon_backup : str :=
  lit "/proj/.code_assistant_backups/src/app.py.20240309_120007_123456.bak".

End MemDisk.

(** ** Calls that raise: [file_path.exists()] outside the [try] blocks *)

(** [write_file] and [create_file] call [file_path.exists()] before their
    [try] block (lines 131 and 164 of [file_editor.py]).  [Path.exists]
    answers false when [stat] reports a missing file or directory, and lets
    the [OSError] of any other failure of [stat] through: permission denied
    on a directory of the path, a name that is too long.  That exception
    leaves the editor, and then [approve_proposal], [process_user_input]
    and [run], none of which catches it.  [FileEditor], [Chat] and
    [ChatFront] above say what these functions do where [exists()] answers;
    the definitions of this part follow the same source lines and add the
    way out by the exception. *)

(** How a call ends: it returns, or the [OSError] leaves it. *)
Inductive ending (A : Type) :=
| Returns (a : A)
| Raises.
Arguments Returns {A} a.
Arguments Raises {A}.

(** Where [p.exists()] raises instead of answering. *)
Class Stat (W : Type) := {
  stat_fails : path -> W -> bool
}.

Module Raising.
Import PyStr Scanner Run.

Definition MX (W A : Type) : Type := Session W -> ending A * Session W.

Definition returns {W A : Type} (a : A) : MX W A := fun s => (Returns a, s).

(** What follows a call is skipped when the call raises. *)
Definition andthen {W A B : Type} (m : MX W A) (k : A -> MX W B) : MX W B :=
  fun s => match m s with
           | (Returns a, s') => k a s'
           | (Raises, s') => (Raises, s')
           end.

(** A computation that lets no exception through. *)
Definition safe {W A : Type} (m : M W A) : MX W A :=
  fun s => let (a, s') := m s in (Returns a, s').

End Raising.

Notation "'let!' x ':=' m 'in' k" := (Raising.andthen m (fun x => k))
  (at level 10, x binder, m at level 100, k at level 200).

Module RaisingEditor.
Import PyStr Scanner Run Raising.

Section Editor.
Context {W : Type} `{OS W} `{Stat W}.

(** [self.project_path], the resolved (absolute) project directory. *)
Variable project_path : path.

(** [p.exists()] *)
Definition exists_ (p : path) : MX W bool :=
  fun s => if stat_fails p (world s)
           then (Raises, snd (emit (CallExistsRaised p) s))
           else safe (ask (path_exists p) (CallExists p)) s.

(** [write_file(relative_path, content, create_backup)] *)
Definition write_file (relative_path content : str) (create_backup : bool)
  : MX W bool :=
  let target := Path.join project_path (Path.of_str relative_path) in
  let! _ :=
    (if create_backup then
       let! present := exists_ target in
       if present then
         safe (let* saved := FileEditor._create_backup project_path target in
               match saved with
               | Some backup => emit (Print (MsgBackupCreated backup))
               | None => ret tt
               end)
       else returns tt
     else returns tt) in
  safe (FileEditor.put target content (MsgWriteError relative_path)).

(** [create_file(relative_path, content)] *)
Definition create_file (relative_path content : str) : MX W bool :=
  let target := Path.join project_path (Path.of_str relative_path) in
  let! present := exists_ target in
  if present then
    safe (let* _ := emit (Print (MsgExistsError relative_path)) in ret false)
  else safe (FileEditor.put target content (MsgCreateError relative_path)).

(** The body of the [for proposal in self.pending_proposals] loop of
    [approve_proposal]: whether the change was applied. *)
Definition apply_proposal (proposal : Proposal) : MX W bool :=
  let is_new_file := negb (truthy (current_content proposal)) in
  let! success :=
    (if is_new_file then
       let! created :=
         create_file (file_path proposal) (new_content proposal) in
       if created then returns true
       else write_file (file_path proposal) (new_content proposal) false
     else write_file (file_path proposal) (new_content proposal) true) in
  if success then
    safe (let* _ :=
            emit (Print (MsgApplied is_new_file (file_path proposal))) in
          ret true)
  else
    safe (let* _ := emit (Print (MsgApplyFailed (file_path proposal))) in
          ret false).

(** The loop, with its two lists [successful_files] and [failed_files]. *)
Fixpoint apply_all (proposals : list Proposal)
  (successful_files failed_files : list str) : MX W (list str * list str) :=
  match proposals with
  | [] => returns (successful_files, failed_files)
  | proposal :: rest =>
      let! success := apply_proposal proposal in
      if success then
        apply_all rest (successful_files ++ [file_path proposal]) failed_files
      else
        apply_all rest successful_files (failed_files ++ [file_path proposal])
  end.

(** [approve_proposal()], from the commit of the successful files on. *)
Definition settle (successful_files failed_files : list str) : M W bool :=
  let* _ :=
    (if Chat.is_empty successful_files then ret tt
     else
       let* _ :=
         act (commit_changes (Chat.batch_message successful_files)
                successful_files)
           (CallCommit (Chat.batch_message successful_files)
              successful_files) in
       act (fun w => (scan_directory w, tt)) (fun _ => CallScan)) in
  let* _ := set_pending [] in
  if Chat.is_empty successful_files then
    let* _ := emit (Print (MsgFailedAll (length failed_files))) in
    ret false
  else
    let* _ := emit (Print (MsgProcessed (length successful_files))) in
    let* _ :=
      (if Chat.is_empty failed_files then ret tt
       else emit (Print (MsgFailedSome (length failed_files)
                           failed_files))) in
    ret true.

(** [approve_proposal()] *)
Definition approve_proposal : MX W bool :=
  let! pending := safe get_pending in
  if Chat.is_empty pending then
    safe (let* _ := emit (Print MsgNothingToApprove) in ret false)
  else
    let! outcome := apply_all pending [] [] in
    safe (settle (fst outcome) (snd outcome)).

End Editor.
End RaisingEditor.

(** *** The front end, with the exception that passes through it *)

Module RaisingFront.
Import PyStr Scanner Run Console Words Raising.

Definition MFX (W A : Type) : Type := Front W -> ending A * Front W.

Definition unit_x {W A : Type} (a : A) : MFX W A := fun f => (Returns a, f).

Definition then_x {W A B : Type} (m : MFX W A) (k : A -> MFX W B)
  : MFX W B :=
  fun f => match m f with
           | (Returns a, f') => k a f'
           | (Raises, f') => (Raises, f')
           end.

(** A computation of the front end that lets no exception through. *)
Definition quiet {W A : Type} (m : MF W A) : MFX W A :=
  fun f => let (a, f') := m f in (Returns a, f').

(** A computation of the core, run on the session of the front end. *)
Definition lift_x {W A : Type} (m : MX W A) : MFX W A :=
  fun f => let (a, s) := m (core f) in
           (a, {| core := s; chat_history := chat_history f;
                  eof_count := eof_count f; journal := journal f |}).

End RaisingFront.

Notation "'let^' x ':=' m 'in' k" := (RaisingFront.then_x m (fun x => k))
  (at level 10, x binder, m at level 100, k at level 200).

Module RaisingChat.
Import PyStr Scanner Run Console Words Raising RaisingFront.

Section Interface.
Context {W : Type} `{OS W} `{Desk W} `{Stat W}.

(** The project directory of the loaded project. *)
Variable project_path : path.

(** The [if self.approve_proposal()] of both places that approve. *)
Definition approve (approved failed : String.string) : MFX W reply :=
  let^ ok := lift_x (RaisingEditor.approve_proposal project_path) in
  if ok then unit_x (Reply (lit approved)) else unit_x (Reply (lit failed)).

(** The last branch of [process_user_input]: a regular chat message.  The
    [except (KeyboardInterrupt, EOFError)] around the question and the
    approval does not catch an [OSError]. *)
Definition chat_turn (user_input : str) : MFX W reply :=
  let^ sent := quiet (ChatFront.send_message user_input) in
  match sent with
  | None => unit_x Interrupt
  | Some response =>
      let^ scanned :=
        quiet (lift (Chat.auto_create_files project_path response
                       user_input)) in
      match scanned with
      | None => unit_x Unscanned
      | Some files_proposed =>
          if 0 <? files_proposed then
            let^ _ := quiet (show (ShowDetected files_proposed)) in
            let^ answer := quiet (call input) in
            let^ _ := quiet (show (Asked answer)) in
            match answer with
            | Some text =>
                if ChatFront.says_yes text
                then approve EmptyString "Failed to approve proposal"
                else
                  let^ _ := quiet (lift Chat.reject_proposal) in
                  unit_x (Reply [])
            | None =>
                let^ _ := quiet (show ShowRejecting) in
                let^ _ := quiet (lift Chat.reject_proposal) in
                unit_x (Reply [])
            end
          else unit_x (Reply [])
      end
  end.

(** [process_user_input(user_input)] *)
Definition process_user_input (user_input : str) : MFX W reply :=
  let user_input := strip user_input in
  let command := lower user_input in
  if eqb command (lit "/approve") then
    approve "Proposal approved and applied" "Failed to approve proposal"
  else if eqb command (lit "/reject") then
    let^ _ := quiet (lift Chat.reject_proposal) in
    unit_x (Reply (lit "Proposal rejected"))
  else if eqb command (lit "/status") then
    let^ status := quiet ChatFront._get_project_status in
    unit_x (Reply status)
  else if startswith (lit "/file ") command then
    let^ content :=
      quiet (ChatFront._show_file_content project_path
               (strip (from user_input 6))) in
    unit_x (Reply content)
  else if eqb command (lit "/files") then
    let^ files := quiet ChatFront._list_files in unit_x (Reply files)
  else if eqb command (lit "/history") then
    let^ history := quiet ChatFront._show_git_history in
    unit_x (Reply history)
  else if startswith (lit "/revert") command then
    match words user_input with
    | _ :: commit_hash :: _ =>
        let^ result := quiet (ChatFront._revert_to_commit commit_hash) in
        unit_x (Reply result)
    | _ =>
        let^ result := quiet ChatFront._revert_last_change in
        unit_x (Reply result)
    end
  else if eqb command (lit "/help") then unit_x (Reply ChatFront.help_text)
  else if eqb command (lit "/quit") || eqb command (lit "/exit") then
    unit_x (Reply (lit "QUIT"))
  else chat_turn user_input.

(** The loop of [run()], over the keys the user gives at the prompts one
    after the other.  Neither [except KeyboardInterrupt] nor
    [except EOFError] catches an [OSError]: it ends the loop and leaves
    [run]. *)
Fixpoint run_loop (keys : list keyed) : MFX W run_state :=
  match keys with
  | [] => unit_x AtPrompt
  | Typed user_input :: rest =>
      let^ _ := quiet (set_eof_count 0) in
      let^ answered := process_user_input user_input in
      match answered with
      | Reply response =>
          if eqb response (lit "QUIT") then
            let^ _ := quiet (show ShowGoodbye) in unit_x (Exited rest)
          else
            let^ _ :=
              quiet (if truthy response then show (ShowResponse response)
                     else unit_ tt) in
            run_loop rest
      | Interrupt =>
          let^ _ := quiet (show ShowUseQuit) in
          let^ _ := quiet (set_eof_count 0) in
          run_loop rest
      | Unscanned => unit_x AtPrompt
      end
  | CtrlC :: rest =>
      let^ _ := quiet (show ShowUseQuit) in
      let^ _ := quiet (set_eof_count 0) in
      run_loop rest
  | CtrlD :: rest =>
      let^ count := quiet get_eof_count in
      let^ _ := quiet (set_eof_count (count + 1)) in
      if count + 1 =? 1 then
        let^ _ := quiet (show ShowPressAgain) in run_loop rest
      else
        let^ _ := quiet (show ShowGoodbye) in unit_x (Exited rest)
  end.

(** [run()] *)
Definition run (keys : list keyed) : MFX W run_state :=
  let^ _ := quiet (show ShowBanner) in
  let^ _ := quiet ChatFront.add_system_context in
  run_loop keys.

End Interface.
End RaisingChat.

(** *** Vocabulary for the statements about calls that raise *)

Module RaisingSpec.
Import PyStr Scanner Run Console Raising RaisingFront ApplySpec.

(** No call of [exists()] raises, whatever the path and the world. *)
Definition all_answer (W : Type) `{Stat W} : Prop :=
  forall (p : path) (w : W), stat_fails p w = false.

(** The session [s] ends on a call of [exists()] that raised. *)
Definition ends_raising {W : Type} `{Stat W} (s : Session W) : Prop :=
  exists (p : path) (before : list event),
    trace s = before ++ [CallExistsRaised p]
    /\ stat_fails p (world s) = true.

(** [mx] does what [m] does wherever it returns, and where it raises, the
    last thing it did is a call of [exists()] that raised. *)
Definition follows {W A : Type} `{Stat W} (mx : MX W A) (m : M W A) : Prop :=
  forall s,
    match mx s with
    | (Returns a, s') => m s = (a, s')
    | (Raises, s') => ends_raising s'
    end.

(** The same for the front end, whose core raises. *)
Definition follows_front {W A : Type} `{Stat W} (mx : MFX W A) (m : MF W A)
  : Prop :=
  forall f,
    match mx f with
    | (Returns a, f') => m f = (a, f')
    | (Raises, f') => ends_raising (core f')
    end.

(** The end of the loop body of [approve_proposal], for an editor that
    returned or raised. *)
Definition finish_x {W : Type} (proposal : Proposal)
  (r : ending bool * Session W) : ending bool * Session W :=
  match fst r with
  | Returns ok =>
      let done := finish proposal (ok, snd r) in
      (Returns (fst done), snd done)
  | Raises => (Raises, snd r)
  end.

End RaisingSpec.

(** *** A world in which [exists()] can raise *)

Module Guarded.
Import PyStr MemFS.

(** A world with directories that cannot be searched: [stat] on a path
    below one of them fails with [PermissionError]. *)
Record guarded (W : Type) := mkGuarded {
  inner : W;
  no_search : gset (list str)
}.
Arguments mkGuarded {W}.
Arguments inner {W}.
Arguments no_search {W}.

Definition within {W A : Type} (g : W -> W * A) (w : guarded W)
  : guarded W * A :=
  let (w', a) := g (inner w) in
  ({| inner := w'; no_search := no_search w |}, a).

#[export] Instance guarded_os {W : Type} `{OS W} : OS (guarded W) := {|
  path_exists := fun p w => path_exists p (inner w);
  now := fun w => now (inner w);
  mkdir_parents := fun p => within (mkdir_parents p);
  copy2 := fun src dst => within (copy2 src dst);
  write_text := fun p content => within (write_text p content);
  read_utf8 := fun p w => read_utf8 p (inner w);
  read_latin1 := fun p w => read_latin1 p (inner w);
  commit_changes := fun message paths => within (commit_changes message paths);
  scan_directory := fun w =>
    {| inner := scan_directory (inner w); no_search := no_search w |}
|}.

#[export] Instance guarded_desk {W : Type} `{Desk W} : Desk (guarded W) := {|
  chat_stream := fun messages => within (chat_stream messages);
  input := within input;
  is_project_loaded := fun w => is_project_loaded (inner w);
  get_project_info := fun w => get_project_info (inner w);
  project_files := fun w => project_files (inner w);
  has_git_manager := fun w => has_git_manager (inner w);
  get_commit_history := fun max_count w => get_commit_history max_count (inner w);
  revert_changes := fun commit_hash => within (revert_changes commit_hash)
|}.

(** The directories above a path: the proper prefixes of its parts. *)
Fixpoint above (l : list str) : list (list str) :=
  match l with
  | [] => []
  | part :: l' => [] :: map (cons part) (above l')
  end.

#[export] Instance guarded_stat {W : Type} : Stat (guarded W) := {|
  stat_fails := fun p w =>
    existsb (fun d => bool_decide (d ∈ no_search w)) (above (parts p))
|}.

(** The project [/proj] with a directory [vault] that cannot be searched,
    and nothing on disk. *)
Definition vault_world : guarded fs :=
  {| inner := empty_fs; no_search := {[ [lit "proj"; lit "vault"] ]} |}.

(** Two creations, the first of them in the vault. *)
Definition vault_creations : list Proposal :=
  [ {| file_path := lit "vault/a.py";
       description := lit "Create new file vault/a.py";
       current_content := []; new_content := lit "a = 1" |};
    {| file_path := lit "b.py"; description := lit "Create new file b.py";
       current_content := []; new_content := lit "b = 2" |} ].

(** The same project at the desk: the assistant answers with one block for
    [vault/main.py], and the user presses Enter at the question that
    follows. *)
Definition vault_desk : guarded ScriptedDesk.desk :=
  {| inner :=
       {| ScriptedDesk.disk := empty_fs;
          ScriptedDesk.streams :=
            [([text_of_lines
                 ["```python"; "# vault/main.py"; "print(1)"; "```"]],
              Exhausted)];
          ScriptedDesk.answers := [Some []];
          ScriptedDesk.loaded := false; ScriptedDesk.listing := [] |};
     no_search := {[ [lit "proj"; lit "vault"] ]} |}.

(** A line for the assistant, and a line that quits. *)
Definition vault_keys : list keyed :=
  [Typed (lit "write vault/main.py"); Typed (lit "/quit")].

Definition at_desk {W : Type} (w : W) : Front W :=
  {| core := {| world := w; trace := []; pending_proposals := [] |};
     chat_history := []; eof_count := 0; journal := [] |}.

Definition queued {W : Type} (w : W) (proposals : list Proposal)
  : Session W :=
  {| world := w; trace := []; pending_proposals := proposals |}.

End Guarded.
(** ** Facts about the string primitives *)

Section PyStrFacts.
Import PyStr ScanSpec.

Lemma eqb_eq (a b : str) : eqb a b = true <-> a = b.
Proof. unfold eqb. apply bool_decide_eq_true. Qed.

Lemma eqb_neq (a b : str) : eqb a b = false <-> a <> b.
Proof. unfold eqb. apply bool_decide_eq_false. Qed.

Lemma startswith_app (p s : str) : startswith p (p ++ s) = true.
Proof.
  induction p as [|a p IH]; simpl; [reflexivity|].
  rewrite Ascii.eqb_refl. exact IH.
Qed.

Lemma startswith_spec (p s : str) :
  startswith p s = true <-> exists t, s = p ++ t.
Proof.
  split.
  - revert s. induction p as [|a p IH]; intros s H.
    + exists s. reflexivity.
    + destruct s as [|b s]; simpl in H; [discriminate|].
      apply andb_true_iff in H as [Hab Hps].
      apply Ascii.eqb_eq in Hab. subst b.
      destruct (IH _ Hps) as [t ->]. exists t. reflexivity.
  - intros [t ->]. apply startswith_app.
Qed.

Lemma find_aux_Some (sub s : str) (pos k : nat) :
  find_aux sub s pos = Some k ->
  pos <= k /\ k - pos <= length s
  /\ startswith sub (skipn (k - pos) s) = true
  /\ forall d, d < k - pos -> startswith sub (skipn d s) = false.
Proof.
  revert pos. induction s as [|c s IH]; intros pos H; simpl in H.
  - destruct (startswith sub []) eqn:E; [|discriminate].
    injection H as <-. rewrite Nat.sub_diag. simpl.
    repeat split; try lia. exact E.
  - destruct (startswith sub (c :: s)) eqn:E.
    + injection H as <-. rewrite Nat.sub_diag. simpl.
      repeat split; try lia. exact E.
    + apply IH in H as (Hle & Hlen & Hat & Hbefore).
      replace (k - pos) with (S (k - S pos)) by lia. simpl.
      repeat split; try lia; [exact Hat|].
      intros [|d] Hd; simpl; [exact E|]. apply Hbefore. lia.
Qed.

Lemma find_aux_None (sub s : str) (pos : nat) :
  find_aux sub s pos = None ->
  forall d, d <= length s -> startswith sub (skipn d s) = false.
Proof.
  revert pos. induction s as [|c s IH]; intros pos H d Hd; simpl in H.
  - destruct (startswith sub []) eqn:E; [discriminate|].
    simpl in Hd. replace d with 0 by lia. exact E.
  - destruct (startswith sub (c :: s)) eqn:E; [discriminate|].
    destruct d as [|d]; simpl; [exact E|].
    apply (IH _ H). simpl in Hd. lia.
Qed.

Lemma find_Some_1 (sub s : str) (start k : nat) :
  find sub s start = Some k ->
  start <= k /\ occurs_at sub s k
  /\ forall k', start <= k' -> k' < k -> ~ occurs_at sub s k'.
Proof.
  unfold find, occurs_at. destruct (length s <? start) eqn:E; [discriminate|].
  apply Nat.ltb_ge in E. intros H.
  apply find_aux_Some in H as (Hle & Hlen & Hat & Hbefore).
  rewrite length_skipn in Hlen. rewrite skipn_skipn in Hat.
  replace (k - start + start) with k in Hat by lia.
  repeat split; try lia; [exact Hat|].
  intros k' H1 H2 [_ Hocc].
  specialize (Hbefore (k' - start) ltac:(lia)).
  rewrite skipn_skipn in Hbefore.
  replace (k' - start + start) with k' in Hbefore by lia. congruence.
Qed.

Lemma find_None_1 (sub s : str) (start : nat) :
  find sub s start = None ->
  forall k, start <= k -> ~ occurs_at sub s k.
Proof.
  unfold find, occurs_at. intros H k Hk [Hlen Hocc].
  destruct (length s <? start) eqn:E.
  - apply Nat.ltb_lt in E. lia.
  - apply Nat.ltb_ge in E.
    pose proof (find_aux_None _ _ _ H (k - start)) as Hn.
    rewrite length_skipn, skipn_skipn in Hn.
    replace (k - start + start) with k in Hn by lia.
    rewrite Hn in Hocc by lia. discriminate.
Qed.

Lemma find_Some (sub s : str) (start k : nat) :
  find sub s start = Some k <->
  start <= k /\ occurs_at sub s k
  /\ forall k', start <= k' -> k' < k -> ~ occurs_at sub s k'.
Proof.
  split; [apply find_Some_1|].
  intros (Hle & Hocc & Hmin).
  destruct (find sub s start) as [k0|] eqn:E.
  - apply find_Some_1 in E as (Hle0 & Hocc0 & Hmin0).
    f_equal. destruct (Nat.lt_trichotomy k0 k) as [Hlt|[Heq|Hgt]].
    + exfalso. exact (Hmin k0 Hle0 Hlt Hocc0).
    + exact Heq.
    + exfalso. exact (Hmin0 k Hle Hgt Hocc).
  - exfalso. exact (find_None_1 _ _ _ E k Hle Hocc).
Qed.

Lemma find_None (sub s : str) (start : nat) :
  find sub s start = None <-> forall k, start <= k -> ~ occurs_at sub s k.
Proof.
  split; [apply find_None_1|].
  intros H. destruct (find sub s start) as [k|] eqn:E; [|reflexivity].
  apply find_Some_1 in E as (Hle & Hocc & _).
  exfalso. exact (H k Hle Hocc).
Qed.

Lemma find_ge (sub s : str) (start k : nat) :
  find sub s start = Some k -> start <= k.
Proof. intros H. apply find_Some_1 in H. tauto. Qed.

Lemma find_le_length (sub s : str) (start k : nat) :
  find sub s start = Some k -> k <= length s.
Proof. intros H. apply find_Some_1 in H as (_ & [H _] & _). exact H. Qed.

Lemma has_In (c : ascii) (s : str) : has c s = true <-> In c s.
Proof.
  unfold has. rewrite existsb_exists. split.
  - intros [x [Hin Heq]]. apply Ascii.eqb_eq in Heq. subst. exact Hin.
  - intros H. exists c. split; [exact H|apply Ascii.eqb_refl].
Qed.

Lemma has_false (c : ascii) (s : str) : has c s = false <-> ~ In c s.
Proof.
  rewrite <- has_In. destruct (has c s); split; intros; congruence.
Qed.

End PyStrFacts.

(** ** The scanner terminates: enough fuel is always supplied *)

Section ScannerFacts.
Import PyStr Scanner ScanSpec.

Lemma line_end_from_ge (text : str) (j : nat) :
  j <= length text -> j <= line_end_from text j.
Proof.
  intros Hj. unfold line_end_from.
  destruct (find nl text j) as [e|] eqn:E; [|exact Hj].
  exact (find_ge _ _ _ _ E).
Qed.

Lemma md_step_advances (text : str) (cs j lvl j' lvl' : nat) :
  j <= length text ->
  md_step text cs j lvl = Next j' lvl' -> j < j'.
Proof.
  intros Hj. unfold md_step.
  pose proof (line_end_from_ge text j Hj) as Hle.
  repeat match goal with
         | |- context [if ?b then _ else _] => destruct b
         end; intros H; inversion H; lia.
Qed.

Lemma md_scan_fuel (fuel : nat) (text : str) (cs j lvl : nat) :
  0 < fuel -> length text < j + fuel ->
  md_scan fuel text cs j lvl <> MdFuel.
Proof.
  revert j lvl. induction fuel as [|fuel IH]; intros j lvl H0 Hlen; [lia|].
  simpl. destruct (j <? length text) eqn:Ej; [|discriminate].
  apply Nat.ltb_lt in Ej.
  destruct (md_step text cs j lvl) as [j' lvl'|] eqn:Es; [|discriminate].
  apply md_step_advances in Es; [|lia].
  apply IH; lia.
Qed.

Lemma md_scan_closed (fuel : nat) (text : str) (cs j lvl k : nat) :
  md_scan fuel text cs j lvl = MdClosed k -> j <= k /\ k < length text.
Proof.
  revert j lvl. induction fuel as [|fuel IH]; intros j lvl H; [discriminate|].
  simpl in H. destruct (j <? length text) eqn:Ej; [|discriminate].
  apply Nat.ltb_lt in Ej.
  destruct (md_step text cs j lvl) as [j' lvl'|] eqn:Es.
  - apply md_step_advances in Es; [|lia]. apply IH in H. lia.
  - injection H as <-. lia.
Qed.

Lemma plain_body_next (text : str) (cs : nat) :
  cs <= length text -> cs <= snd (plain_body text cs).
Proof.
  intros Hcs. unfold plain_body, find_closing.
  destruct (find nl_fence text cs) as [c|] eqn:E1; simpl.
  - apply find_ge in E1. lia.
  - destruct (find fence text cs) as [c|] eqn:E2; simpl; [|exact Hcs].
    apply find_ge in E2. lia.
Qed.

Lemma find_nl_lt (text : str) (i e : nat) :
  find nl text i = Some e -> i <= e /\ e < length text.
Proof.
  intros H. apply find_Some_1 in H as (Hge & [Hlen Hocc] & _).
  split; [exact Hge|].
  destruct (Nat.eq_dec e (length text)) as [->|Hne]; [|lia].
  rewrite skipn_all in Hocc. discriminate.
Qed.

Lemma parse_loop_total (fuel : nat) (text : str) (i : nat)
  (acc : list CodeBlock) :
  0 < fuel -> length text < i + fuel ->
  exists blocks, parse_loop fuel text i acc = Some blocks.
Proof.
  revert i acc. induction fuel as [|fuel IH]; intros i acc H0 Hlen; [lia|].
  cbn [parse_loop]. destruct (i <? length text) eqn:Ei; [|eauto].
  apply Nat.ltb_lt in Ei.
  destruct (eqb (substr text i (i + 3)) fence); [|apply IH; lia].
  destruct (find nl text i) as [line_end|] eqn:El; [|eauto].
  apply find_nl_lt in El as [Hge Hlt].
  destruct (is_markdown _).
  - destruct (md_scan _ text _ _ _) as [j| |] eqn:Em.
    + apply md_scan_closed in Em. apply IH; lia.
    + eauto.
    + exfalso. revert Em. apply md_scan_fuel; lia.
  - pose proof (plain_body_next text (line_end + 1) ltac:(lia)).
    apply IH; lia.
Qed.

(** The accumulator only ever grows at its end. *)
Lemma parse_loop_acc (fuel : nat) (text : str) (i : nat)
  (acc : list CodeBlock) :
  parse_loop fuel text i acc
  = option_map (app acc) (parse_loop fuel text i []).
Proof.
  revert i acc. induction fuel as [|fuel IH]; intros i acc; [reflexivity|].
  cbn [parse_loop]. destruct (i <? length text); [|simpl; now rewrite app_nil_r].
  destruct (eqb _ fence); [|apply IH].
  destruct (find nl text i) as [line_end|]; [|simpl; now rewrite app_nil_r].
  destruct (is_markdown _).
  - destruct (md_scan _ _ _ _ _); try reflexivity.
    rewrite IH. rewrite (IH _ ([] ++ _)).
    destruct (parse_loop fuel text (j + 3) []); cbn [option_map];
      [|reflexivity].
    now rewrite <- app_assoc.
  - rewrite IH. rewrite (IH _ ([] ++ _)).
    destruct (parse_loop fuel text _ []); cbn [option_map]; [|reflexivity].
    now rewrite <- app_assoc.
Qed.

End ScannerFacts.

(** ** Nesting mode: which fence lines open and which close *)

Section NestingRule.
Import PyStr Scanner ScanSpec.

Lemma opens_alpha_tag (tag : str) : opens tag = true <-> alpha_tag tag.
Proof.
  unfold opens, alpha_tag. destruct tag as [|c rest]; simpl.
  - split; [discriminate|]. intros (c & rest & H & _). discriminate.
  - split.
    + intros H. exists c, rest. split; [reflexivity|exact H].
    + intros (c' & rest' & H & Ha). injection H as -> ->. exact Ha.
Qed.

Lemma opens_not_alpha_tag (tag : str) : opens tag = false <-> ~ alpha_tag tag.
Proof.
  rewrite <- opens_alpha_tag. destruct (opens tag); split; intros; congruence.
Qed.

Lemma fence_line_test (text : str) (content_start j : nat) :
  fence_line text content_start j ->
  ((j =? content_start) || after_newline text j) = true
  /\ eqb (substr text j (j + 3)) fence = true.
Proof.
  intros [Hstart Hfence]. split.
  - apply orb_true_iff. destruct Hstart as [->|Hnl].
    + left. apply Nat.eqb_refl.
    + right. unfold after_newline. rewrite Hnl. apply Ascii.eqb_refl.
  - apply eqb_eq. exact Hfence.
Qed.

(** The loop leaves a markdown block only at a fence line. *)
Lemma md_close_only_at_fence (text : str) (content_start j lvl : nat) :
  md_step text content_start j lvl = Close -> fence_line text content_start j.
Proof.
  unfold md_step, fence_line.
  destruct ((j =? content_start) || after_newline text j) eqn:Hs;
    [|discriminate].
  destruct (eqb (substr text j (j + 3)) fence) eqn:Hf; [|discriminate].
  intros _. split; [|apply eqb_eq; exact Hf].
  apply orb_true_iff in Hs as [Hs|Hs].
  - left. apply Nat.eqb_eq. exact Hs.
  - right. unfold after_newline in Hs.
    destruct (get text (j - 1)) as [c|]; [|discriminate].
    apply Ascii.eqb_eq in Hs. now subst c.
Qed.

(** C1, as the specification words it, fails: the fence line [```1] carries
    the non-empty tag [1], yet at nesting level 0 the scanner takes it for the
    end of the markdown block instead of incrementing the level; the text
    then parses into an empty markdown block and a second, [text] block. *)
Lemma digit_tag_fence_closes :
  fence_line digit_tag_text 12 12
  /\ tag_at digit_tag_text 12 = lit "1"
  /\ tag_at digit_tag_text 12 <> []
  /\ md_step digit_tag_text 12 12 0 = Close
  /\ md_step digit_tag_text 12 12 0
     <> Next (line_end_from digit_tag_text 12 + 1) (0 + 1)
  /\ parse_code_blocks digit_tag_text
     = Some [ {| language := lit "markdown"; code := []; filename := None |};
              {| language := lit "text"; code := lit "end";
                 filename := None |} ].
Proof.
  repeat split; try (vm_compute; (reflexivity || discriminate)).
  left. reflexivity.
Qed.

(** C1, amended.  In nesting mode, at every fence line of the block: when the
    trimmed tag is non-empty and starts with an alphabetic character the
    fence opens an inner block and the nesting level goes up by one; any
    other fence line (no tag, or a tag that starts with another character)
    closes: above level 0 the level goes down by one and scanning goes on
    after that line, at level 0 the outer markdown block ends there; and the
    outer block ends at a fence line exactly in that last case. *)
Theorem md_fence_rule (text : str) (content_start j lvl : nat) :
  fence_line text content_start j ->
  let next := line_end_from text j + 1 in
  (alpha_tag (tag_at text j) ->
     md_step text content_start j lvl = Next next (lvl + 1))
  /\ (~ alpha_tag (tag_at text j) -> 0 < lvl ->
     md_step text content_start j lvl = Next next (lvl - 1))
  /\ (~ alpha_tag (tag_at text j) -> lvl = 0 ->
     md_step text content_start j lvl = Close)
  /\ (md_step text content_start j lvl = Close <->
     ~ alpha_tag (tag_at text j) /\ lvl = 0).
Proof.
  intros Hline next.
  destruct (fence_line_test _ _ _ Hline) as [Hs Hf].
  unfold md_step. rewrite Hs, Hf. fold (tag_at text j). fold next.
  destruct (opens (tag_at text j)) eqn:Ho.
  - apply opens_alpha_tag in Ho.
    repeat split; try tauto; try discriminate.
  - apply opens_not_alpha_tag in Ho.
    destruct (0 <? lvl) eqn:Hl.
    + apply Nat.ltb_lt in Hl.
      repeat split; try tauto; try discriminate; try lia.
    + apply Nat.ltb_ge in Hl.
      repeat split; try tauto; try lia.
Qed.

(** The rule at the first inner [```bash] fence of the nested README. *)
Lemma md_fence_rule_witness :
  fence_line nested_readme 12 60
  /\ md_step nested_readme 12 60 0 = Next 68 1.
Proof.
  assert (Hline : fence_line nested_readme 12 60).
  { split; [right; reflexivity | reflexivity]. }
  split; [exact Hline|].
  apply (md_fence_rule nested_readme 12 60 0 Hline).
  exists "b"%char, (lit "ash"). split; reflexivity.
Defined.

End NestingRule.

(** ** Non-nesting mode: where the block ends *)

Section PlainClosing.
Import PyStr Scanner ScanSpec.

Lemma first_at_find (sub s : str) (start c : nat) :
  first_at sub s start c <-> find sub s start = Some c.
Proof. unfold first_at. symmetry. apply find_Some. Qed.

Lemma absent_from_find (sub s : str) (start : nat) :
  absent_from sub s start <-> find sub s start = None.
Proof. unfold absent_from. symmetry. apply find_None. Qed.

Lemma forall_below (P : nat -> Prop) (f : nat -> bool) (n : nat) :
  (forall k, f k = true -> P k) ->
  forallb f (seq 0 n) = true -> forall k, k < n -> P k.
Proof.
  intros Hf Hall k Hk. apply Hf.
  rewrite forallb_forall in Hall. apply Hall. apply in_seq. lia.
Qed.

(** C2, as the specification words it, fails: after the opening line of
    [midline_fence_text] no fence begins at a line start, yet the body is not
    the remainder of the text: the search falls back on the first fence found
    anywhere, here in the middle of the line. *)
Lemma midline_fence_closes :
  (forall k, 10 <= k -> ~ fence_line midline_fence_text 10 k)
  /\ from midline_fence_text 10 = lit "x = 1 ``` tail"
  /\ fst (plain_body midline_fence_text 10) = lit "x = 1 "
  /\ fst (plain_body midline_fence_text 10) <> from midline_fence_text 10
  /\ parse_code_blocks midline_fence_text
     = Some [ {| language := lit "python"; code := lit "x = 1";
                 filename := None |} ].
Proof.
  split; [|repeat split; vm_compute; (reflexivity || discriminate)].
  intros k Hk Hline. pose proof Hline as [_ Hf].
  destruct (Nat.lt_ge_cases k (length midline_fence_text)) as [Hlt|Hge].
  - apply fence_line_test in Hline as [Hs Hf'].
    revert k Hlt Hk Hf Hs Hf'.
    apply (forall_below
             (fun k => 10 <= k -> _ -> _ -> _ -> False)
             (fun k => (k <? 10)
                       || negb (((k =? 10) || after_newline midline_fence_text k)
                                && eqb (substr midline_fence_text k (k + 3))
                                     fence))).
    + intros k Hb Hk _ Hs Hf. apply orb_true_iff in Hb as [Hb|Hb].
      * apply Nat.ltb_lt in Hb. lia.
      * rewrite Hs, Hf in Hb. discriminate.
    + vm_compute. reflexivity.
  - unfold substr in Hf. rewrite skipn_all2 in Hf by exact Hge.
    rewrite firstn_nil in Hf. discriminate.
Qed.

(** C2, amended.  For every input text the scan returns a sequence of
    blocks (it never raises and never runs out of steps).  In non-nesting
    mode the body ends at the first newline-preceded fence found from the
    body start on; when there is none, at the first fence found anywhere from
    the body start on, line start or not; and only when the remainder holds
    no fence at all is the body the entire remainder of the text.  Scanning
    resumes four characters after the closing position. *)
Theorem scan_total_plain_closing :
  (forall text, exists blocks, parse_code_blocks text = Some blocks)
  /\ (forall text content_start closing,
        first_at nl_fence text content_start closing ->
        plain_body text content_start
        = (substr text content_start closing, closing + 4))
  /\ (forall text content_start closing,
        absent_from nl_fence text content_start ->
        first_at fence text content_start closing ->
        plain_body text content_start
        = (substr text content_start closing, closing + 4))
  /\ (forall text content_start,
        absent_from fence text content_start ->
        plain_body text content_start
        = (from text content_start, length text))
  /\ (forall fuel text i acc line_end,
        i < length text ->
        substr text i (i + 3) = fence ->
        find nl text i = Some line_end ->
        let language := language_of (substr text (i + 3) line_end) in
        is_markdown language = false ->
        parse_loop (S fuel) text i acc
        = parse_loop fuel text (snd (plain_body text (line_end + 1)))
            (acc ++ [plain_block language text (line_end + 1)])).
Proof.
  split; [|split; [|split; [|split]]].
  - intros text. apply parse_loop_total; lia.
  - intros text cs c H. apply first_at_find in H.
    unfold plain_body, find_closing. now rewrite H.
  - intros text cs c Hn H.
    apply absent_from_find in Hn. apply first_at_find in H.
    unfold plain_body, find_closing. now rewrite Hn, H.
  - intros text cs H.
    assert (Hn : absent_from nl_fence text cs).
    { intros k Hk [Hlen Hocc]. apply startswith_spec in Hocc as [t Ht].
      apply (H (S k) ltac:(lia)). split.
      - destruct (Nat.eq_dec k (length text)) as [->|Hne]; [|lia].
        rewrite skipn_all in Ht. discriminate.
      - apply startswith_spec. exists t.
        change (S k) with (1 + k). rewrite <- skipn_skipn, Ht. reflexivity. }
    apply absent_from_find in H. apply absent_from_find in Hn.
    unfold plain_body, find_closing. now rewrite Hn, H.
  - intros fuel text i acc line_end Hi Hf Hl language Hmd.
    cbn [parse_loop]. apply Nat.ltb_lt in Hi. rewrite Hi.
    apply eqb_eq in Hf. rewrite Hf, Hl. fold language. now rewrite Hmd.
Qed.

End PlainClosing.

(** The markdown block of [test_nested_blocks]: one block, whose content
    holds both inner [bash] blocks with their fences. *)
Example scan_nested_readme :
  exists content,
    Scanner.parse_code_blocks nested_readme
    = Some [ {| language := lit "markdown"; code := content;
                filename := None |} ]
    /\ PyStr.contains (PyStr.text_of_lines ["```bash"; "pip install requests";
                                             "```"]) content = true
    /\ PyStr.contains (PyStr.text_of_lines ["```bash"; "python main.py";
                                             "```"]) content = true
    /\ PyStr.startswith (lit "# README") content = true.
Proof.
  eexists. split; [vm_compute; reflexivity|].
  repeat split; vm_compute; reflexivity.
Qed.

(** Consecutive blocks come out one by one, in the order of the text; what
    stands outside the fences is ignored. *)
Example scan_two_blocks :
  Scanner.parse_code_blocks
    (PyStr.text_of_lines
       ["Here you are:"; "```python"; "# a.py"; "x = 1"; "```"; "and";
        "```js"; "let y = 2"; "```"; "Bye."])
  = Some [ {| language := lit "python"; code := lit "x = 1";
              filename := Some (lit "a.py") |};
           {| language := lit "js"; code := lit "let y = 2";
              filename := None |} ].
Proof. vm_compute. reflexivity. Qed.

Example scan_main_py :
  Scanner.parse_code_blocks
    (PyStr.text_of_lines ["```python"; "# main.py"; "print(1)"; "```"])
  = Some [ {| language := lit "python"; code := lit "print(1)";
              filename := Some (lit "main.py") |} ].
Proof. vm_compute. reflexivity. Qed.

(** ** The filename comment of a single fenced block *)

Section StripFacts.
Import PyStr.

Lemma lstrip_by_length (p : ascii -> bool) (s : str) :
  length (lstrip_by p s) <= length s.
Proof.
  induction s as [|c s IH]; simpl; [lia|]. destruct (p c); simpl; lia.
Qed.

Lemma lstrip_by_same_length (p : ascii -> bool) (s : str) :
  length (lstrip_by p s) = length s -> lstrip_by p s = s.
Proof.
  destruct s as [|c s]; simpl; [reflexivity|].
  destruct (p c); [|reflexivity].
  pose proof (lstrip_by_length p s). lia.
Qed.

Lemma rstrip_by_length (p : ascii -> bool) (s : str) :
  length (rstrip_by p s) <= length s.
Proof.
  unfold rstrip_by. rewrite length_rev.
  pose proof (lstrip_by_length p (rev s)) as H.
  now rewrite length_rev in H.
Qed.

Lemma rstrip_by_same_length (p : ascii -> bool) (s : str) :
  length (rstrip_by p s) = length s -> rstrip_by p s = s.
Proof.
  unfold rstrip_by. rewrite length_rev. intros H.
  rewrite lstrip_by_same_length by now rewrite length_rev.
  apply rev_involutive.
Qed.

Lemma strip_fixed (s : str) :
  strip s = s -> lstrip_by isspace s = s /\ rstrip_by isspace s = s.
Proof.
  intros H.
  pose proof (lstrip_by_length isspace s) as Hl.
  pose proof (rstrip_by_length isspace (lstrip_by isspace s)) as Hr.
  fold (strip s) in Hr. rewrite H in Hr.
  assert (Hs : lstrip_by isspace s = s)
    by (apply lstrip_by_same_length; lia).
  split; [exact Hs|]. unfold strip in H. now rewrite Hs in H.
Qed.

Lemma lstrip_by_app (p : ascii -> bool) (a b : str) :
  lstrip_by p a <> [] -> lstrip_by p (a ++ b) = lstrip_by p a ++ b.
Proof.
  induction a as [|c a IH]; simpl; [congruence|].
  destruct (p c); [exact IH|reflexivity].
Qed.

Lemma rstrip_by_app (p : ascii -> bool) (a b : str) :
  b <> [] -> rstrip_by p b = b -> rstrip_by p (a ++ b) = a ++ b.
Proof.
  unfold rstrip_by. intros Hb Hfix.
  assert (Hne : lstrip_by p (rev b) <> []).
  { intros E. rewrite E in Hfix. simpl in Hfix. congruence. }
  rewrite rev_app_distr, lstrip_by_app by exact Hne.
  rewrite rev_app_distr, rev_involutive. now rewrite Hfix.
Qed.

Lemma split_nonempty (sep : ascii) (s : str) : split sep s <> [].
Proof.
  induction s as [|c s IH]; simpl; [discriminate|].
  destruct (Ascii.eqb c sep); [discriminate|].
  destruct (split sep s); discriminate.
Qed.

Lemma split_app_sep (sep : ascii) (a b : str) :
  ~ In sep a -> split sep (a ++ sep :: b) = a :: split sep b.
Proof.
  induction a as [|c a IH]; intros Hin; simpl.
  - now rewrite Ascii.eqb_refl.
  - destruct (Ascii.eqb c sep) eqn:E.
    + apply Ascii.eqb_eq in E. subst c. exfalso. apply Hin. now left.
    + rewrite IH; [reflexivity|]. intros H. apply Hin. now right.
Qed.

Lemma join_cons (sep p : str) (ps : list str) :
  ps <> [] -> join sep (p :: ps) = p ++ sep ++ join sep ps.
Proof. destruct ps; [congruence|reflexivity]. Qed.

Lemma join_split (sep : ascii) (s : str) : join [sep] (split sep s) = s.
Proof.
  induction s as [|c s IH]; [reflexivity|]. simpl split.
  destruct (Ascii.eqb c sep) eqn:E.
  - apply Ascii.eqb_eq in E. subst c.
    rewrite join_cons by apply split_nonempty. now rewrite IH.
  - pose proof (split_nonempty sep s) as Hne.
    destruct (split sep s) as [|l ls]; [congruence|].
    destruct ls as [|l' ls].
    + simpl in *. now rewrite IH.
    + rewrite join_cons in * by discriminate.
      rewrite <- IH. reflexivity.
Qed.

End StripFacts.

Section RoundTripFacts.
Import PyStr Scanner ScanSpec RoundTrip.

Lemma find_from_0 (sub s : str) : find sub s 0 = find_aux sub s 0.
Proof. reflexivity. Qed.

Lemma find_at_offset (sub pre s : str) :
  find sub (pre ++ s) (length pre) = find_aux sub s (length pre).
Proof.
  unfold find. rewrite length_app.
  replace (length pre + length s <? length pre) with false
    by (symmetry; apply Nat.ltb_ge; lia).
  now rewrite drop_app_length.
Qed.

Lemma find_aux_char (c : ascii) (a b : str) (pos : nat) :
  ~ In c a -> find_aux [c] (a ++ c :: b) pos = Some (pos + length a).
Proof.
  revert pos. induction a as [|x a IH]; intros pos Hin; simpl.
  - rewrite Ascii.eqb_refl. f_equal. lia.
  - destruct (Ascii.eqb c x) eqn:E.
    + apply Ascii.eqb_eq in E. subst x. exfalso. apply Hin. now left.
    + rewrite IH; [f_equal; lia|]. intros H. apply Hin. now right.
Qed.

Lemma substr_app_mid (a b c : str) (i j : nat) :
  i = length a -> j = length a + length b -> substr (a ++ b ++ c) i j = b.
Proof.
  intros -> ->. unfold substr.
  rewrite drop_app_length.
  replace (length a + length b - length a) with (length b) by lia.
  apply take_app_length.
Qed.

Lemma substr_prefix (a b : str) (j : nat) :
  j = length a -> substr (a ++ b) 0 j = a.
Proof.
  intros ->. apply (substr_app_mid [] a b); reflexivity.
Qed.

(** A line that does not start with a fence still does not once a newline
    and more text follow it. *)
Lemma startswith_fence_line (line z : str) :
  startswith fence line = false ->
  startswith fence (line ++ nlc :: z) = false.
Proof.
  destruct line as [|a [|b [|c line]]]; simpl; intros H;
    repeat match goal with
           | |- context [Ascii.eqb ?x ?y] => destruct (Ascii.eqb x y) eqn:?
           end; simpl in *; congruence.
Qed.

Lemma first_line_prefix (s : str) :
  exists line, hd [] (split nlc s) = line
               /\ (s = line \/ exists z, s = line ++ nlc :: z).
Proof.
  induction s as [|c s (line & Hhd & Hs)]; simpl.
  - exists []. split; [reflexivity|now left].
  - destruct (Ascii.eqb c nlc) eqn:E.
    + apply Ascii.eqb_eq in E. subst c.
      exists []. split; [reflexivity|]. right. now exists s.
    + pose proof (split_nonempty nlc s) as Hne.
      destruct (split nlc s) as [|l ls]; [congruence|]. simpl in Hhd. subst l.
      exists (c :: line). split; [reflexivity|].
      destruct Hs as [->|[z ->]]; [now left|right; now exists z].
Qed.

Lemma fence_free_first (s z : str) :
  fence_free_lines s -> startswith fence (s ++ nlc :: z) = false.
Proof.
  intros Hfree. destruct (first_line_prefix s) as (line & Hhd & Hs).
  assert (Hline : startswith fence line = false).
  { unfold fence_free_lines in Hfree.
    pose proof (split_nonempty nlc s) as Hne.
    destruct (split nlc s) as [|l ls]; [congruence|].
    simpl in Hhd. subst l. now inversion Hfree. }
  destruct Hs as [->|[z' ->]].
  - now apply startswith_fence_line.
  - rewrite <- app_assoc. simpl. now apply startswith_fence_line.
Qed.

Lemma find_closing_fence (s rest : str) (pos : nat) :
  tail_fence_free s ->
  find_aux nl_fence (s ++ nl_fence ++ rest) pos = Some (pos + length s).
Proof.
  revert pos. induction s as [|c s IH]; intros pos Hfree.
  - simpl. f_equal. lia.
  - cbn [app find_aux length].
    assert (Hstep : startswith nl_fence (c :: s ++ nl_fence ++ rest) = false
                    /\ tail_fence_free s).
    { unfold tail_fence_free in *. simpl in Hfree. cbn [nl_fence nl app startswith].
      destruct (Ascii.eqb c nlc) eqn:E.
      - apply Ascii.eqb_eq in E. subst c. simpl in Hfree.
        split.
        + change (Ascii.eqb nlc nlc) with true. cbn [andb].
          now apply (fence_free_first s (fence ++ rest)).
        + pose proof (split_nonempty nlc s) as Hne.
          destruct (split nlc s); [congruence|]. now inversion Hfree.
      - split.
        + rewrite Ascii.eqb_sym, E. reflexivity.
        + destruct (split nlc s); [constructor|exact Hfree]. }
    destruct Hstep as [-> Hs]. rewrite IH by exact Hs. f_equal. lia.
Qed.

Lemma substr_fence_occurs (s : str) (k : nat) :
  substr s k (k + 3) = fence -> occurs_at fence s k.
Proof.
  unfold substr, occurs_at. replace (k + 3 - k) with 3 by lia. intros H.
  split.
  - destruct (Nat.le_gt_cases k (length s)) as [Hle|Hgt]; [exact Hle|].
    rewrite skipn_all2 in H by lia. discriminate.
  - apply startswith_spec. exists (skipn 3 (skipn k s)).
    rewrite <- H at 1. symmetry. apply firstn_skipn.
Qed.

Lemma occurs_at_app_skip (sub a b : str) (k : nat) :
  length a <= k -> occurs_at sub (a ++ b) k -> occurs_at sub b (k - length a).
Proof.
  unfold occurs_at. intros Hk [Hlen Hocc]. rewrite length_app in Hlen.
  split; [lia|]. rewrite skipn_app, skipn_all2 in Hocc by exact Hk.
  exact Hocc.
Qed.

Lemma parse_loop_plain_step (fuel : nat) (text : str) (i : nat)
  (acc : list CodeBlock) (line_end : nat) :
  i < length text ->
  substr text i (i + 3) = fence ->
  find nl text i = Some line_end ->
  is_markdown (language_of (substr text (i + 3) line_end)) = false ->
  parse_loop (S fuel) text i acc
  = parse_loop fuel text (snd (plain_body text (line_end + 1)))
      (acc ++ [plain_block (language_of (substr text (i + 3) line_end))
                 text (line_end + 1)]).
Proof.
  intros Hi Hf Hl Hmd. cbn [parse_loop].
  apply Nat.ltb_lt in Hi. rewrite Hi.
  apply eqb_eq in Hf. rewrite Hf, Hl. now rewrite Hmd.
Qed.

Lemma parse_loop_no_fence (fuel : nat) (text : str) (i : nat)
  (acc : list CodeBlock) :
  0 < fuel -> length text < i + fuel ->
  absent_from fence text i ->
  parse_loop fuel text i acc = Some acc.
Proof.
  revert i. induction fuel as [|fuel IH]; intros i H0 Hlen Habs; [lia|].
  cbn [parse_loop]. destruct (i <? length text) eqn:Ei; [|reflexivity].
  apply Nat.ltb_lt in Ei.
  destruct (eqb (substr text i (i + 3)) fence) eqn:Ef.
  - apply eqb_eq, substr_fence_occurs in Ef.
    exfalso. exact (Habs i (Nat.le_refl i) Ef).
  - apply IH; [lia|lia|]. intros k Hk. apply Habs. lia.
Qed.

Lemma lstrip_by_all (p : ascii -> bool) (a b : str) :
  Forall (fun c => p c = true) a -> lstrip_by p (a ++ b) = lstrip_by p b.
Proof.
  induction 1 as [|c a Hc _ IH]; [reflexivity|]. simpl. now rewrite Hc.
Qed.

Lemma rstrip_by_all (p : ascii -> bool) (a b : str) :
  Forall (fun c => p c = true) b -> rstrip_by p (a ++ b) = rstrip_by p a.
Proof.
  intros Hb. unfold rstrip_by. rewrite rev_app_distr, lstrip_by_all;
    [reflexivity|].
  now apply List.Forall_rev.
Qed.

Lemma blank_space (s : str) :
  blank s -> Forall (fun c => isspace c = true) s.
Proof.
  unfold blank. intros Hb. eapply List.Forall_impl; [|exact Hb].
  intros c [Hc _]. exact Hc.
Qed.

Lemma blank_no_nl (s : str) : blank s -> ~ In nlc s.
Proof.
  intros Hb Hin. unfold blank in Hb. rewrite List.Forall_forall in Hb.
  now destruct (Hb _ Hin).
Qed.

Lemma hashes_no_nl (n : nat) : ~ In nlc (repeat hash n).
Proof. intros Hin. apply repeat_spec in Hin. discriminate. Qed.

Lemma comment_line_no_nl (indent : str) (more : nat) (gap path trail : str) :
  blank indent -> blank gap -> blank trail -> ~ In nlc path ->
  ~ In nlc (comment_line indent more gap path trail).
Proof.
  intros Hi Hg Ht Hp Hin. unfold comment_line in Hin.
  repeat (apply in_app_or in Hin as [Hin|Hin]).
  - exact (blank_no_nl _ Hi Hin).
  - exact (hashes_no_nl _ Hin).
  - exact (blank_no_nl _ Hg Hin).
  - exact (Hp Hin).
  - exact (blank_no_nl _ Ht Hin).
Qed.

(** What [strip], [lstrip("#")] and [strip] again leave of a comment line. *)
Lemma comment_line_strip (indent : str) (more : nat) (gap path trail : str) :
  blank indent -> blank gap -> blank trail -> names_path path ->
  strip (comment_line indent more gap path trail)
  = repeat hash (S more) ++ gap ++ path
  /\ strip (lstrip [hash] (repeat hash (S more) ++ gap ++ path)) = path.
Proof.
  intros Hi Hg Ht (Hnl & Hfix & Hsep & Hhead).
  assert (Hne : path <> []) by (destruct Hsep as [H|H]; now destruct path).
  destruct (strip_fixed path Hfix) as [Hl Hr]. split.
  - unfold strip, comment_line.
    rewrite lstrip_by_all by now apply blank_space.
    cbn [repeat app lstrip_by]. change (isspace hash) with false. cbv iota.
    change (hash :: repeat hash more ++ gap ++ path ++ trail)
      with ((hash :: repeat hash more) ++ gap ++ path ++ trail).
    rewrite (app_assoc gap), app_assoc, rstrip_by_all
      by now apply blank_space.
    rewrite app_assoc, rstrip_by_app by assumption.
    now rewrite <- !app_assoc.
  - unfold lstrip. rewrite lstrip_by_all.
    2:{ apply List.Forall_forall. intros c Hc. apply repeat_spec in Hc.
        now subst c. }
    assert (Hkeep : lstrip_by (fun c => has c [hash]) (gap ++ path)
                    = gap ++ path).
    { destruct gap as [|g gap].
      - destruct path as [|c path]; [congruence|]. cbn [app lstrip_by].
        cbn [startswith] in Hhead. apply andb_false_iff in Hhead as [Hh|Hh];
          [|discriminate].
        cbn [has existsb]. rewrite Ascii.eqb_sym, Hh. reflexivity.
      - inversion Hg as [|? ? [Hsp _] _]; subst. cbn [app lstrip_by].
        cbn [has existsb]. destruct (Ascii.eqb g hash) eqn:E; [|reflexivity].
        apply Ascii.eqb_eq in E. subst g. discriminate Hsp. }
    rewrite Hkeep. unfold strip.
    rewrite lstrip_by_all by now apply blank_space.
    now rewrite Hl.
Qed.

Lemma lift_filename_comment (indent : str) (more : nat)
  (gap path trail body : str) :
  blank indent -> blank gap -> blank trail -> names_path path ->
  lift_filename (comment_line indent more gap path trail ++ nl ++ body)
  = (Some path, body).
Proof.
  intros Hi Hg Ht Hpath.
  destruct (comment_line_strip indent more gap path trail Hi Hg Ht Hpath)
    as [Hs1 Hs2].
  pose proof Hpath as (Hnl & Hfix & Hsep & Hhead).
  unfold lift_filename.
  change (comment_line indent more gap path trail ++ nl ++ body)
    with (comment_line indent more gap path trail ++ nlc :: body).
  rewrite split_app_sep by now apply comment_line_no_nl.
  rewrite Hs1, Hs2.
  assert (H1 : has dot (repeat hash (S more) ++ gap ++ path)
               || has slash (repeat hash (S more) ++ gap ++ path) = true).
  { apply orb_true_iff. destruct Hsep as [H|H]; [left|right];
      apply has_In; apply in_or_app; right; apply in_or_app; now right. }
  assert (H2 : has slash path || has dot path = true).
  { apply orb_true_iff. destruct Hsep as [H|H]; [right|left];
      now apply has_In. }
  rewrite H1, H2. cbn [repeat app startswith].
  rewrite Ascii.eqb_refl. cbn [andb]. unfold nl. now rewrite join_split.
Qed.

End RoundTripFacts.

Section RoundTripTheorem.
Import PyStr Scanner ScanSpec RoundTrip.

(** C6, amended.  Round trip of the comment-filename heuristic, for the
    one comment marker the scanner knows, [#].  Take one fenced block whose
    tag is not markdown/md, whose first body line is a [#] comment that
    names a path (one or more [#], then the path: one line, with a [.] or a
    [/], blanks allowed around it), whose other lines do not start with a
    fence, and after which the text holds no further fence.  Scanning
    yields exactly one block: its filename is that path, and its stored
    content is the body with the comment line removed (and, as for every
    block, trimmed). *)
Theorem comment_filename_roundtrip (tag indent : str) (more : nat)
  (gap path trail body rest : str) :
  ~ In nlc tag ->
  is_markdown (language_of tag) = false ->
  blank indent -> blank gap -> blank trail ->
  names_path path ->
  fence_free_lines body ->
  absent_from fence rest 0 ->
  parse_code_blocks
    (fenced tag (comment_line indent more gap path trail ++ nl ++ body) rest)
  = Some [ {| language := language_of tag;
              code := strip body;
              filename := Some path |} ].
Proof.
  intros Htag Hmd Hi Hg Ht Hpath Hfree Hrest.
  set (line := comment_line indent more gap path trail).
  assert (Hline : ~ In nlc line)
    by (apply comment_line_no_nl; try assumption; apply Hpath).
  set (X := line ++ nl ++ body).
  set (pre := fence ++ tag ++ nl).
  assert (HT : fenced tag X rest = pre ++ X ++ nl_fence ++ rest).
  { unfold fenced, pre. now rewrite <- !app_assoc. }
  assert (Hpre : length pre = 3 + length tag + 1).
  { unfold pre. rewrite !length_app. reflexivity. }
  assert (Hlen : 0 < length (fenced tag X rest)).
  { unfold fenced. rewrite length_app. simpl. lia. }
  assert (Hfind : find nl (fenced tag X rest) 0 = Some (3 + length tag)).
  { rewrite find_from_0. unfold fenced.
    change (fence ++ tag ++ nl ++ X ++ nl_fence ++ rest)
      with (fence ++ tag ++ nlc :: X ++ nl_fence ++ rest).
    rewrite app_assoc. unfold nl. rewrite find_aux_char.
    - rewrite length_app. reflexivity.
    - intros H. apply in_app_or in H as [H|H]; [|exact (Htag H)].
      simpl in H. repeat destruct H as [H|H]; try discriminate H. exact H. }
  assert (Htagsub : substr (fenced tag X rest) (0 + 3) (3 + length tag) = tag).
  { unfold fenced. apply substr_app_mid; reflexivity. }
  unfold parse_code_blocks.
  rewrite (parse_loop_plain_step _ _ _ _ _ Hlen
             (substr_prefix fence _ 3 eq_refl) Hfind);
    [|rewrite Htagsub; exact Hmd].
  rewrite Htagsub.
  assert (Hbody : plain_body (fenced tag X rest) (3 + length tag + 1)
                  = (X, length pre + length X + 4)).
  { unfold plain_body, find_closing. rewrite HT, <- Hpre.
    rewrite find_at_offset, find_closing_fence.
    - f_equal. apply substr_app_mid; reflexivity.
    - unfold tail_fence_free, X.
      change (line ++ nl ++ body) with (line ++ nlc :: body).
      rewrite split_app_sep; assumption. }
  unfold plain_block. rewrite Hbody. cbn [fst snd].
  replace (lift_filename X) with (Some path, body)
    by (symmetry; apply lift_filename_comment; assumption).
  cbn [app]. apply parse_loop_no_fence; [exact Hlen|lia|].
  intros k Hk Hocc. rewrite HT in Hocc.
  rewrite !app_assoc in Hocc. apply occurs_at_app_skip in Hocc.
  - exact (Hrest _ (Nat.le_0_l _) Hocc).
  - rewrite !length_app. change (length nl_fence) with 4. lia.
Qed.

End RoundTripTheorem.

Section RoundTripWitness.
Import PyStr Scanner ScanSpec RoundTrip.

Lemma absent_from_nil (sub : str) : sub <> [] -> absent_from sub [] 0.
Proof.
  intros Hne k _ [Hk Hocc]. simpl in Hk.
  replace k with 0 in Hocc by lia. destruct sub; [congruence|discriminate].
Qed.

(** The round trip on the block [```python / # src/app.py / print(1) / ```]. *)
Lemma comment_filename_roundtrip_witness :
  parse_code_blocks
    (text_of_lines ["```python"; "# src/app.py"; "print(1)"; "```"])
  = Some [ {| language := lit "python"; code := lit "print(1)";
              filename := Some (lit "src/app.py") |} ].
Proof.
  apply (comment_filename_roundtrip (lit "python") [] 0 (lit " ")
           (lit "src/app.py") [] (lit "print(1)") []).
  - simpl. intros H. repeat destruct H as [H|H]; try discriminate H. exact H.
  - reflexivity.
  - constructor.
  - repeat constructor; discriminate.
  - constructor.
  - repeat split; try reflexivity.
    + simpl. intros H. repeat destruct H as [H|H]; try discriminate H.
      exact H.
    + left. simpl. tauto.
  - repeat constructor.
  - apply absent_from_nil. discriminate.
Defined.

(** C6, as the specification words it, fails for a comment that names a
    path behind another comment marker: for the block
    [```javascript / // src/app.js / console.log(1) / ```] the scan lifts no
    filename, and the comment line stays in the stored content. *)
Lemma slash_comment_not_lifted :
  parse_code_blocks
    (text_of_lines
       ["```javascript"; "// src/app.js"; "console.log(1)"; "```"])
  = Some [ {| language := lit "javascript";
              code := text_of_lines ["// src/app.js"; "console.log(1)"];
              filename := None |} ].
Proof. vm_compute. reflexivity. Qed.

End RoundTripWitness.
(** ** The filename validator *)

Section ValidatorFacts.
Import PyStr Scanner Validator.

(** C8.  [_is_valid_filename] answers false exactly when the name holds
    neither [.] nor [/], or holds a space, or is longer than 200 characters,
    or holds one of < > | : * ? or a double quote; every other name passes.  The rows of
    the validator table follow. *)
Theorem is_valid_filename_spec :
  (forall filename : str,
     _is_valid_filename filename = false <->
     (~ In dot filename /\ ~ In slash filename)
     \/ In space filename
     \/ 200 < length filename
     \/ exists c, In c invalid_chars /\ In c filename)
  /\ _is_valid_filename (lit "README.md") = true
  /\ _is_valid_filename (lit "main.py") = true
  /\ _is_valid_filename (lit "src/app.js") = true
  /\ (forall filename, In space filename ->
        _is_valid_filename filename = false)
  /\ (forall filename, ~ In dot filename -> ~ In slash filename ->
        _is_valid_filename filename = false)
  /\ (forall filename, length filename = 300 ->
        _is_valid_filename filename = false)
  /\ (forall filename, In "<"%char filename ->
        _is_valid_filename filename = false).
Proof.
  assert (Hspec : forall filename : str,
     _is_valid_filename filename = false <->
     (~ In dot filename /\ ~ In slash filename)
     \/ In space filename
     \/ 200 < length filename
     \/ exists c, In c invalid_chars /\ In c filename).
  { intros filename.
    assert (Hb : _is_valid_filename filename = false <->
                 (has dot filename = false /\ has slash filename = false)
                 \/ has space filename = true
                 \/ (200 <? length filename) = true
                 \/ existsb (fun char => has char filename) invalid_chars
                    = true).
    { unfold _is_valid_filename.
      destruct (has dot filename), (has slash filename),
        (has space filename), (200 <? length filename),
        (existsb (fun char => has char filename) invalid_chars);
        cbn [negb andb]; intuition congruence. }
    rewrite Hb, !has_false, has_In, Nat.ltb_lt, existsb_exists.
    split; (intros [H|[H|[H|(c & Hc1 & Hc2)]]];
            [tauto|tauto|tauto|
             right; right; right; exists c; split; [exact Hc1|];
             apply has_In; exact Hc2]). }
  split; [exact Hspec|].
  repeat split; try reflexivity.
  - intros filename H. apply Hspec. tauto.
  - intros filename H1 H2. apply Hspec. tauto.
  - intros filename H. apply Hspec. right. right. left. lia.
  - intros filename H. apply Hspec. right. right. right.
    exists "<"%char. split; [now left|exact H].
Qed.

(** The rows of [test_filename_validation]. *)
Example validator_test_rows :
  _is_valid_filename (lit "ClinicalTrials.gov Search and Report Generator")
  = false
  /\ _is_valid_filename (lit "# This is a heading") = false
  /\ _is_valid_filename (lit "file<>.txt") = false
  /\ _is_valid_filename (repeat "a"%char 300 ++ lit ".txt") = false.
Proof. repeat split; vm_compute; reflexivity. Qed.

End ValidatorFacts.
(** ** The filename pattern and its matches *)

Section RegexFacts.
Import PyStr Scanner Regex Resolver ResolveSpec.

Lemma bmatch_sound (r : re) :
  forall (k : cursor -> option cursor) (cur res : cursor),
    bmatch r k cur = Some res ->
    exists mid, matches r cur mid /\ k mid = Some res.
Proof.
  induction r as [p|r1 IH1 r2 IH2|r IH|]; intros k cur res H.
  - destruct cur as [prev [|c rest]]; simpl in H; [discriminate|].
    destruct (p c) eqn:Hp; [|discriminate].
    exists (Some c, rest). split; [now constructor|exact H].
  - simpl in H. apply IH1 in H as (mid1 & H1 & H).
    apply IH2 in H as (mid2 & H2 & H).
    exists mid2. split; [econstructor; eassumption|exact H].
  - cbn [bmatch] in H. revert H. generalize (length (snd cur)) as n.
    intros n. revert cur. induction n as [|n IHn]; intros cur H.
    + exists cur. split; [constructor|exact H].
    + cbn [star_loop] in H. destruct (bmatch r _ cur) as [res'|] eqn:E.
      * injection H as ->. apply IH in E as (mid1 & H1 & E).
        destruct (length (snd mid1) <? length (snd cur)); [|discriminate].
        apply IHn in E as (mid & Hs & E).
        exists mid. split; [econstructor; eassumption|exact E].
      * exists cur. split; [constructor|exact H].
  - simpl in H. destruct (at_boundary cur) eqn:Hb; [|discriminate].
    exists cur. split; [now constructor|exact H].
Qed.

Lemma last_of_app (prev : option ascii) (w1 w2 : str) :
  last_of prev (w1 ++ w2) = last_of (last_of prev w1) w2.
Proof. unfold last_of. apply fold_left_app. Qed.

Lemma matches_chr_inv (p : ascii -> bool) (a b : cursor) :
  matches (Chr p) a b ->
  exists c, snd a = c :: snd b /\ p c = true /\ fst b = Some c.
Proof. intros H. inversion H; subst. simpl. eauto. Qed.

Lemma matches_star_chr (p : ascii -> bool) (a b : cursor) :
  matches (Star (Chr p)) a b ->
  exists w, snd a = w ++ snd b /\ Forall (fun c => p c = true) w
            /\ fst b = last_of (fst a) w.
Proof.
  intros H. remember (Star (Chr p)) as r eqn:Hr.
  induction H as [| | |r0 a b c H1 _ H2 IH|]; try discriminate.
  - exists []. repeat split. constructor.
  - injection Hr as ->. specialize (IH eq_refl) as (w & Hw & Hall & Hl).
    apply matches_chr_inv in H1 as (x & Hx & Hp & Hb).
    exists (x :: w). rewrite Hx, Hw. repeat split.
    + now constructor.
    + rewrite Hl, Hb. reflexivity.
Qed.

Lemma matches_plus_chr (p : ascii -> bool) (a b : cursor) :
  matches (Plus (Chr p)) a b ->
  exists w, snd a = w ++ snd b /\ run_of p w /\ fst b = last_of (fst a) w.
Proof.
  intros H. inversion H as [|r1 r2 a' m b' H1 H2| | |]; subst.
  apply matches_chr_inv in H1 as (x & Hx & Hp & Hm).
  apply matches_star_chr in H2 as (w & Hw & Hall & Hl).
  exists (x :: w). rewrite Hx, Hw. repeat split.
  - discriminate.
  - now constructor.
  - rewrite Hl, Hm. reflexivity.
Qed.

Lemma join_slashed (seg : str) (segs : list str) :
  join [slash] (seg :: segs) = seg ++ slashed segs.
Proof.
  revert seg. induction segs as [|s segs IH]; intros seg.
  - simpl. now rewrite app_nil_r.
  - change (join [slash] (seg :: s :: segs))
      with (seg ++ [slash] ++ join [slash] (s :: segs)).
    rewrite IH. reflexivity.
Qed.

Lemma matches_star_segments (a b : cursor) :
  matches (Star (Seq (Chr (Ascii.eqb slash)) (Plus (Chr seg_char)))) a b ->
  exists segs, snd a = slashed segs ++ snd b
               /\ Forall (run_of seg_char) segs
               /\ fst b = last_of (fst a) (slashed segs).
Proof.
  intros H.
  remember (Star (Seq (Chr (Ascii.eqb slash)) (Plus (Chr seg_char)))) as r
    eqn:Hr.
  induction H as [| | |r0 a b c H1 _ H2 IH|]; try discriminate.
  - exists []. repeat split. constructor.
  - injection Hr as ->. specialize (IH eq_refl) as (segs & Hs & Hall & Hl).
    inversion H1 as [|r1 r2 a' m b' Hc Hp| | |]; subst.
    apply matches_chr_inv in Hc as (x & Hx & Hsl & Hm).
    apply Ascii.eqb_eq in Hsl. subst x.
    apply matches_plus_chr in Hp as (w & Hw & Hrun & Hb).
    exists (w :: segs). repeat split.
    + rewrite Hx, Hw, Hs. unfold slashed. simpl.
      now rewrite <- app_assoc.
    + now constructor.
    + rewrite Hl, Hb, Hm. unfold slashed. simpl.
      change (slash :: w ++ concat (map (fun seg => slash :: seg) segs))
        with ((slash :: w) ++ concat (map (fun seg => slash :: seg) segs)).
      rewrite last_of_app. reflexivity.
Qed.

(** A match of the filename pattern reads a filename-shaped token that
    stands between two word boundaries. *)
Lemma matches_filename_pattern (a b : cursor) :
  matches filename_pattern a b ->
  exists tok, snd a = tok ++ snd b
              /\ filename_shaped tok
              /\ at_boundary a = true
              /\ at_boundary b = true
              /\ fst b = last_of (fst a) tok.
Proof.
  unfold filename_pattern. intros H.
  inversion H as [|? ? ? a1 ? Hb1 H1| | |]; subst; clear H.
  inversion Hb1; subst; clear Hb1.
  inversion H1 as [|? ? ? a2 ? Hseg H2| | |]; subst; clear H1.
  inversion H2 as [|? ? ? a3 ? Hsegs H3| | |]; subst; clear H2.
  inversion H3 as [|? ? ? a4 ? Hdot H4| | |]; subst; clear H3.
  inversion H4 as [|? ? ? a5 ? Hext Hb2| | |]; subst; clear H4.
  inversion Hb2; subst; clear Hb2.
  apply matches_plus_chr in Hseg as (seg & Es & Hrs & Ls).
  apply matches_star_segments in Hsegs as (segs & Ess & Hrss & Lss).
  apply matches_chr_inv in Hdot as (x & Ed & Hx & Ld).
  apply Ascii.eqb_eq in Hx. subst x.
  apply matches_plus_chr in Hext as (ext & Ee & Hre & Le).
  exists (join [slash] (seg :: segs) ++ [dot] ++ ext).
  rewrite join_slashed. repeat split; try assumption.
  - rewrite Es, Ess, Ed, Ee. now rewrite <- !app_assoc.
  - exists seg, segs, ext. rewrite join_slashed.
    split; [reflexivity|]. split; [exact Hrs|]. split; assumption.
  - rewrite Le, Ld. rewrite !last_of_app. simpl.
    destruct ext as [|e ext]; [now destruct Hre|reflexivity].
Qed.

Lemma filename_shaped_nonempty (tok : str) : filename_shaped tok -> tok <> [].
Proof.
  intros (seg & segs & ext & -> & _ & _ & _) E.
  apply app_eq_nil in E as [_ E]. discriminate.
Qed.

(** What a match reads: the text between the two positions. *)
Lemma matches_reads (r : re) (a b : cursor) :
  matches r a b ->
  exists w, snd a = w ++ snd b /\ fst b = last_of (fst a) w.
Proof.
  induction 1 as [p prev c rest Hp|r1 r2 a b c _ IH1 _ IH2|r a
                 |r a b c _ IH1 _ IH2|a Hb].
  - exists [c]. split; reflexivity.
  - destruct IH1 as (w1 & E1 & L1), IH2 as (w2 & E2 & L2).
    exists (w1 ++ w2). rewrite E1, E2, L2, L1, last_of_app.
    split; [now rewrite app_assoc|reflexivity].
  - exists []. split; reflexivity.
  - destruct IH1 as (w1 & E1 & L1), IH2 as (w2 & E2 & L2).
    exists (w1 ++ w2). rewrite E1, E2, L2, L1, last_of_app.
    split; [now rewrite app_assoc|reflexivity].
  - exists []. split; reflexivity.
Qed.

Lemma star_loop_complete (r : re) (k : cursor -> option cursor)
  (res : cursor) :
  (forall k' cur mid res',
     matches r cur mid -> k' mid = Some res' ->
     exists res'', bmatch r k' cur = Some res'') ->
  forall cur mid,
    matches (Star r) cur mid -> k mid = Some res ->
    forall n, length (snd cur) <= n ->
    exists res', star_loop (bmatch r) k n cur = Some res'.
Proof.
  intros IHr cur mid Hm. remember (Star r) as sr eqn:Hsr.
  induction Hm as [| |r0 a|r0 a b c H1 _ H2 IH2|]; try discriminate;
    intros Hk n Hn.
  - destruct n as [|n]; cbn [star_loop]; [eauto|].
    destruct (bmatch r _ a); eauto.
  - injection Hsr as ->. specialize (IH2 eq_refl Hk).
    destruct (matches_reads _ _ _ H1) as (w & Ew & Lw).
    destruct w as [|x w].
    + assert (b = a) as ->.
      { destruct a, b. simpl in *. now subst. }
      now apply IH2.
    + assert (Hlt : length (snd b) < length (snd a)).
      { rewrite Ew, length_app. simpl. lia. }
      destruct n as [|n]; [lia|]. cbn [star_loop].
      destruct (IH2 n ltac:(lia)) as [res2 Hres2].
      destruct (IHr (fun cur' =>
                       if length (snd cur') <? length (snd a)
                       then star_loop (bmatch r) k n cur' else None)
                  a b res2 H1) as [res3 Hres3].
      { apply Nat.ltb_lt in Hlt. now rewrite Hlt. }
      rewrite Hres3. eauto.
Qed.

(** The matcher finds a match whenever there is one. *)
Lemma bmatch_complete (r : re) :
  forall (k : cursor -> option cursor) (cur mid res : cursor),
    matches r cur mid -> k mid = Some res ->
    exists res', bmatch r k cur = Some res'.
Proof.
  induction r as [p|r1 IH1 r2 IH2|r IH|]; intros k cur mid res Hm Hk.
  - inversion Hm as [? ? ? ? Hp| | | |]; subst. simpl. rewrite Hp. eauto.
  - inversion Hm as [|? ? ? b ? H1 H2| | |]; subst.
    destruct (IH2 k b mid res H2 Hk) as [res2 Hres2].
    exact (IH1 (bmatch r2 k) cur b res2 H1 Hres2).
  - cbn [bmatch]. now apply (star_loop_complete r k res IH cur mid).
  - inversion Hm as [| | | |? Hb]; subst. simpl. rewrite Hb. eauto.
Qed.

Lemma matches_star_run (p : ascii -> bool) (prev : option ascii)
  (w rest : str) :
  Forall (fun c => p c = true) w ->
  matches (Star (Chr p)) (prev, w ++ rest) (last_of prev w, rest).
Proof.
  revert prev. induction w as [|c w IH]; intros prev Hall.
  - constructor.
  - inversion Hall; subst. simpl.
    apply M_star_step with (b := (Some c, w ++ rest)); [now constructor|].
    apply IH. assumption.
Qed.

Lemma matches_plus_run (p : ascii -> bool) (prev : option ascii)
  (w rest : str) :
  run_of p w ->
  matches (Plus (Chr p)) (prev, w ++ rest) (last_of prev w, rest).
Proof.
  intros [Hne Hall]. destruct w as [|c w]; [congruence|].
  inversion Hall; subst. simpl.
  apply M_seq with (b := (Some c, w ++ rest)); [now constructor|].
  now apply matches_star_run.
Qed.

Lemma matches_star_slashed (prev : option ascii) (segs : list str)
  (rest : str) :
  Forall (run_of seg_char) segs ->
  matches (Star (Seq (Chr (Ascii.eqb slash)) (Plus (Chr seg_char))))
    (prev, slashed segs ++ rest) (last_of prev (slashed segs), rest).
Proof.
  revert prev. induction segs as [|seg segs IH]; intros prev Hall.
  - constructor.
  - inversion Hall; subst. unfold slashed. simpl.
    change (concat (map (fun seg => slash :: seg) segs)) with (slashed segs).
    rewrite <- app_assoc.
    change (slash :: seg ++ slashed segs)
      with ((slash :: seg) ++ slashed segs).
    rewrite last_of_app.
    apply M_star_step
      with (b := (last_of (Some slash) seg, slashed segs ++ rest)).
    + apply M_seq with (b := (Some slash, seg ++ slashed segs ++ rest)).
      * constructor. apply Ascii.eqb_refl.
      * now apply matches_plus_run.
    + apply IH. assumption.
Qed.

(** A token that stands at a position is a match of the pattern there. *)
Lemma token_matches (cur : cursor) (tok rest : str) :
  token_at cur tok rest ->
  matches filename_pattern cur (last_of (fst cur) tok, rest).
Proof.
  destruct cur as [prev s]. intros (Hs & Hshape & Hb1 & Hb2).
  simpl in Hs. subst s. simpl fst in *.
  destruct Hshape as (seg & segs & ext & -> & Hseg & Hsegs & Hext).
  rewrite join_slashed in *. rewrite <- !app_assoc in *.
  rewrite !last_of_app in *.
  unfold filename_pattern.
  apply M_seq with (b := (prev, seg ++ slashed segs ++ [dot] ++ ext ++ rest));
    [now constructor|].
  eapply M_seq; [now apply matches_plus_run|].
  eapply M_seq; [now apply matches_star_slashed|].
  eapply M_seq; [constructor; apply Ascii.eqb_refl|].
  eapply M_seq; [now apply matches_plus_run|].
  constructor. simpl in *. exact Hb2.
Qed.

Lemma match_at_token (cur cur' : cursor) :
  match_at filename_pattern cur = Some cur' ->
  exists tok, token_at cur tok (snd cur')
              /\ fst cur' = last_of (fst cur) tok.
Proof.
  intros E. apply bmatch_sound in E as (mid & Hm & Hk). injection Hk as ->.
  apply matches_filename_pattern in Hm as (tok & Hs & Hshape & Hb1 & Hb2 & Hl).
  exists tok. split; [|exact Hl]. repeat split; try assumption.
  rewrite <- Hl. now destruct cur'.
Qed.

Lemma match_at_none (cur : cursor) :
  match_at filename_pattern cur = None ->
  forall tok rest, ~ token_at cur tok rest.
Proof.
  intros E tok rest Htok. apply token_matches in Htok.
  destruct (bmatch_complete filename_pattern Some cur _ _ Htok eq_refl)
    as [res Hres].
  unfold match_at in E. congruence.
Qed.

Lemma findall_from_mentions (fuel : nat) (cur : cursor) :
  length (snd cur) < fuel ->
  mentions cur (findall_from fuel filename_pattern cur).
Proof.
  revert cur. induction fuel as [|fuel IH]; intros cur Hfuel; [lia|].
  cbn [findall_from]. destruct (match_at filename_pattern cur) as [cur'|] eqn:E.
  - apply match_at_token in E as (tok & Htok & Hl).
    pose proof Htok as (Hs & Hshape & _).
    destruct cur as [prev s], cur' as [prev' s']. simpl in Hs, Hl.
    subst s prev'. cbn [snd] in *.
    rewrite length_app, Nat.add_sub, take_app_length.
    pose proof (filename_shaped_nonempty tok Hshape) as Hne.
    destruct tok as [|c tok]; [congruence|]. cbn [truthy].
    constructor; [exact Htok|]. apply IH.
    rewrite length_app in Hfuel. simpl in *. lia.
  - pose proof (match_at_none cur E) as Hnone.
    destruct cur as [prev [|c rest]]; cbn [snd] in *; [constructor|].
    constructor; [exact Hnone|]. apply IH. simpl in *. lia.
Qed.

Lemma mentions_none (cur : cursor) (toks : list str) :
  mentions cur toks -> toks = [] ->
  forall pre tok rest,
    snd cur = pre ++ tok ++ rest ->
    ~ token_at (last_of (fst cur) pre, tok ++ rest) tok rest.
Proof.
  induction 1 as [prev|prev c rest0 toks Hno _ IH|]; intros Hnil;
    [| |discriminate]; intros pre tok rest Hs Htok; cbn [fst snd] in *.
  - destruct Htok as (_ & Hshape & _).
    apply filename_shaped_nonempty in Hshape.
    destruct pre; [destruct tok; [congruence|discriminate]|discriminate].
  - destruct pre as [|x pre].
    + simpl in Hs, Htok. rewrite <- Hs in Htok. exact (Hno _ _ Htok).
    + injection Hs as <- Hs. exact (IH Hnil pre tok rest Hs Htok).
Qed.

Lemma mentions_some (cur : cursor) (tok : str) (toks : list str) :
  mentions cur (tok :: toks) ->
  exists pre rest,
    snd cur = pre ++ tok ++ rest
    /\ token_at (last_of (fst cur) pre, tok ++ rest) tok rest.
Proof.
  intros H. remember (tok :: toks) as l eqn:Hl.
  induction H as [prev|prev c rest0 l _ _ IH|prev tok0 rest0 l Htok _ _];
    [discriminate| |].
  - destruct (IH Hl) as (pre & rest & Hs & Ht). cbn [fst snd] in *.
    exists (c :: pre), rest. split; [now rewrite Hs|exact Ht].
  - injection Hl as -> ->. exists [], rest0. split; [reflexivity|exact Htok].
Qed.

Lemma ext_char_word (c : ascii) : ext_char c = true -> is_word c = true.
Proof.
  destruct c as [[] [] [] [] [] [] [] []]; vm_compute; congruence.
Qed.

Lemma seg_char_not_dot (c : ascii) :
  seg_char c = true \/ c = slash -> c <> dot.
Proof.
  intros [H| ->] E; [subst c|]; discriminate.
Qed.

Lemma first_dot_unique (p1 p2 t1 t2 : str) :
  ~ In dot p1 -> ~ In dot p2 ->
  p1 ++ dot :: t1 = p2 ++ dot :: t2 -> p1 = p2 /\ t1 = t2.
Proof.
  revert p2. induction p1 as [|a p1 IH]; intros [|b p2] H1 H2 E;
    simpl in E.
  - injection E as ->. now split.
  - injection E as <- _. exfalso. apply H2. now left.
  - injection E as -> _. exfalso. apply H1. now left.
  - injection E as -> E. destruct (IH p2) as [-> ->]; try assumption.
    + intros H. apply H1. now right.
    + intros H. apply H2. now right.
    + now split.
Qed.

Lemma path_part_no_dot (seg : str) (segs : list str) :
  run_of seg_char seg -> Forall (run_of seg_char) segs ->
  ~ In dot (seg ++ slashed segs).
Proof.
  intros [_ Hseg] Hsegs Hin.
  rewrite List.Forall_forall in Hseg.
  apply in_app_or in Hin as [Hin|Hin].
  - exact (seg_char_not_dot dot (or_introl (Hseg _ Hin)) eq_refl).
  - unfold slashed in Hin. apply in_concat in Hin as (w & Hw & Hin).
    apply in_map_iff in Hw as (seg' & <- & Hseg').
    rewrite List.Forall_forall in Hsegs.
    destruct (Hsegs _ Hseg') as [_ Hall].
    rewrite List.Forall_forall in Hall.
    destruct Hin as [Hin|Hin]; [discriminate Hin|].
    exact (seg_char_not_dot dot (or_introl (Hall _ Hin)) eq_refl).
Qed.

Lemma extension_unique (e1 e2 r1 r2 : str) :
  Forall (fun c => ext_char c = true) e1 ->
  Forall (fun c => ext_char c = true) e2 ->
  is_word_opt (head r1) = false -> is_word_opt (head r2) = false ->
  e1 ++ r1 = e2 ++ r2 -> e1 = e2 /\ r1 = r2.
Proof.
  intros H1. revert e2. induction H1 as [|a e1 Ha _ IH];
    intros e2 H2 Hr1 Hr2 E.
  - destruct H2 as [|b e2 Hb _]; [now split|].
    simpl in E. subst r1. simpl in Hr1.
    apply ext_char_word in Hb. congruence.
  - destruct H2 as [|b e2 Hb H2].
    + simpl in E. subst r2. simpl in Hr2.
      apply ext_char_word in Ha. congruence.
    + injection E as -> E. destruct (IH e2 H2 Hr1 Hr2 E) as [-> ->].
      now split.
Qed.

Lemma last_of_run (prev : option ascii) (w : str) :
  w <> [] -> exists c, In c w /\ last_of prev w = Some c.
Proof.
  revert prev. induction w as [|a w IH]; intros prev Hne; [congruence|].
  destruct w as [|b w].
  - exists a. split; [now left|reflexivity].
  - destruct (IH (Some a) ltac:(discriminate)) as (c & Hin & Hl).
    exists c. split; [now right|exact Hl].
Qed.

(** At most one token stands at a position. *)
Lemma token_unique (cur : cursor) (tok1 rest1 tok2 rest2 : str) :
  token_at cur tok1 rest1 -> token_at cur tok2 rest2 ->
  tok1 = tok2 /\ rest1 = rest2.
Proof.
  intros (Hs1 & (seg1 & segs1 & ext1 & -> & Hg1 & Hgs1 & [Hn1 He1]) & _ & Hb1)
         (Hs2 & (seg2 & segs2 & ext2 & -> & Hg2 & Hgs2 & [Hn2 He2]) & _ & Hb2).
  rewrite Hs1 in Hs2. rewrite !join_slashed in *.
  rewrite <- !app_assoc in Hs2. rewrite !app_assoc in Hs2.
  rewrite <- !(app_assoc (seg1 ++ slashed segs1)) in Hs2.
  rewrite <- !(app_assoc (seg2 ++ slashed segs2)) in Hs2.
  cbn [app] in Hs2.
  apply first_dot_unique in Hs2 as [Hp Hs2];
    try now apply path_part_no_dot.
  assert (Hw : forall prev p ext rest,
             ext <> [] -> Forall (fun c => ext_char c = true) ext ->
             at_boundary (last_of prev (p ++ [dot] ++ ext), rest) = true ->
             is_word_opt (head rest) = false).
  { intros prev p ext rest Hne Hall Hb. unfold at_boundary in Hb.
    cbn [fst snd] in Hb. rewrite !last_of_app in Hb.
    destruct (last_of_run (last_of (last_of prev p) [dot]) ext Hne)
      as (c & Hin & Hl).
    rewrite Hl in Hb. rewrite List.Forall_forall in Hall.
    cbn [is_word_opt] in Hb. rewrite (ext_char_word c (Hall c Hin)) in Hb.
    now destruct (is_word_opt (head rest)). }
  apply Hw in Hb1; [|assumption..]. apply Hw in Hb2; [|assumption..].
  destruct (extension_unique ext1 ext2 rest1 rest2 He1 He2 Hb1 Hb2 Hs2)
    as [-> ->].
  rewrite Hp. now split.
Qed.

Lemma token_at_nonempty (cur : cursor) (tok rest : str) :
  token_at cur tok rest -> tok <> [].
Proof. intros (_ & Hshape & _). now apply filename_shaped_nonempty. Qed.

(** The scan has one result. *)
Lemma mentions_unique (cur : cursor) (toks1 toks2 : list str) :
  mentions cur toks1 -> mentions cur toks2 -> toks1 = toks2.
Proof.
  intros H1. revert toks2.
  induction H1 as [prev|prev c rest toks1 Hno _ IH
                  |prev tok rest toks1 Htok _ IH]; intros toks2 H2.
  - remember (prev, @nil ascii) as cur eqn:Ecur.
    destruct H2 as [prev'|prev' c rest' toks2 Hno H2'
                   |prev' tok' rest' toks2 Htok' H2'];
      [reflexivity|discriminate|].
    injection Ecur as -> E. apply token_at_nonempty in Htok'.
    apply app_eq_nil in E as [-> _]. congruence.
  - remember (prev, c :: rest) as cur eqn:Ecur.
    destruct H2 as [prev'|prev' c' rest' toks2 Hno' H2'
                   |prev' tok' rest' toks2 Htok' H2'];
      [discriminate| |].
    + injection Ecur as -> -> ->. now apply IH.
    + exfalso. exact (Hno _ _ Htok').
  - remember (prev, tok ++ rest) as cur eqn:Ecur.
    destruct H2 as [prev'|prev' c rest' toks2 Hno H2'
                   |prev' tok' rest' toks2 Htok' H2'].
    + injection Ecur as -> E. apply token_at_nonempty in Htok.
      symmetry in E. apply app_eq_nil in E as [-> _]. congruence.
    + exfalso. exact (Hno _ _ Htok).
    + destruct (token_unique _ _ _ _ _ Htok Htok') as [<- <-].
      injection Ecur as ->. f_equal. now apply IH.
Qed.

(** The resolver finds no token exactly when none stands in the text. *)
Lemma no_mentions_iff (text : str) :
  _extract_file_mentions text = [] <-> ~ token_in text.
Proof.
  pose proof (findall_from_mentions (S (length text)) (None, text)
                (Nat.lt_succ_diag_r _)) as Hm.
  fold (findall filename_pattern text) in Hm.
  fold (_extract_file_mentions text) in Hm. split.
  - intros Hnil (pre & tok & rest & Hs & Htok).
    exact (mentions_none _ _ Hm Hnil pre tok rest Hs Htok).
  - intros Hno. destruct (_extract_file_mentions text) as [|tok toks];
      [reflexivity|].
    exfalso. apply Hno. apply mentions_some in Hm as (pre & rest & Hs & Ht).
    now exists pre, tok, rest.
Qed.

End RegexFacts.

(** ** The resolver's rules *)

Section ResolverRules.
Import PyStr Scanner ScanSpec Regex Resolver ResolveSpec Run.

Lemma contains_occurs (sub s : str) :
  contains sub s = true <-> exists k, occurs_at sub s k.
Proof.
  unfold contains. destruct (find sub s 0) as [k|] eqn:E.
  - apply find_Some_1 in E as (_ & Hocc & _). split; eauto.
  - split; [discriminate|]. intros [k Hk].
    exfalso. exact (find_None_1 _ _ _ E k (Nat.le_0_l k) Hk).
Qed.

Lemma occurs_at_substr (sub s : str) (k : nat) :
  sub <> [] ->
  occurs_at sub s k <-> substr s k (k + length sub) = sub.
Proof.
  intros Hne. unfold occurs_at, substr.
  replace (k + length sub - k) with (length sub) by lia.
  rewrite startswith_spec. split.
  - intros [_ [t ->]]. apply take_app_length.
  - intros H. split.
    + destruct (Nat.le_gt_cases k (length s)) as [Hle|Hgt]; [exact Hle|].
      rewrite skipn_all2, firstn_nil in H by lia. congruence.
    + exists (skipn (length sub) (skipn k s)).
      rewrite <- H at 1. symmetry. apply firstn_skipn.
Qed.

Lemma substr_map (f : ascii -> ascii) (s : str) (a b : nat) :
  substr (map f s) a b = map f (substr s a b).
Proof. unfold substr. now rewrite skipn_map, firstn_map. Qed.

(** [sub in s.lower()]: some stretch of [s] reads [sub] once lowered. *)
Lemma contains_lower (sub s : str) :
  sub <> [] ->
  contains sub (lower s) = true <->
  exists k, lower (substr s k (k + length sub)) = sub.
Proof.
  intros Hne. rewrite contains_occurs. unfold lower.
  split; intros [k Hk]; exists k.
  - apply occurs_at_substr in Hk; [|exact Hne]. now rewrite <- substr_map.
  - apply occurs_at_substr; [exact Hne|]. now rewrite substr_map.
Qed.

Lemma mentions_readme_test (user_message : str) :
  contains (lit "readme") (lower user_message) = true
  <-> mentions_readme user_message.
Proof. apply (contains_lower (lit "readme")). discriminate. Qed.

(** C7.  For a block without a parser-extracted filename the resolver
    applies, in this order: (1) with exactly one block in the response and a
    filename-shaped token in the message, the first token; (2) for a
    markdown/md block and a token in the message, the first token; (3) for a
    markdown/md block and a message that mentions a readme in any case,
    [README.md]; (4) otherwise no filename, and the block is skipped: nothing
    is read, printed or proposed.  A block that has a filename keeps it.  The
    tokens are the matches of the filename pattern: each reads path segments
    of letters, digits, [_] and [-] separated by [/], then [.] and an
    alphanumeric extension, between two word boundaries; they are what a
    scan from left to right finds, and nothing else, in the order in which
    they stand in the message (so the list is empty exactly when no token
    stands in it), and a repeated name is returned once per occurrence. *)
Theorem resolver_rules :
  (forall (n_blocks : nat) (mentioned_files : list str) (user_message : str)
          (block : CodeBlock),
     filename block = None ->
     let resolved :=
       resolve_filename n_blocks mentioned_files user_message block in
     (forall first others,
        n_blocks = 1 -> mentioned_files = first :: others ->
        resolved = Some first)
     /\ (forall first others,
        is_markdown (language block) = true ->
        mentioned_files = first :: others ->
        resolved = Some first)
     /\ (is_markdown (language block) = true -> mentioned_files = [] ->
         mentions_readme user_message ->
         resolved = Some (lit "README.md"))
     /\ (n_blocks <> 1 \/ mentioned_files = [] ->
         is_markdown (language block) = false
         \/ (mentioned_files = [] /\ ~ mentions_readme user_message) ->
         resolved = None
         /\ forall (W : Type) (os : OS W) (project_path : path)
                   (s : Session W),
             Chat.propose_block project_path n_blocks mentioned_files
               user_message block s = (false, s)))
  /\ (forall (n_blocks : nat) (mentioned_files : list str)
             (user_message : str) (block : CodeBlock) (name : str),
        filename block = Some name -> name <> [] ->
        resolve_filename n_blocks mentioned_files user_message block
        = Some name)
  /\ (forall text, mentions (None, text) (_extract_file_mentions text))
  /\ (forall text toks,
        mentions (None, text) toks -> toks = _extract_file_mentions text)
  /\ (forall text, _extract_file_mentions text = [] <-> ~ token_in text)
  /\ _extract_file_mentions (lit "Create main.py, test main.py and src/app.js")
     = [lit "main.py"; lit "main.py"; lit "src/app.js"].
Proof.
  split; [|split; [|split; [|split; [|split]]]].
  - intros n_blocks mentioned_files user_message block Hnone resolved.
    subst resolved. unfold resolve_filename. rewrite Hnone.
    repeat split.
    + intros first others -> ->. cbn [no_filename andb Nat.eqb].
      now destruct (negb (truthy first) && is_markdown (language block)).
    + intros first others Hmd ->. rewrite Hmd. cbn [no_filename andb].
      destruct (n_blocks =? 1); cbn [no_filename];
        [destruct (truthy first)|]; reflexivity.
    + intros Hmd -> Hreadme. apply mentions_readme_test in Hreadme.
      cbn [no_filename andb]. now rewrite Hmd, Hreadme.
    + assert (Hres : match mentioned_files with
                     | first :: _ =>
                         if no_filename None && (n_blocks =? 1)
                         then Some first else None
                     | [] => None
                     end = None).
      { destruct mentioned_files as [|first others]; [reflexivity|].
        destruct H as [Hn|Hm]; [|discriminate].
        apply Nat.eqb_neq in Hn. now rewrite Hn. }
      rewrite Hres. cbn [no_filename andb].
      destruct H0 as [Hmd|[-> Hreadme]].
      * now rewrite Hmd.
      * destruct (is_markdown (language block)); [|reflexivity].
        destruct (contains (lit "readme") (lower user_message)) eqn:E;
          [|reflexivity].
        apply mentions_readme_test in E. contradiction.
    + intros W os project_path s. unfold Chat.propose_block.
      assert (Hres : resolve_filename n_blocks mentioned_files user_message
                       block = None); [|now rewrite Hres].
      unfold resolve_filename. rewrite Hnone.
      destruct mentioned_files as [|first others].
      * cbn [no_filename andb].
        destruct H0 as [Hmd|[_ Hreadme]]; [now rewrite Hmd|].
        destruct (is_markdown (language block)); [|reflexivity].
        destruct (contains (lit "readme") (lower user_message)) eqn:E;
          [|reflexivity].
        apply mentions_readme_test in E. contradiction.
      * destruct H as [Hn|Hm]; [|discriminate].
        apply Nat.eqb_neq in Hn. rewrite Hn. cbn [no_filename andb].
        destruct H0 as [Hmd|[Hm _]]; [now rewrite Hmd|discriminate].
  - intros n_blocks mentioned_files user_message block name Hname Hne.
    unfold resolve_filename. rewrite Hname.
    assert (Hno : no_filename (Some name) = false)
      by (destruct name; [congruence|reflexivity]).
    rewrite Hno. cbn [andb]. destruct mentioned_files; cbn [andb];
      now rewrite Hno.
  - intros text. apply findall_from_mentions. simpl. lia.
  - intros text toks Hm. apply (mentions_unique (None, text)); [exact Hm|].
    apply findall_from_mentions. simpl. lia.
  - apply no_mentions_iff.
  - vm_compute. reflexivity.
Qed.

(** The rows of [test_extract_file_mentions]. *)
Example extract_file_mentions_rows :
  _extract_file_mentions (lit "Please update the README.md file")
  = [lit "README.md"]
  /\ _extract_file_mentions (lit "Create main.py and helper.py files")
     = [lit "main.py"; lit "helper.py"]
  /\ _extract_file_mentions (lit "Edit src/app.js") = [lit "src/app.js"]
  /\ _extract_file_mentions (lit "Update the configuration.json")
     = [lit "configuration.json"].
Proof. repeat split; vm_compute; reflexivity. Qed.

End ResolverRules.
(** ** What the operations add to the trace *)

Section Emits.
Import PyStr Scanner Run ApplySpec.
Context {W : Type} `{OS W}.

Lemma emits_ret {A : Type} (P : event -> Prop) (a : A) :
  emits (W := W) P (ret a).
Proof.
  intros s. split; [reflexivity|]. exists []. split; [|constructor].
  simpl. now rewrite app_nil_r.
Qed.

Lemma emits_bind {A B : Type} (P : event -> Prop) (m : M W A)
  (k : A -> M W B) :
  emits P m -> (forall a, emits P (k a)) -> emits P (bind m k).
Proof.
  intros Hm Hk s. unfold bind. destruct (Hm s) as (Hp & evs & Ht & Hf).
  destruct (m s) as [a s1]. simpl in *.
  destruct (Hk a s1) as (Hp' & evs' & Ht' & Hf').
  split; [congruence|]. exists (evs ++ evs'). split.
  - rewrite Ht', Ht. now rewrite app_assoc.
  - apply Forall_app. now split.
Qed.

Lemma emits_emit (P : event -> Prop) (e : event) :
  P e -> emits (W := W) P (emit e).
Proof.
  intros He s. split; [reflexivity|]. exists [e]. split; [reflexivity|].
  now constructor.
Qed.

Lemma emits_ask {A : Type} (P : event -> Prop) (f : W -> A)
  (log : A -> event) :
  (forall a, P (log a)) -> emits P (ask f log).
Proof.
  intros He s. split; [reflexivity|]. exists [log (f (world s))].
  split; [reflexivity|]. now constructor.
Qed.

Lemma emits_act {A : Type} (P : event -> Prop) (f : W -> W * A)
  (log : A -> event) :
  (forall a, P (log a)) -> emits P (act f log).
Proof.
  intros He s. unfold act. destruct (f (world s)) as [w a].
  split; [reflexivity|]. exists [log a]. split; [reflexivity|].
  now constructor.
Qed.

Lemma emits_if {A : Type} (P : event -> Prop) (b : bool) (m1 m2 : M W A) :
  emits P m1 -> emits P m2 -> emits P (if b then m1 else m2).
Proof. now destruct b. Qed.

End Emits.

Create HintDb emits.
#[local] Hint Resolve emits_ret emits_emit emits_ask emits_act emits_if
  : emits.
#[local] Hint Extern 2 (ApplySpec.emits _ (Run.bind _ _)) =>
  apply emits_bind; [|intros ?] : emits.
#[local] Hint Extern 1 (ApplySpec.silent _) => reflexivity : emits.
#[local] Hint Extern 1 (ApplySpec.no_backup _) => reflexivity : emits.
#[local] Hint Extern 3 (ApplySpec.emits _ (match ?x with _ => _ end)) =>
  destruct x : emits.

Section EditorEmits.
Import PyStr Scanner Run ApplySpec.
Context {W : Type} `{OS W}.
Variable project_path : path.

Lemma put_emits (P : event -> Prop) (target : path) (content : str)
  (on_error : message) :
  (forall ok, P (CallMkdir (Path.parent target) ok)) ->
  (forall ok, P (CallWrite target content ok)) ->
  P (Print on_error) ->
  emits P (FileEditor.put target content on_error).
Proof. intros H1 H2 H3. unfold FileEditor.put. auto 10 with emits. Qed.

Lemma create_backup_silent (target : path) :
  emits silent (FileEditor._create_backup project_path target).
Proof. unfold FileEditor._create_backup. auto 15 with emits. Qed.

Lemma write_file_silent (relative_path content : str) (create_backup : bool) :
  emits silent
    (FileEditor.write_file project_path relative_path content create_backup).
Proof.
  unfold FileEditor.write_file.
  apply emits_bind; [|intros _; apply put_emits; reflexivity].
  pose proof create_backup_silent. auto 15 with emits.
Qed.

Lemma create_file_silent (relative_path content : str) :
  emits silent (FileEditor.create_file project_path relative_path content).
Proof.
  unfold FileEditor.create_file.
  apply emits_bind; [auto with emits|]. intros present.
  apply emits_if; [auto 10 with emits|]. apply put_emits; reflexivity.
Qed.

Lemma read_file_silent (relative_path : str) :
  emits silent (FileEditor.read_file project_path relative_path).
Proof. unfold FileEditor.read_file. auto 15 with emits. Qed.

(** Writing with no backup requested, and creating, involve no backup. *)
Lemma write_file_plain_no_backup (relative_path content : str) :
  emits no_backup
    (FileEditor.write_file project_path relative_path content false).
Proof.
  unfold FileEditor.write_file.
  apply emits_bind; [auto with emits|]. intros _.
  apply put_emits; reflexivity.
Qed.

Lemma create_file_no_backup (relative_path content : str) :
  emits no_backup
    (FileEditor.create_file project_path relative_path content).
Proof.
  unfold FileEditor.create_file.
  apply emits_bind; [auto with emits|]. intros present.
  apply emits_if; [auto 10 with emits|]. apply put_emits; reflexivity.
Qed.

End EditorEmits.
(** ** The proposal queue and the change applier *)

Section ApplyFacts.
Import PyStr Scanner Run ApplySpec.
Context {W : Type} `{OS W}.
Variable project_path : path.

Lemma outcomes_app (evs1 evs2 : list event) :
  outcomes (evs1 ++ evs2) = outcomes evs1 ++ outcomes evs2.
Proof.
  induction evs1 as [|e evs1 IH]; [reflexivity|]. simpl.
  destruct (outcome_of e); simpl; now rewrite IH.
Qed.

Lemma outcomes_silent (evs : list event) :
  Forall silent evs -> outcomes evs = [].
Proof.
  induction 1 as [|e evs He _ IH]; [reflexivity|]. simpl.
  unfold silent in He. now rewrite He.
Qed.

Lemma apply_proposal_finish (proposal : Proposal) (s : Session W) :
  Chat.apply_proposal project_path proposal s
  = finish proposal (edit project_path proposal s).
Proof.
  unfold Chat.apply_proposal, finish, edit, bind.
  destruct (negb (truthy (current_content proposal)));
    match goal with
    | |- context [let (_, _) := ?m in _] => destruct m as [[|] s1]
    end; reflexivity.
Qed.

Lemma edit_silent (proposal : Proposal) :
  emits silent (edit project_path proposal).
Proof.
  unfold edit.
  pose proof (create_file_silent project_path).
  pose proof (write_file_silent project_path).
  auto 10 with emits.
Qed.

Lemma apply_proposal_outcome (proposal : Proposal) (s : Session W) :
  let r := Chat.apply_proposal project_path proposal s in
  pending_proposals (snd r) = pending_proposals s
  /\ exists evs, trace (snd r) = trace s ++ evs
                 /\ outcomes evs = [(file_path proposal, fst r)].
Proof.
  cbv zeta. rewrite apply_proposal_finish.
  destruct (edit_silent proposal s) as (Hp & evs & Ht & Hs).
  unfold finish. destruct (edit project_path proposal s) as [[|] s1]; simpl in *;
    (split; [exact Hp|]); eexists; rewrite Ht, <- app_assoc;
    (split; [reflexivity|]); rewrite outcomes_app, (outcomes_silent _ Hs);
    reflexivity.
Qed.

Lemma succeeded_in_app (os1 os2 : list (str * bool)) :
  succeeded_in (os1 ++ os2) = succeeded_in os1 ++ succeeded_in os2.
Proof. unfold succeeded_in. now rewrite List.filter_app, map_app. Qed.

Lemma failed_in_app (os1 os2 : list (str * bool)) :
  failed_in (os1 ++ os2) = failed_in os1 ++ failed_in os2.
Proof. unfold failed_in. now rewrite List.filter_app, map_app. Qed.

Lemma apply_all_outcomes (proposals : list Proposal)
  (successful failed : list str) (s : Session W) :
  let r := Chat.apply_all project_path proposals successful failed s in
  pending_proposals (snd r) = pending_proposals s
  /\ exists evs,
       trace (snd r) = trace s ++ evs
       /\ map fst (outcomes evs) = map file_path proposals
       /\ fst (fst r) = successful ++ succeeded_in (outcomes evs)
       /\ snd (fst r) = failed ++ failed_in (outcomes evs).
Proof.
  revert successful failed s.
  induction proposals as [|p ps IH]; intros successful failed s; cbv zeta.
  - simpl. split; [reflexivity|]. exists [].
    rewrite !app_nil_r. now repeat split.
  - cbn [Chat.apply_all]. unfold bind.
    destruct (apply_proposal_outcome p s) as (Hp & evs & Ht & Ho).
    destruct (Chat.apply_proposal project_path p s) as [ok s1].
    cbn [fst snd] in *.
    destruct ok;
      [specialize (IH (successful ++ [file_path p]) failed s1)
      |specialize (IH successful (failed ++ [file_path p]) s1)];
      cbv zeta in IH; destruct IH as (Hp' & evs' & Ht' & Hm & Hs & Hf);
      (split; [congruence|]); exists (evs ++ evs');
      rewrite Ht', Ht, <- app_assoc, outcomes_app, Ho,
        succeeded_in_app, failed_in_app, Hs, Hf; cbn;
      rewrite Hm, <- ?app_assoc; now repeat split.
Qed.

(** The loop over a queue in two parts is the loop over the first part,
    then the loop over the second from where the first ended. *)
Lemma apply_all_app (first second : list Proposal)
  (successful failed : list str) (s : Session W) :
  Chat.apply_all project_path (first ++ second) successful failed s
  = let r := Chat.apply_all project_path first successful failed s in
    Chat.apply_all project_path second (fst (fst r)) (snd (fst r)) (snd r).
Proof.
  revert successful failed s.
  induction first as [|p ps IH]; intros successful failed s; [reflexivity|].
  cbn [app Chat.apply_all]. unfold bind.
  destruct (Chat.apply_proposal project_path p s) as [[|] s1]; apply IH.
Qed.

Lemma outcome_lengths (os : list (str * bool)) :
  length (succeeded_in os) + length (failed_in os) = length os.
Proof.
  unfold succeeded_in, failed_in. rewrite !length_map.
  induction os as [|[t [|]] os IH]; simpl; lia.
Qed.

End ApplyFacts.

Section ApplyTheorems.
Import PyStr Scanner Validator Resolver Run ApplySpec.
Context {W : Type} `{OS W}.
Variable project_path : path.

(** A proposal with empty [current_content] is first tried with
    [create_file]; this fails when the file already exists, and on failure
    the proposal falls back on [write_file] without backup, which involves
    no backup at all. *)
Lemma apply_new_file_steps (proposal : Proposal) (s0 : Session W) :
  current_content proposal = [] ->
  let target :=
    Path.join project_path (Path.of_str (file_path proposal)) in
  let create :=
    FileEditor.create_file project_path (file_path proposal)
      (new_content proposal) in
  let overwrite :=
    FileEditor.write_file project_path (file_path proposal)
      (new_content proposal) false in
  Chat.apply_proposal project_path proposal s0
  = finish proposal
      (if fst (create s0) then (true, snd (create s0))
       else overwrite (snd (create s0)))
  /\ (path_exists target (world s0) = true ->
      create s0
      = (false, logged s0 [CallExists target true;
                           Print (MsgExistsError (file_path proposal))]))
  /\ emits no_backup overwrite.
Proof.
  intros Hnew. cbv zeta. split; [|split].
  - rewrite apply_proposal_finish. unfold edit, bind. rewrite Hnew. simpl.
    destruct (FileEditor.create_file _ _ _ s0) as [[|] s1]; reflexivity.
  - intros Hex. unfold FileEditor.create_file, bind, ask, emit, ret, logged.
    rewrite Hex. simpl. now rewrite <- app_assoc.
  - apply write_file_plain_no_backup.
Qed.

(** [approve_proposal] on a queue that is not empty is the loop, followed
    by the commit and the summary lines; it answers true exactly when some
    path succeeded. *)
Lemma approve_after_loop (s : Session W) :
  pending_proposals s <> [] ->
  let run := Chat.apply_all project_path (pending_proposals s) [] [] s in
  exists tail,
    trace (snd (Chat.approve_proposal project_path s))
    = trace (snd run) ++ tail
    /\ outcomes tail = []
    /\ fst (Chat.approve_proposal project_path s)
       = negb (Chat.is_empty (fst (fst run))).
Proof.
  cbv zeta.
  intros Hq. unfold Chat.approve_proposal, bind, get_pending.
  destruct (pending_proposals s) as [|p ps] eqn:Eq; [congruence|].
  cbn [Chat.is_empty].
  destruct (Chat.apply_all project_path (p :: ps) [] [] s)
    as [[successful failed] s1].
  cbn [fst snd]. destruct successful as [|x successful]; cbn [Chat.is_empty].
  + eexists. unfold set_pending, emit, ret. cbn.
    split; [reflexivity|]. split; reflexivity.
  + unfold act, set_pending, emit, ret. cbn.
    destruct (commit_changes _ _ (world s1)) as [w ok]. cbn.
    destruct failed; cbn; eexists; rewrite <- ?app_assoc;
      (split; [reflexivity|]); split; reflexivity.
Qed.

(** C9.  After [approve_proposal], and after [reject_proposal], the queue of
    pending proposals is empty; rejecting with an empty queue only prints
    the line that there is nothing to reject, and changes nothing else. *)
Theorem queue_empty_after_decision (s : Session W) :
  pending_proposals (snd (Chat.approve_proposal project_path s)) = []
  /\ pending_proposals (snd (Chat.reject_proposal s)) = []
  /\ (pending_proposals s = [] ->
      Chat.reject_proposal s = (tt, logged s [Print MsgNothingToReject])).
Proof.
  split; [|split].
  - unfold Chat.approve_proposal, bind, get_pending.
    destruct (pending_proposals s) as [|p ps] eqn:Hq; [simpl; exact Hq|].
    cbn [Chat.is_empty].
    destruct (Chat.apply_all project_path (p :: ps) [] [] s)
      as [[successful failed] s1].
    cbn [fst snd]. destruct successful as [|x successful]; cbn [Chat.is_empty].
    + reflexivity.
    + unfold act, set_pending, emit, ret. cbn.
      destruct (commit_changes _ _ (world s1)) as [w ok]. cbn.
      destruct failed; reflexivity.
  - unfold Chat.reject_proposal, bind, get_pending.
    destruct (pending_proposals s) as [|p ps] eqn:Hq; [simpl; exact Hq|].
    cbn [Chat.is_empty]. unfold emit. cbn [fst snd].
    match goal with
    | |- context [Chat.print_rejected ?l ?s0] =>
        destruct (Chat.print_rejected l s0) as [[] s1]
    end.
    reflexivity.
  - intros Hq. unfold Chat.reject_proposal, bind, get_pending.
    now rewrite Hq.
Qed.

End ApplyTheorems.
(** ** Paths and time stamps *)

Section PathFacts.
Import PyStr Scanner ApplySpec.

Lemma strip_prefix_app (base rest : list str) :
  Path.strip_prefix base (base ++ rest) = Some rest.
Proof.
  induction base as [|b base IH]; [reflexivity|]. simpl.
  replace (eqb b b) with true by (symmetry; now apply eqb_eq). exact IH.
Qed.

Lemma relative_to_join (project rel : path) :
  absolute rel = false ->
  Path.relative_to (Path.join project rel) project = Some rel.
Proof.
  intros Hrel. unfold Path.relative_to, Path.join. rewrite Hrel. simpl.
  rewrite Bool.eqb_reflx, strip_prefix_app.
  destruct rel as [a p]. simpl in Hrel. now subst a.
Qed.

Lemma split_no_sep (sep : ascii) (s : str) :
  ~ In sep s -> split sep s = [s].
Proof.
  induction s as [|c s IH]; intros Hin; [reflexivity|]. simpl.
  destruct (Ascii.eqb c sep) eqn:E.
  - apply Ascii.eqb_eq in E. subst c. exfalso. apply Hin. now left.
  - rewrite IH; [reflexivity|]. intros Hs. apply Hin. now right.
Qed.

Lemma split_part_no_sep (sep : ascii) (s part : str) :
  In part (split sep s) -> ~ In sep part.
Proof.
  revert part. induction s as [|c s IH]; intros part Hin; simpl in Hin.
  - destruct Hin as [<-|[]]. intros [].
  - destruct (Ascii.eqb c sep) eqn:E.
    + destruct Hin as [<-|Hin]; [intros []|now apply IH].
    + pose proof (split_nonempty sep s) as Hne.
      destruct (split sep s) as [|l ls]; [congruence|].
      destruct Hin as [<-|Hin].
      * intros [->|Hl]; [now rewrite Ascii.eqb_refl in E|].
        revert Hl. apply IH. now left.
      * apply IH. now right.
Qed.

Lemma last_default_or_in {A : Type} (l : list A) (d : A) :
  List.last l d = d \/ In (List.last l d) l.
Proof.
  induction l as [|x l IH]; [now left|].
  destruct l as [|y l]; [right; simpl; now left|].
  change (List.last (x :: y :: l) d) with (List.last (y :: l) d).
  destruct IH as [IH|IH]; [left|right; right]; exact IH.
Qed.

Lemma name_no_slash (p : path) :
  Forall (fun part => ~ In slash part) (parts p) ->
  ~ In slash (Path.name p).
Proof.
  intros Hall. unfold Path.name.
  destruct (last_default_or_in (parts p) []) as [->|Hin]; [intros []|].
  rewrite List.Forall_forall in Hall. now apply Hall.
Qed.

Lemma of_str_parts_no_slash (s : str) :
  Forall (fun part => ~ In slash part) (parts (Path.of_str s)).
Proof.
  apply List.Forall_forall. intros part Hin. unfold Path.of_str in Hin.
  cbn [parts] in Hin. apply filter_In in Hin as [Hin _].
  exact (split_part_no_sep slash s part Hin).
Qed.

Lemma of_str_single (s : str) :
  ~ In slash s -> 2 <= length s ->
  Path.of_str s = {| absolute := false; parts := [s] |}.
Proof.
  intros Hin Hlen. unfold Path.of_str. rewrite split_no_sep by exact Hin.
  f_equal.
  - destruct s as [|c s]; [reflexivity|]. cbn [startswith].
    destruct (Ascii.eqb slash c) eqn:E; [|reflexivity].
    apply Ascii.eqb_eq in E. subst c. exfalso. apply Hin. now left.
  - destruct s as [|c [|c' s]]; simpl in Hlen; try lia.
    cbn [List.filter truthy andb].
    replace (eqb (c :: c' :: s) [dot]) with false; [reflexivity|].
    symmetry. apply eqb_neq. discriminate.
Qed.

Lemma digit_is_digit (d : N) : is_digit (Clock.digit d) = true.
Proof.
  unfold Clock.digit. pose proof (N.mod_lt d 10 ltac:(discriminate)) as Hlt.
  revert Hlt. generalize (d mod 10)%N. intros x Hlt.
  assert (Hx : (x = 0 \/ x = 1 \/ x = 2 \/ x = 3 \/ x = 4 \/ x = 5 \/ x = 6
                \/ x = 7 \/ x = 8 \/ x = 9)%N) by lia.
  repeat destruct Hx as [Hx|Hx]; subst x; reflexivity.
Qed.

Lemma zpad_length (width : nat) (n : N) : length (Clock.zpad width n) = width.
Proof.
  revert n. induction width as [|w IH]; intros n; [reflexivity|].
  simpl. rewrite length_app, IH. simpl. lia.
Qed.

Lemma zpad_digits (width : nat) (n : N) :
  Forall (fun c => is_digit c = true) (Clock.zpad width n).
Proof.
  revert n. induction width as [|w IH]; intros n; [constructor|].
  simpl. apply Forall_app. split; [apply IH|].
  constructor; [apply digit_is_digit|constructor].
Qed.

Lemma strftime_shaped (dt : datetime) : timestamp_shaped (Clock.strftime dt).
Proof.
  exists (Clock.zpad 4 (year dt) ++ Clock.zpad 2 (month dt)
          ++ Clock.zpad 2 (day dt)),
    (Clock.zpad 2 (hour dt) ++ Clock.zpad 2 (minute dt)
     ++ Clock.zpad 2 (second dt)),
    (Clock.zpad 6 (microsecond dt)).
  split; [|split; [|split; [|split]]].
  - unfold Clock.strftime. now rewrite <- !app_assoc.
  - now rewrite !length_app, !zpad_length.
  - now rewrite !length_app, !zpad_length.
  - apply zpad_length.
  - rewrite <- !app_assoc.
    do 6 (apply Forall_app; split; [apply zpad_digits|]). apply zpad_digits.
Qed.

Lemma timestamp_no_slash (ts : str) : timestamp_shaped ts -> ~ In slash ts.
Proof.
  intros (date & time & micro & -> & _ & _ & _ & Hd) Hin.
  apply Forall_app in Hd as [Hd Hd']. apply Forall_app in Hd' as [Ht Hm].
  rewrite List.Forall_forall in Hd, Ht, Hm.
  repeat (apply in_app_or in Hin as [Hin|Hin]).
  - apply Hd in Hin. discriminate.
  - destruct Hin as [Hin|[]]. discriminate.
  - apply Ht in Hin. discriminate.
  - destruct Hin as [Hin|[]]. discriminate.
  - apply Hm in Hin. discriminate.
Qed.

Lemma value_snoc (digits : str) (c : ascii) :
  value (digits ++ [c]) = (10 * value digits + (N_of_ascii c - 48))%N.
Proof. unfold value. now rewrite fold_left_app. Qed.

Lemma digit_value (d : N) : (N_of_ascii (Clock.digit d) - 48 = d mod 10)%N.
Proof.
  unfold Clock.digit. pose proof (N.mod_lt d 10 ltac:(discriminate)) as Hlt.
  revert Hlt. generalize (d mod 10)%N. intros x Hx.
  rewrite N_ascii_embedding; lia.
Qed.

Lemma zpad_value (width : nat) (n : N) :
  (n < 10 ^ N.of_nat width)%N -> value (Clock.zpad width n) = n.
Proof.
  revert n. induction width as [|w IH]; intros n Hn.
  - change (10 ^ N.of_nat 0)%N with 1%N in Hn.
    assert (n = 0%N) as -> by lia. reflexivity.
  - cbn [Clock.zpad]. rewrite value_snoc, digit_value, IH.
    + symmetry. apply N.div_mod. discriminate.
    + rewrite Nat2N.inj_succ, N.pow_succ_r' in Hn.
      apply N.Div0.div_lt_upper_bound. exact Hn.
Qed.

Lemma substr_drop (a s : str) (i j n : nat) :
  length a = n -> n <= i ->
  substr (a ++ s) i j = substr s (i - n) (j - n).
Proof.
  intros <- Hi. unfold substr.
  rewrite skipn_app, skipn_all2 by exact Hi. simpl. f_equal. lia.
Qed.

Lemma substr_head (a s : str) (j : nat) :
  length a = j -> substr (a ++ s) 0 j = a.
Proof. intros <-. now apply substr_prefix. Qed.

Lemma substr_all (a : str) (j : nat) : length a = j -> substr a 0 j = a.
Proof.
  intros <-. rewrite <- (app_nil_r a) at 1. now apply substr_prefix.
Qed.

(** Reads one column of a text written as a concatenation of pieces of
    known length. *)
Ltac column :=
  lazymatch goal with
  | |- substr (_ ++ _) 0 _ = _ =>
      apply substr_head; first [apply zpad_length | reflexivity]
  | |- substr (Clock.zpad ?w _ ++ _) _ _ = _ =>
      rewrite (substr_drop _ _ _ _ w) by first [apply zpad_length | cbn; lia];
      cbn [Nat.sub]; column
  | |- substr ([_] ++ _) _ _ = _ =>
      rewrite (substr_drop _ _ _ _ 1) by first [reflexivity | cbn; lia];
      cbn [Nat.sub]; column
  | |- substr _ 0 _ = _ => apply substr_all, zpad_length
  end.

(** The time stamp of a valid moment reads back as that moment. *)
Lemma strftime_read_back (dt : datetime) :
  Clock.valid dt -> read_timestamp (Clock.strftime dt) = dt.
Proof.
  intros (Hy & Hm & Hd & Hh & Hmi & Hs & Hu).
  unfold read_timestamp, Clock.strftime.
  replace (substr _ 0 4) with (Clock.zpad 4 (year dt))
    by (symmetry; column).
  replace (substr _ 4 6) with (Clock.zpad 2 (month dt))
    by (symmetry; column).
  replace (substr _ 6 8) with (Clock.zpad 2 (day dt))
    by (symmetry; column).
  replace (substr _ 9 11) with (Clock.zpad 2 (hour dt))
    by (symmetry; column).
  replace (substr _ 11 13) with (Clock.zpad 2 (minute dt))
    by (symmetry; column).
  replace (substr _ 13 15) with (Clock.zpad 2 (second dt))
    by (symmetry; column).
  replace (substr _ 16 22) with (Clock.zpad 6 (microsecond dt))
    by (symmetry; column).
  rewrite !zpad_value by (cbn; lia).
  now destruct dt.
Qed.

(** Where a backup goes: below the backup directory of the project, in the
    directory the file has below the project root, under the file's name
    followed by the time stamp and [.bak]. *)
Lemma backup_path_parts (project rel : path) (ts : str) :
  absolute rel = false ->
  Forall (fun part => ~ In slash part) (parts rel) ->
  timestamp_shaped ts ->
  FileEditor.backup_path project rel ts
  = {| absolute := absolute project;
       parts := parts project ++ [lit ".code_assistant_backups"]
                ++ removelast (parts rel)
                ++ [Path.name rel ++ [dot] ++ ts ++ lit ".bak"] |}.
Proof.
  intros Hrel Hparts Hts.
  unfold FileEditor.backup_path, FileEditor.backup_subdir,
    FileEditor.backup_dir, FileEditor.backup_name.
  rewrite (of_str_single (Path.name rel ++ [dot] ++ ts ++ lit ".bak")).
  - unfold Path.join, Path.parent. simpl. rewrite Hrel. simpl.
    now rewrite <- !app_assoc.
  - intros Hin. apply in_app_or in Hin as [Hin|Hin];
      [exact (name_no_slash rel Hparts Hin)|].
    apply in_app_or in Hin as [Hin|Hin];
      [destruct Hin as [Hin|[]]; discriminate|].
    apply in_app_or in Hin as [Hin|Hin];
      [exact (timestamp_no_slash ts Hts Hin)|].
    simpl in Hin. repeat destruct Hin as [Hin|Hin]; try discriminate Hin.
    exact Hin.
  - rewrite !length_app. simpl. lia.
Qed.

End PathFacts.
(** ** From blocks to proposals *)

Section ProposeFacts.
Import PyStr Scanner Validator Resolver Run ApplySpec.
Context {W : Type} `{OS W}.
Variable project_path : path.

Lemma truthy_nonempty (s : str) : truthy s = true <-> s <> [].
Proof. destruct s; simpl; split; congruence. Qed.

Lemma get_file_content_pending (relative_path : str) (s : Session W) :
  pending_proposals (snd (Chat.get_file_content project_path relative_path s))
  = pending_proposals s.
Proof. apply (read_file_silent project_path relative_path s). Qed.

(** With a resolved, valid filename and some content, the loop body reads
    the file and proposes the change. *)
Lemma propose_block_valid (n_blocks : nat) (mentioned_files : list str)
  (user_message : str) (block : CodeBlock) (name : str) (s : Session W) :
  resolve_filename n_blocks mentioned_files user_message block = Some name ->
  name <> [] -> code block <> [] ->
  _is_valid_filename name = true ->
  Chat.propose_block project_path n_blocks mentioned_files user_message
    block s
  = (let* existing_content := Chat.get_file_content project_path name in
     let* _ :=
       (if truthy existing_content then
          Chat.propose_change name
            (lit "Update " ++ name ++ lit " with new code")
            existing_content (code block)
        else
          Chat.propose_change name (lit "Create new file " ++ name) []
            (code block)) in
     ret true) s.
Proof.
  intros Hres Hname Hcode Hvalid.
  apply truthy_nonempty in Hname. apply truthy_nonempty in Hcode.
  unfold Chat.propose_block. now rewrite Hres, Hname, Hcode, Hvalid.
Qed.

Lemma propose_change_pending (target description current new : str)
  (s : Session W) :
  pending_proposals
    (snd (Chat.propose_change target description current new s))
  = pending_proposals s
    ++ [ {| file_path := target; description := description;
            current_content := current; new_content := new |} ].
Proof. reflexivity. Qed.

(** C3, amended.  For a block whose filename is resolved and passes
    validation, a proposal is pushed at the end of the queue when the block's
    content is not empty: it carries the filename, the content that was read
    for that file as [current_content] and the block's content as
    [new_content].  For a block whose content is empty nothing is pushed,
    read or printed. *)
Theorem propose_block_pushes (n_blocks : nat) (mentioned_files : list str)
  (user_message : str) (block : CodeBlock) (name : str) (s : Session W) :
  resolve_filename n_blocks mentioned_files user_message block = Some name ->
  name <> [] ->
  _is_valid_filename name = true ->
  let read := Chat.get_file_content project_path name s in
  let r := Chat.propose_block project_path n_blocks mentioned_files
             user_message block s in
  (code block <> [] ->
   fst r = true
   /\ pending_proposals (snd r)
      = pending_proposals s
        ++ [ {| file_path := name;
                description :=
                  if truthy (fst read)
                  then lit "Update " ++ name ++ lit " with new code"
                  else lit "Create new file " ++ name;
                current_content := fst read;
                new_content := code block |} ])
  /\ (code block = [] -> r = (false, s)).
Proof.
  intros Hres Hname Hvalid read r. subst read r. split.
  - intros Hcode.
    rewrite (propose_block_valid _ _ _ _ _ s Hres Hname Hcode Hvalid).
    unfold bind.
    pose proof (get_file_content_pending name s) as Hp.
    destruct (Chat.get_file_content project_path name s) as [existing s1].
    cbn [fst snd] in *.
    destruct existing as [|c existing]; cbn [truthy];
      match goal with
      | |- context [Chat.propose_change ?t ?d ?c ?n s1] =>
          pose proof (propose_change_pending t d c n s1) as Hq;
          destruct (Chat.propose_change t d c n s1) as [[] s2]
      end; cbn [fst snd ret] in *; rewrite Hq, Hp; split; reflexivity.
  - intros Hcode. apply truthy_nonempty in Hname.
    unfold Chat.propose_block. rewrite Hres, Hname, Hcode. reflexivity.
Qed.

End ProposeFacts.

Section ProposeCases.
Import PyStr Scanner Validator Resolver Run ApplySpec MemFS Cases.

(** C3, as the specification words it, fails: the empty fence pair yields a
    block with empty content, the resolver names it [main.py] after the
    user's message and the name passes validation, yet no proposal is
    pushed. *)
Lemma empty_block_not_proposed :
  parse_code_blocks empty_pair_response
  = Some [ {| language := lit "python"; code := []; filename := None |} ]
  /\ resolve_filename 1 (_extract_file_mentions empty_pair_message)
       empty_pair_message
       {| language := lit "python"; code := []; filename := None |}
     = Some (lit "main.py")
  /\ _is_valid_filename (lit "main.py") = true
  /\ Chat.auto_create_files proj empty_pair_response empty_pair_message
       (start empty_fs)
     = (Some 0, start empty_fs).
Proof. repeat split; vm_compute; reflexivity. Qed.

(** A block with content, named by its comment, in an empty project. *)
Lemma propose_block_pushes_witness :
  pending_proposals
    (snd (Chat.propose_block proj 1 [] (lit "hello")
            {| language := lit "python"; code := lit "print(1)";
               filename := Some (lit "main.py") |} (start empty_fs)))
  = [ {| file_path := lit "main.py";
         description := lit "Create new file main.py";
         current_content := []; new_content := lit "print(1)" |} ].
Proof.
  destruct (propose_block_pushes proj 1 [] (lit "hello")
              {| language := lit "python"; code := lit "print(1)";
                 filename := Some (lit "main.py") |} (lit "main.py")
              (start empty_fs) eq_refl ltac:(discriminate) eq_refl)
    as [Hpush _].
  destruct (Hpush ltac:(discriminate)) as [_ Hq]. exact Hq.
Defined.

End ProposeCases.
(** ** Updates, backups and the creation path *)

Section BackupTheorems.
Import PyStr Scanner Validator Resolver Run ApplySpec.
Context {W : Type} `{OS W}.
Variable project_path : path.

(** C4, amended.  An update proposal (non-empty [current_content]) is
    applied by [write_file] with a backup requested.  When the file does not
    exist at that moment nothing is backed up and the file is just written.
    When it exists, the backup is attempted first and the overwrite follows
    whatever the attempt gave.  For a file below the project root the backup,
    when its directory can be made and the copy succeeds, is the copy of the
    file to [<project>/.code_assistant_backups/<relative directory>/<file
    name>.<YYYYMMDD_HHMMSS_microseconds>.bak], where the time stamp writes
    the moment of the backup and reads back as it. *)
Theorem update_backup_then_overwrite (proposal : Proposal) (s : Session W) :
  current_content proposal <> [] ->
  let rel := Path.of_str (file_path proposal) in
  let target := Path.join project_path rel in
  let overwrite :=
    FileEditor.put target (new_content proposal)
      (MsgWriteError (file_path proposal)) in
  let write :=
    FileEditor.write_file project_path (file_path proposal)
      (new_content proposal) true in
  Chat.apply_proposal project_path proposal s = finish proposal (write s)
  /\ (path_exists target (world s) = false ->
      write s = overwrite (logged s [CallExists target false]))
  /\ (path_exists target (world s) = true ->
      let backup :=
        FileEditor._create_backup project_path target
          (logged s [CallExists target true]) in
      write s
      = overwrite
          match fst backup with
          | Some saved => logged (snd backup) [Print (MsgBackupCreated saved)]
          | None => snd backup
          end)
  /\ (absolute rel = false ->
      forall s0 : Session W,
        let dt := now (world s0) in
        let saved :=
          FileEditor.backup_path project_path rel (Clock.strftime dt) in
        let subdir := FileEditor.backup_subdir project_path rel in
        let made := mkdir_parents subdir (world s0) in
        let copied := copy2 target saved (fst made) in
        (snd made = true -> snd copied = true ->
         FileEditor._create_backup project_path target s0
         = (Some saved,
            {| world := fst copied;
               trace := trace s0 ++ [CallNow dt; CallMkdir subdir true;
                                     CallCopy target saved true];
               pending_proposals := pending_proposals s0 |}))
        /\ saved
           = {| absolute := absolute project_path;
                parts := parts project_path
                         ++ [lit ".code_assistant_backups"]
                         ++ removelast (parts rel)
                         ++ [Path.name rel ++ [dot] ++ Clock.strftime dt
                             ++ lit ".bak"] |}
        /\ timestamp_shaped (Clock.strftime dt)
        /\ (Clock.valid dt -> read_timestamp (Clock.strftime dt) = dt)).
Proof.
  intros Hupdate rel target overwrite write.
  split; [|split; [|split]].
  - rewrite apply_proposal_finish. unfold edit.
    apply truthy_nonempty in Hupdate. now rewrite Hupdate.
  - intros Hex. subst write overwrite. unfold FileEditor.write_file.
    fold rel. fold target. unfold bind at 1. unfold bind at 1.
    unfold ask at 1. rewrite Hex. reflexivity.
  - intros Hex backup. subst write overwrite.
    unfold FileEditor.write_file.
    fold rel. fold target. unfold bind at 1. unfold bind at 1.
    unfold ask at 1. rewrite Hex. unfold bind at 1.
    fold (logged s [CallExists target true]). fold backup.
    destruct backup as [[saved|] s1]; reflexivity.
  - intros Hrel s0 dt saved subdir made copied. split; [|split; [|split]].
    + intros Hmade Hcopied. unfold FileEditor._create_backup.
      unfold target. rewrite (relative_to_join project_path rel Hrel).
      fold target. unfold bind, ask, act. cbn [world trace pending_proposals].
      fold dt. fold subdir. fold made.
      destruct made as [w1 ok1] eqn:Em. cbn [fst snd] in *. subst ok1.
      cbn [world trace pending_proposals]. fold saved.
      change (copy2 target saved w1) with copied.
      destruct copied as [w2 ok2] eqn:Ec. cbn [fst snd] in *. subst ok2.
      unfold ret. cbn. now rewrite <- !app_assoc.
    + apply backup_path_parts; [exact Hrel| |apply strftime_shaped].
      apply of_str_parts_no_slash.
    + apply strftime_shaped.
    + apply strftime_read_back.
Qed.

End BackupTheorems.

Section CreationPath.
Import PyStr Scanner Validator Resolver Run ApplySpec.
Context {W : Type} `{OS W}.
Variable project_path : path.

Lemma read_file_error (relative_path : str) (s : Session W) :
  read_utf8 (Path.join project_path (Path.of_str relative_path)) (world s)
  = ReadError ->
  fst (FileEditor.read_file project_path relative_path s) = [].
Proof.
  intros Herr. unfold FileEditor.read_file, bind, ask. cbn [world].
  now rewrite Herr.
Qed.

Lemma read_file_undecodable (relative_path : str) (s : Session W) :
  let target := Path.join project_path (Path.of_str relative_path) in
  read_utf8 target (world s) = ReadDecodeError ->
  read_latin1 target (world s) = None ->
  fst (FileEditor.read_file project_path relative_path s) = [].
Proof.
  intros target H1 H2. unfold FileEditor.read_file, bind, ask.
  cbn [world]. fold target. rewrite H1. cbn [world]. now rewrite H2.
Qed.

Lemma read_file_ok (relative_path content : str) (s : Session W) :
  read_utf8 (Path.join project_path (Path.of_str relative_path)) (world s)
  = ReadOk content ->
  fst (FileEditor.read_file project_path relative_path s) = content.
Proof.
  intros Hok. unfold FileEditor.read_file, bind, ask. cbn [world].
  now rewrite Hok.
Qed.

Lemma apply_new_no_backup (proposal : Proposal) :
  current_content proposal = [] ->
  emits no_backup (Chat.apply_proposal project_path proposal).
Proof.
  intros Hnew. unfold Chat.apply_proposal. rewrite Hnew. cbn [truthy negb].
  pose proof (create_file_no_backup project_path).
  pose proof (write_file_plain_no_backup project_path).
  auto 10 with emits.
Qed.

(** C10.  A block that targets a file whose read yields the empty string
    (an empty file; or an unreadable one, since read errors yield the empty
    string too) is proposed with [current_content] empty, as a creation.
    Such a proposal is applied through [create_file]; with the file present
    this fails, and the applier goes on to write the file with no backup
    requested: the parent directory is made and the file written, and
    whatever the world is like, applying the proposal involves no backup. *)
Theorem empty_read_applied_without_backup (n_blocks : nat)
  (mentioned_files : list str) (user_message : str) (block : CodeBlock)
  (name : str) (s : Session W) :
  resolve_filename n_blocks mentioned_files user_message block = Some name ->
  name <> [] -> code block <> [] ->
  _is_valid_filename name = true ->
  fst (Chat.get_file_content project_path name s) = [] ->
  let proposal :=
    {| file_path := name; description := lit "Create new file " ++ name;
       current_content := []; new_content := code block |} in
  let target := Path.join project_path (Path.of_str name) in
  let r := Chat.propose_block project_path n_blocks mentioned_files
             user_message block s in
  (fst r = true
   /\ pending_proposals (snd r) = pending_proposals s ++ [proposal])
  /\ (forall s0 : Session W,
        path_exists target (world s0) = true ->
        FileEditor.create_file project_path name (code block) s0
        = (false, logged s0 [CallExists target true;
                             Print (MsgExistsError name)])
        /\ Chat.apply_proposal project_path proposal s0
           = finish proposal
               (FileEditor.put target (code block) (MsgWriteError name)
                  (logged s0 [CallExists target true;
                              Print (MsgExistsError name)])))
  /\ emits no_backup (Chat.apply_proposal project_path proposal)
  /\ (forall s0 : Session W,
        read_utf8 target (world s0) = ReadError
        \/ read_utf8 target (world s0) = ReadOk []
        \/ (read_utf8 target (world s0) = ReadDecodeError
            /\ read_latin1 target (world s0) = None) ->
        fst (Chat.get_file_content project_path name s0) = []).
Proof.
  intros Hres Hname Hcode Hvalid Hread proposal target r.
  split; [|split; [|split]].
  - subst r.
    rewrite (propose_block_valid project_path _ _ _ _ _ s Hres Hname Hcode
               Hvalid).
    unfold bind.
    pose proof (get_file_content_pending project_path name s) as Hp.
    destruct (Chat.get_file_content project_path name s) as [existing s1].
    cbn [fst snd] in *. subst existing. cbn [truthy].
    pose proof (propose_change_pending name (lit "Create new file " ++ name)
                  [] (code block) s1) as Hq.
    destruct (Chat.propose_change name _ [] (code block) s1) as [[] s2].
    cbn [fst snd ret] in *. rewrite Hq, Hp. split; reflexivity.
  - intros s0 Hex.
    assert (Hcreate :
      FileEditor.create_file project_path name (code block) s0
      = (false, logged s0 [CallExists target true;
                           Print (MsgExistsError name)])).
    { unfold FileEditor.create_file, bind, ask, emit, ret, logged.
      fold target. rewrite Hex. cbn. now rewrite <- app_assoc. }
    split; [exact Hcreate|].
    rewrite apply_proposal_finish. unfold edit, bind. cbn [proposal
      current_content truthy negb file_path new_content].
    rewrite Hcreate. reflexivity.
  - now apply apply_new_no_backup.
  - intros s0 [Herr|[Hok|[Hdec Hlat]]]; unfold Chat.get_file_content.
    + now apply read_file_error.
    + now apply read_file_ok.
    + now apply read_file_undecodable.
Qed.

End CreationPath.

Section BackupCases.
Import PyStr Scanner Validator Resolver Run ApplySpec MemFS Cases.

(** C4, as the specification words it, fails.  An update proposed for
    [app.py] is applied after the file has gone: nothing is backed up, the
    file is written.  An update of [/etc/app.conf], a file that exists but
    lies outside the project, is applied too: the backup attempt fails, no
    copy is made, and the file is overwritten all the same. *)
Lemma update_applied_without_backup :
  current_content vanished_update <> []
  /\ Chat.apply_proposal proj vanished_update (start empty_fs)
     = (true,
        {| world := with_files empty_fs
                      {[ [lit "proj"; lit "app.py"] := lit "new" ]};
           trace :=
             [CallExists (mkPath true [lit "proj"; lit "app.py"]) false;
              CallMkdir (mkPath true [lit "proj"]) true;
              CallWrite (mkPath true [lit "proj"; lit "app.py"]) (lit "new")
                true;
              Print (MsgApplied false (lit "app.py"))];
           pending_proposals := [] |})
  /\ current_content outside_update <> []
  /\ path_exists (mkPath true [lit "etc"; lit "app.conf"]) outside_world
     = true
  /\ Chat.apply_proposal proj outside_update (start outside_world)
     = (true,
        {| world := with_files empty_fs
                      {[ [lit "etc"; lit "app.conf"] := lit "new" ]};
           trace :=
             [CallExists (mkPath true [lit "etc"; lit "app.conf"]) true;
              Print (MsgBackupError (mkPath true [lit "etc"; lit "app.conf"]));
              CallMkdir (mkPath true [lit "etc"]) true;
              CallWrite (mkPath true [lit "etc"; lit "app.conf"]) (lit "new")
                true;
              Print (MsgApplied false (lit "/etc/app.conf"))];
           pending_proposals := [] |}).
Proof.
  split; [discriminate|]. split; [vm_compute; reflexivity|].
  split; [discriminate|]. split; vm_compute; reflexivity.
Qed.

(** The update of [src/app.py] in a project that holds it: the old content
    is copied to the backup, then the file holds the new content. *)
Lemma update_backup_then_overwrite_witness :
  let s' := snd (Chat.apply_proposal proj inside_update (start inside_world)) in
  Chat.apply_proposal proj inside_update (start inside_world)
  = finish inside_update
      (FileEditor.write_file proj (lit "src/app.py") (lit "new") true
         (start inside_world))
  /\ files (world s') !! [lit "proj"; lit ".code_assistant_backups";
                          lit "src"; lit "app.py.20240309_120007_123456.bak"]
     = Some (lit "old")
  /\ content_of (lit "src/app.py") (world s') = Some (lit "new").
Proof.
  split.
  - apply (update_backup_then_overwrite proj inside_update
             (start inside_world)). discriminate.
  - split; vm_compute; reflexivity.
Defined.

(** The block for [notes.md], a file that is empty on disk: proposed as a
    creation, applied by a plain write, with no backup. *)
Lemma empty_read_applied_without_backup_witness :
  let r := Chat.propose_block proj 1 [] (lit "update the notes") notes_block
             (start empty_file_world) in
  (fst r = true
   /\ pending_proposals (snd r)
      = [ {| file_path := lit "notes.md";
             description := lit "Create new file notes.md";
             current_content := []; new_content := lit "# Notes" |} ])
  /\ existsb is_backup_event
       (trace (snd (Chat.approve_proposal proj (snd r)))) = false
  /\ map_to_list (files (world (snd (Chat.approve_proposal proj (snd r)))))
     = [([lit "proj"; lit "notes.md"], lit "# Notes")].
Proof.
  split.
  - apply (empty_read_applied_without_backup proj 1 [] (lit "update the notes")
             notes_block (lit "notes.md") (start empty_file_world));
      try reflexivity; discriminate.
  - split; vm_compute; reflexivity.
Defined.

(** Best effort: the first of two creations cannot be written and is
    recorded as failed; the second is applied all the same. *)
Example failure_does_not_abort :
  let r := Chat.apply_all proj two_creations [] [] (start locked_world) in
  fst r = ([lit "b.py"], [lit "a.py"])
  /\ outcomes (trace (snd r)) = [(lit "a.py", false); (lit "b.py", true)]
  /\ map_to_list (files (world (snd r)))
     = [([lit "proj"; lit "b.py"], lit "b = 2")].
Proof. repeat split; vm_compute; reflexivity. Qed.

(** The end-to-end scenario of the specification: one block naming
    [main.py] in an empty project, proposed and then approved. *)
Example end_to_end_main_py :
  let response :=
    text_of_lines ["```python"; "# main.py"; "print(1)"; "```"] in
  let proposed := Chat.auto_create_files proj response [] (start empty_fs) in
  let approved := Chat.approve_proposal proj (snd proposed) in
  fst proposed = Some 1
  /\ pending_proposals (snd proposed)
     = [ {| file_path := lit "main.py";
            description := lit "Create new file main.py";
            current_content := []; new_content := lit "print(1)" |} ]
  /\ fst approved = true
  /\ pending_proposals (snd approved) = []
  /\ content_of (lit "main.py") (world (snd approved)) = Some (lit "print(1)")
  /\ commits (world (snd approved))
     = [(lit "Applied changes to 1 file(s)", [lit "main.py"])].
Proof. repeat split; vm_compute; reflexivity. Qed.

End BackupCases.

(** ** Invariants of the scanned blocks *)

Section TrimFacts.
Import PyStr BlockSpec.

Lemma lstrip_by_head (p : ascii -> bool) (s : str) :
  lstrip_by p s = [] \/ exists c t, lstrip_by p s = c :: t /\ p c = false.
Proof.
  induction s as [|c s IH]; [now left|]. simpl.
  destruct (p c) eqn:E; [exact IH|]. right. eauto.
Qed.

Lemma lstrip_by_fixed (p : ascii -> bool) (c : ascii) (t : str) :
  p c = false -> lstrip_by p (c :: t) = c :: t.
Proof. intros E. simpl. now rewrite E. Qed.

Lemma lstrip_by_idem (p : ascii -> bool) (s : str) :
  lstrip_by p (lstrip_by p s) = lstrip_by p s.
Proof.
  destruct (lstrip_by_head p s) as [->|(c & t & -> & E)]; [reflexivity|].
  now apply lstrip_by_fixed.
Qed.

Lemma rstrip_by_idem (p : ascii -> bool) (s : str) :
  rstrip_by p (rstrip_by p s) = rstrip_by p s.
Proof.
  unfold rstrip_by. rewrite rev_involutive. now rewrite lstrip_by_idem.
Qed.

(** Trimming the right end leaves a left end that is already trimmed as it
    is. *)
Lemma lstrip_rstrip (p : ascii -> bool) (s : str) :
  lstrip_by p s = s -> lstrip_by p (rstrip_by p s) = rstrip_by p s.
Proof.
  intros Hs. destruct s as [|c t]; [reflexivity|].
  assert (Hc : p c = false).
  { simpl in Hs. destruct (p c) eqn:E; [|reflexivity].
    pose proof (lstrip_by_length p t) as Hl. rewrite Hs in Hl.
    simpl in Hl. lia. }
  unfold rstrip_by. simpl rev.
  destruct (lstrip_by_head p (rev t ++ [c])) as [E0|(d & u & E1 & Hd)].
  - rewrite E0. reflexivity.
  - assert (Hsuffix : exists pre, rev t ++ [c] = pre ++ d :: u).
    { clear -E1. revert E1. generalize (rev t ++ [c]). intros l.
      induction l as [|x l IH]; simpl; [discriminate|].
      destruct (p x).
      - intros E. destruct (IH E) as [pre ->]. now exists (x :: pre).
      - intros E. exists []. exact E. }
    destruct Hsuffix as [pre Hpre].
    rewrite E1.
    assert (Hrev : rev (d :: u) = c :: rev (removelast (d :: u))
                   \/ (u = [] /\ d = c)).
    { destruct (exists_last (l := d :: u) ltac:(discriminate)) as (u' & z & Hz).
      rewrite Hz in Hpre. rewrite app_assoc in Hpre.
      apply app_inj_tail in Hpre as [_ <-].
      left. rewrite Hz. rewrite rev_unit, removelast_last. reflexivity. }
    destruct Hrev as [->|[-> ->]]; [|simpl; now rewrite Hc].
    simpl. now rewrite Hc.
Qed.

Lemma strip_trimmed (s : str) : trimmed (strip s).
Proof.
  unfold trimmed, strip.
  rewrite (lstrip_rstrip isspace (lstrip_by isspace s))
    by apply lstrip_by_idem.
  apply rstrip_by_idem.
Qed.

Lemma lstrip_by_incl (p : ascii -> bool) (s : str) (c : ascii) :
  In c (lstrip_by p s) -> In c s.
Proof.
  induction s as [|x s IH]; simpl; [tauto|].
  destruct (p x); [intros H; right; now apply IH|exact (fun H => H)].
Qed.

Lemma rstrip_by_incl (p : ascii -> bool) (s : str) (c : ascii) :
  In c (rstrip_by p s) -> In c s.
Proof.
  unfold rstrip_by. intros H. apply in_rev in H.
  apply lstrip_by_incl in H. now apply in_rev.
Qed.

Lemma strip_incl (s : str) (c : ascii) : In c (strip s) -> In c s.
Proof.
  unfold strip. intros H. apply rstrip_by_incl in H.
  now apply lstrip_by_incl in H.
Qed.

End TrimFacts.

Section BlockInvariants.
Import PyStr Scanner ScanSpec BlockSpec.

Lemma language_of_named (tag : str) :
  language_of tag <> [] /\ trimmed (language_of tag).
Proof.
  unfold language_of. destruct (truthy (strip tag)) eqn:E.
  - split; [now apply truthy_nonempty|apply strip_trimmed].
  - split; [discriminate|reflexivity].
Qed.

(** What [lift_filename] lifts is one trimmed line with a [.] or a [/]. *)
Lemma lift_filename_shape (code f kept : str) :
  lift_filename code = (Some f, kept) ->
  trimmed f /\ ~ In nlc f /\ (In dot f \/ In slash f).
Proof.
  unfold lift_filename.
  destruct (split nlc code) as [|line0 rest] eqn:Es; [discriminate|].
  destruct (startswith [hash] (strip line0) && _); [|discriminate].
  destruct (has slash _ || has dot _) eqn:Eh; [|discriminate].
  intros H. injection H as <- _. split; [apply strip_trimmed|]. split.
  - intros Hin. apply strip_incl in Hin. unfold lstrip in Hin.
    apply lstrip_by_incl in Hin. apply strip_incl in Hin.
    apply (split_part_no_sep nlc code line0); [|exact Hin].
    rewrite Es. now left.
  - apply orb_true_iff in Eh as [E|E]; apply has_In in E; tauto.
Qed.

Lemma md_block_well_formed (tag body : str) :
  well_formed (md_block (language_of tag) body).
Proof.
  destruct (language_of_named tag) as [Hn Ht].
  split; cbn [language code filename md_block];
    [exact Hn|exact Ht|apply strip_trimmed|reflexivity|discriminate].
Qed.

Lemma plain_block_well_formed (tag text : str) (content_start : nat) :
  is_markdown (language_of tag) = false ->
  well_formed (plain_block (language_of tag) text content_start).
Proof.
  intros Hmd. destruct (language_of_named tag) as [Hn Ht].
  unfold plain_block.
  destruct (lift_filename (fst (plain_body text content_start)))
    as [lifted kept] eqn:El.
  split; cbn [language code filename];
    [exact Hn|exact Ht|apply strip_trimmed|congruence|].
  intros f ->. exact (lift_filename_shape _ _ _ El).
Qed.

Lemma parse_loop_well_formed (fuel : nat) (text : str) (i : nat)
  (acc blocks : list CodeBlock) :
  Forall well_formed acc ->
  parse_loop fuel text i acc = Some blocks ->
  Forall well_formed blocks.
Proof.
  revert i acc. induction fuel as [|fuel IH]; intros i acc Hacc;
    [discriminate|].
  cbn [parse_loop]. destruct (i <? length text); [|congruence].
  destruct (eqb (substr text i (i + 3)) fence); [|now apply IH].
  destruct (find nl text i) as [line_end|]; [|congruence].
  destruct (is_markdown _) eqn:Emd.
  - destruct (md_scan _ text _ _ _) as [j| |]; [| |discriminate].
    + apply IH. apply Forall_app. split; [exact Hacc|].
      constructor; [apply md_block_well_formed|constructor].
    + intros H. injection H as <-. apply Forall_app. split; [exact Hacc|].
      constructor; [apply md_block_well_formed|constructor].
  - apply IH. apply Forall_app. split; [exact Hacc|].
    constructor; [now apply plain_block_well_formed|constructor].
Qed.

(** Whatever the text, every block the scan returns has a language that is
    not empty, language and content without whitespace at their ends, no
    filename if its language is markdown or md, and otherwise, if it has a
    filename, one that is a single trimmed line with a [.] or a [/] in
    it. *)
Theorem scanned_blocks_well_formed (text : str) :
  exists blocks,
    parse_code_blocks text = Some blocks /\ Forall well_formed blocks.
Proof.
  destruct (parse_loop_total (S (length text)) text 0 [] ltac:(lia) ltac:(lia))
    as [blocks Hb].
  exists blocks. split; [exact Hb|].
  exact (parse_loop_well_formed _ _ _ _ _ (List.Forall_nil _) Hb).
Qed.

End BlockInvariants.

Section NoBlocks.
Import PyStr Scanner ScanSpec.

Lemma occurs_fence_substr (s : str) (k : nat) :
  occurs_at fence s k -> substr s k (k + 3) = fence /\ k + 3 <= length s.
Proof.
  intros [Hlen Hocc]. apply startswith_spec in Hocc as [t Ht].
  unfold substr. replace (k + 3 - k) with 3 by lia. rewrite Ht.
  split; [reflexivity|].
  assert (Hl : length (skipn k s) = length (fence ++ t)) by now rewrite Ht.
  rewrite length_skipn, length_app in Hl. simpl in Hl. lia.
Qed.

(** Where no fence starts the scan moves on character by character. *)
Lemma parse_loop_skip (n fuel : nat) (text : str) (i : nat)
  (acc : list CodeBlock) :
  i + n <= length text ->
  (forall k, i <= k -> k < i + n -> ~ occurs_at fence text k) ->
  parse_loop (n + fuel) text i acc = parse_loop fuel text (i + n) acc.
Proof.
  revert i. induction n as [|n IH]; intros i Hlen Hfree.
  - simpl. now rewrite Nat.add_0_r.
  - cbn [Nat.add parse_loop].
    destruct (i <? length text) eqn:Ei; [|apply Nat.ltb_ge in Ei; lia].
    destruct (eqb (substr text i (i + 3)) fence) eqn:Ef.
    + apply eqb_eq, substr_fence_occurs in Ef.
      exfalso. apply (Hfree i); [lia|lia|exact Ef].
    + rewrite IH; [f_equal; lia|lia|].
      intros k Hk1 Hk2. apply Hfree; lia.
Qed.

Lemma parse_loop_grows (fuel : nat) (text : str) (i : nat)
  (acc blocks : list CodeBlock) :
  parse_loop fuel text i acc = Some blocks -> exists more, blocks = acc ++ more.
Proof.
  rewrite parse_loop_acc.
  destruct (parse_loop fuel text i []) as [more|]; [|discriminate].
  intros H. injection H as <-. now exists more.
Qed.

(** The scan returns no block exactly when the text holds no fence at all,
    or when no newline follows its first fence: the scan stops at an opening
    line that the text ends in. *)
Theorem no_block_iff (text : str) :
  parse_code_blocks text = Some []
  <-> (forall i, first_at fence text 0 i -> find nl text i = None).
Proof.
  unfold parse_code_blocks.
  destruct (find fence text 0) as [i|] eqn:Ef.
  - assert (Hfirst := Ef). apply first_at_find in Hfirst.
    destruct Hfirst as (_ & Hocc & Hmin).
    destruct (occurs_fence_substr text i Hocc) as [Hsub Hlen].
    replace (S (length text)) with (i + S (length text - i)) by lia.
    rewrite (parse_loop_skip i _ text 0 []); [|lia|].
    2:{ intros k Hk1 Hk2. apply Hmin; lia. }
    cbn [Nat.add parse_loop].
    destruct (i <? length text) eqn:Ei; [|apply Nat.ltb_ge in Ei; lia].
    apply eqb_eq in Hsub. rewrite Hsub.
    destruct (find nl text i) as [line_end|] eqn:El.
    + split.
      * intros H. exfalso.
        destruct (is_markdown _).
        -- destruct (md_scan _ text _ _ _) as [j| |]; [| |discriminate].
           ++ apply parse_loop_grows in H as [more H].
              destruct more; discriminate.
           ++ discriminate.
        -- apply parse_loop_grows in H as [more H].
           destruct more; discriminate.
      * intros H. specialize (H i ltac:(now apply first_at_find)).
        congruence.
    + split; [|reflexivity].
      intros _ i' H'. apply first_at_find in H'.
      rewrite Ef in H'. injection H' as <-. exact El.
  - split.
    + intros _ i H. apply first_at_find in H. congruence.
    + intros _. apply parse_loop_no_fence; [lia|lia|].
      now apply absent_from_find.
Qed.

End NoBlocks.

(** ** What [auto_create_files] queues *)

Section QueueFacts.
Import PyStr Scanner Validator Resolver Run ApplySpec BlockSpec QueueSpec.
Context {W : Type} `{OS W}.
Variable project_path : path.

Lemma get_file_content_world (relative_path : str) (s : Session W) :
  world (snd (Chat.get_file_content project_path relative_path s)) = world s.
Proof.
  unfold Chat.get_file_content, FileEditor.read_file, bind, ask, emit, ret.
  cbn [world].
  destruct (read_utf8 _ (world s)); cbn [world snd]; try reflexivity.
  destruct (read_latin1 _ (world s)); reflexivity.
Qed.

(** One block: the world stays as it is, and the queue grows by at most one
    proposal, which carries the block's content. *)
Lemma propose_block_effect (n_blocks : nat) (mentioned_files : list str)
  (user_message : str) (block : CodeBlock) (s : Session W) :
  trimmed (code block) ->
  let r :=
    Chat.propose_block project_path n_blocks mentioned_files user_message
      block s in
  world (snd r) = world s
  /\ ((fst r = false /\ pending_proposals (snd r) = pending_proposals s)
      \/ (fst r = true
          /\ exists p, pending_proposals (snd r) = pending_proposals s ++ [p]
                       /\ new_content p = code block /\ queued_ok p)).
Proof.
  intros Htrim r. subst r. unfold Chat.propose_block.
  destruct (resolve_filename _ _ _ block) as [name|];
    [|split; [reflexivity|left; split; reflexivity]].
  destruct (truthy name && truthy (code block)) eqn:Et;
    [|split; [reflexivity|left; split; reflexivity]].
  apply andb_true_iff in Et as [_ Hcode]. apply truthy_nonempty in Hcode.
  destruct (_is_valid_filename name) eqn:Ev;
    [|split; [reflexivity|left; split; reflexivity]].
  pose proof (get_file_content_world name s) as Hw.
  pose proof (get_file_content_pending project_path name s) as Hp.
  unfold Chat.propose_change, get_pending, set_pending, emit, ret, bind.
  destruct (Chat.get_file_content project_path name s) as [existing s1].
  cbn [snd] in Hw, Hp.
  destruct (truthy existing) eqn:Ee;
    cbn [fst snd world pending_proposals]; rewrite Hp.
  - split; [exact Hw|]. right. split; [reflexivity|]. eexists.
    split; [reflexivity|]. split; [reflexivity|].
    split; cbn [file_path new_content]; try assumption.
    right. split; [now apply truthy_nonempty|reflexivity].
  - split; [exact Hw|]. right. split; [reflexivity|]. eexists.
    split; [reflexivity|]. split; [reflexivity|].
    split; cbn [file_path new_content]; try assumption.
    left. split; reflexivity.
Qed.

Lemma propose_blocks_effect (n_blocks : nat) (mentioned_files : list str)
  (user_message : str) (blocks : list CodeBlock) (count : nat)
  (s : Session W) :
  Forall well_formed blocks ->
  let r :=
    Chat.propose_blocks project_path n_blocks mentioned_files user_message
      blocks count s in
  exists new,
    fst r = count + length new
    /\ pending_proposals (snd r) = pending_proposals s ++ new
    /\ world (snd r) = world s
    /\ sublist (map new_content new) (map code blocks)
    /\ Forall queued_ok new.
Proof.
  intros Hwf. revert count s.
  induction Hwf as [|block blocks Hb _ IH]; intros count s r; subst r.
  - exists []. cbn. rewrite app_nil_r. repeat split; try lia; constructor.
  - cbn [Chat.propose_blocks]. unfold bind.
    destruct (propose_block_effect n_blocks mentioned_files user_message
                block s (code_trimmed _ Hb)) as [Hw Hq].
    destruct (Chat.propose_block project_path n_blocks mentioned_files
                user_message block s) as [proposed s1].
    cbn [fst snd] in Hw, Hq.
    destruct Hq as [[-> Hp]|(-> & p & Hp & Hc & Hok)]; cbv beta iota.
    + destruct (IH count s1) as (new & Hn & Hpn & Hwn & Hsub & Hall).
      exists new. rewrite Hn, Hpn, Hwn, Hp, Hw.
      repeat split; try assumption. cbn [map]. now apply sublist_cons.
    + destruct (IH (count + 1) s1) as (new & Hn & Hpn & Hwn & Hsub & Hall).
      exists (p :: new). rewrite Hn, Hpn, Hwn, Hp, Hw.
      cbn [length map]. rewrite <- app_assoc. rewrite Hc.
      repeat split; try lia; try reflexivity.
      * now apply sublist_skip.
      * now constructor.
Qed.

(** The count [auto_create_files] returns is the number of proposals it
    has queued. *)
Lemma auto_create_files_count (response user_message : str)
  (s : Session W) :
  let r := Chat.auto_create_files project_path response user_message s in
  exists new,
    fst r = Some (length new)
    /\ pending_proposals (snd r) = pending_proposals s ++ new.
Proof.
  intros r. subst r. unfold Chat.auto_create_files.
  destruct (parse_loop_total (S (length response)) response 0 []
              ltac:(lia) ltac:(lia)) as [blocks Hb].
  pose proof (parse_loop_well_formed _ _ _ _ _ (List.Forall_nil _) Hb) as Hwf.
  fold (parse_code_blocks response) in Hb. rewrite Hb.
  destruct (propose_blocks_effect (length blocks)
              (_extract_file_mentions user_message) user_message blocks 0 s
              Hwf) as (new & Hn & Hp & _).
  exists new. unfold bind.
  destruct (Chat.propose_blocks _ _ _ _ blocks 0 s) as [k s1].
  cbn [fst snd] in *. subst k. split; [reflexivity|exact Hp].
Qed.

(** [auto_create_files] only reads: it leaves the file system as it is.  The
    number it returns is the number of proposals it has added at the end of
    the queue, at most one per scanned block and in the order of the blocks.
    Each added proposal has a filename that passes validation and the
    content of its block, which is not empty and carries no whitespace at
    its ends; it is described as an update when some current content was
    read for the file, and as a creation, with empty current content,
    otherwise. *)
Theorem auto_create_files_queues (response user_message : str)
  (s : Session W) :
  let r := Chat.auto_create_files project_path response user_message s in
  exists blocks new,
    parse_code_blocks response = Some blocks
    /\ fst r = Some (length new)
    /\ pending_proposals (snd r) = pending_proposals s ++ new
    /\ world (snd r) = world s
    /\ sublist (map new_content new) (map code blocks)
    /\ Forall queued_ok new.
Proof.
  intros r. subst r. unfold Chat.auto_create_files.
  destruct (parse_loop_total (S (length response)) response 0 []
              ltac:(lia) ltac:(lia)) as [blocks Hb].
  pose proof (parse_loop_well_formed _ _ _ _ _ (List.Forall_nil _) Hb) as Hwf.
  fold (parse_code_blocks response) in Hb. rewrite Hb.
  destruct (propose_blocks_effect (length blocks)
              (_extract_file_mentions user_message) user_message blocks 0 s
              Hwf) as (new & Hn & Hp & Hw & Hsub & Hall).
  exists blocks, new. unfold bind.
  destruct (Chat.propose_blocks _ _ _ _ blocks 0 s) as [k s1].
  cbn [fst snd] in *. subst k.
  repeat split; assumption.
Qed.

End QueueFacts.

(** ** Backups never share a path *)

Section BackupNames.
Import PyStr Scanner ApplySpec.

Lemma of_str_parts_nonempty (s : str) :
  Forall (fun part => part <> []) (parts (Path.of_str s)).
Proof.
  apply List.Forall_forall. intros part Hin. unfold Path.of_str in Hin.
  cbn [parts] in Hin. apply filter_In in Hin as [_ Ht].
  apply andb_true_iff in Ht as [Ht _]. now apply truthy_nonempty.
Qed.

Lemma strftime_length (dt : datetime) : length (Clock.strftime dt) = 22.
Proof.
  unfold Clock.strftime. rewrite !length_app, !zpad_length. reflexivity.
Qed.

Lemma last_in {A : Type} (l : list A) (d : A) :
  l <> [] -> In (List.last l d) l.
Proof.
  induction l as [|x l IH]; [congruence|]. intros _.
  destruct l as [|y l]; [now left|].
  right. apply IH. discriminate.
Qed.

(** A path without empty parts is given by its parent's parts and its
    name. *)
Lemma parts_by_name (p q : path) :
  Forall (fun part => part <> []) (parts p) ->
  Forall (fun part => part <> []) (parts q) ->
  removelast (parts p) = removelast (parts q) ->
  Path.name p = Path.name q ->
  parts p = parts q.
Proof.
  unfold Path.name. intros Hp Hq Hinit Hlast.
  rewrite List.Forall_forall in Hp, Hq.
  destruct (parts p) as [|x l] eqn:Ep, (parts q) as [|y k] eqn:Eq;
    [reflexivity| | |].
  - exfalso. apply (Hq []); [|reflexivity].
    change (List.last [] []) with (@nil ascii) in Hlast. rewrite Hlast.
    apply last_in. discriminate.
  - exfalso. apply (Hp []); [|reflexivity].
    change (List.last [] []) with (@nil ascii) in Hlast. rewrite <- Hlast.
    apply last_in. discriminate.
  - rewrite (app_removelast_last (l := x :: l) [] ltac:(discriminate)).
    rewrite (app_removelast_last (l := y :: k) [] ltac:(discriminate)).
    now rewrite Hinit, Hlast.
Qed.

(** Two backups have the same path only if they are backups of the same
    file taken at the same microsecond: for files named relative to the
    project and moments a clock can show, the backup path determines both
    the file and the moment. *)
Theorem backup_path_determines (project : path) (file1 file2 : str)
  (dt1 dt2 : datetime) :
  absolute (Path.of_str file1) = false ->
  absolute (Path.of_str file2) = false ->
  Clock.valid dt1 -> Clock.valid dt2 ->
  FileEditor.backup_path project (Path.of_str file1) (Clock.strftime dt1)
  = FileEditor.backup_path project (Path.of_str file2) (Clock.strftime dt2)
  <-> Path.of_str file1 = Path.of_str file2 /\ dt1 = dt2.
Proof.
  intros Ha1 Ha2 Hv1 Hv2. split; [|intros [E ->]; now rewrite E].
  rewrite !backup_path_parts;
    try assumption; try apply of_str_parts_no_slash;
    try apply strftime_shaped.
  intros Heq. apply (f_equal parts) in Heq. cbn [parts] in Heq.
  apply app_inv_head, app_inv_head, app_inj_tail in Heq as [Hinit Hlast].
  apply app_inj_2 in Hlast as [Hname Hts];
    [|now rewrite !length_app, !strftime_length].
  apply app_inv_head, app_inv_tail in Hts.
  split.
  - destruct (Path.of_str file1) as [a1 p1] eqn:E1,
             (Path.of_str file2) as [a2 p2] eqn:E2.
    cbn [absolute] in Ha1, Ha2. subst a1 a2. f_equal.
    change p1 with (parts {| absolute := false; parts := p1 |}).
    change p2 with (parts {| absolute := false; parts := p2 |}).
    apply parts_by_name; try assumption.
    + rewrite <- E1. apply of_str_parts_nonempty.
    + rewrite <- E2. apply of_str_parts_nonempty.
  - rewrite <- (strftime_read_back dt1 Hv1), <- (strftime_read_back dt2 Hv2).
    now rewrite Hts.
Qed.

End BackupNames.

Section BackupNamesWitness.
Import PyStr Scanner ApplySpec MemFS.

(** Two backups of [src/app.py], one microsecond apart. *)
Lemma backup_path_determines_witness :
  FileEditor.backup_path proj (Path.of_str (lit "src/app.py"))
    (Clock.strftime noon)
  = FileEditor.backup_path proj (Path.of_str (lit "src/app.py"))
      (Clock.strftime
         {| year := 2024; month := 3; day := 9; hour := 12; minute := 0;
            second := 7; microsecond := 123457 |})
  <-> Path.of_str (lit "src/app.py") = Path.of_str (lit "src/app.py")
      /\ noon
         = {| year := 2024; month := 3; day := 9; hour := 12; minute := 0;
              second := 7; microsecond := 123457 |}.
Proof.
  apply (backup_path_determines proj (lit "src/app.py") (lit "src/app.py")).
  - reflexivity.
  - reflexivity.
  - unfold Clock.valid, noon. cbn. lia.
  - unfold Clock.valid. cbn. lia.
Defined.

End BackupNamesWitness.

(** ** The file scanner: what a scan finds *)

Section EntryNames.
Import PyStr Scanner PathText FileScanner TreeSpec.

Lemma entry_name_path (name : str) :
  entry_name name ->
  Path.of_str name = {| absolute := false; parts := [name] |}.
Proof.
  intros (Hne & Hslash & Hdot & _). unfold Path.of_str.
  rewrite split_no_sep by exact Hslash. f_equal.
  - destruct name as [|c name]; [reflexivity|]. cbn [startswith].
    destruct (Ascii.eqb slash c) eqn:E; [|reflexivity].
    apply Ascii.eqb_eq in E. subst c. exfalso. apply Hslash. now left.
  - cbn [List.filter].
    apply truthy_nonempty in Hne. rewrite Hne.
    apply eqb_neq in Hdot. now rewrite Hdot.
Qed.

Lemma join_entry (root : path) (name : str) :
  entry_name name ->
  Path.join root (Path.of_str name)
  = {| absolute := absolute root; parts := parts root ++ [name] |}.
Proof. intros Hn. now rewrite (entry_name_path name Hn). Qed.

Lemma file_at_nil (root : path) (name : str) :
  entry_name name -> Path.join root (Path.of_str name) = file_at root [] name.
Proof. apply join_entry. Qed.

Lemma file_at_cons (root : path) (d : str) (chain : list str) (name : str) :
  entry_name d ->
  file_at (Path.join root (Path.of_str d)) chain name
  = file_at root (d :: chain) name.
Proof.
  intros Hd. rewrite (join_entry root d Hd). unfold file_at.
  cbn [absolute parts]. now rewrite <- app_assoc.
Qed.

Lemma name_file_at (root : path) (chain : list str) (name : str) :
  Path.name (file_at root chain name) = name.
Proof.
  unfold Path.name, file_at. cbn [parts].
  now rewrite !app_assoc, last_last.
Qed.

Lemma suffix_file_at (root : path) (chain : list str) (name : str) :
  suffix (file_at root chain name) = suffix_of_name name.
Proof. unfold suffix. now rewrite name_file_at. Qed.

End EntryNames.

Section ScanFinds.
Import PyStr Scanner PathText FileScanner TreeSpec.

Lemma scan_files_finds (root p : path) (files : list str) :
  Forall entry_name files ->
  In p (scan_files root files)
  <-> exists name, In name files /\ source_name name
                   /\ p = file_at root [] name.
Proof.
  induction 1 as [|file files Hf _ IH]; cbn [scan_files].
  - split; [intros []|intros (name & [] & _)].
  - rewrite (file_at_nil root file Hf), suffix_file_at.
    destruct (member (suffix_of_name file) SOURCE_EXTENSIONS) eqn:Es.
    + cbn [In]. rewrite IH. split.
      * intros [<-|(name & Hin & Hs & ->)].
        -- exists file. repeat split; [now left|exact Es].
        -- exists name. repeat split; [now right|exact Hs].
      * intros (name & [<-|Hin] & Hs & ->); [now left|].
        right. exists name. repeat split; assumption.
    + rewrite IH. split.
      * intros (name & Hin & Hs & ->).
        exists name. repeat split; [now right|exact Hs].
      * intros (name & [<-|Hin] & Hs & ->).
        -- unfold source_name in Hs. congruence.
        -- exists name. repeat split; assumption.
Qed.

Lemma walk_finds (t : tree) :
  forall root p,
    names_ok t ->
    In p (walk root t)
    <-> exists chain name,
          located t chain name /\ Forall kept chain /\ source_name name
          /\ p = file_at root chain name.
Proof.
  induction t using tree_forest_ind with
    (P0 := fun dirs =>
       forall root p,
         dirs_ok dirs ->
         In p (walk_dirs root dirs)
         <-> exists d sub chain name,
               child dirs d sub /\ kept d /\ located sub chain name
               /\ Forall kept chain /\ source_name name
               /\ p = file_at root (d :: chain) name).
  - (* a directory: its files, then its subdirectories *)
    intros root p [Hfiles Hdirs]. cbn [walk]. rewrite in_app_iff.
    rewrite (scan_files_finds root p files Hfiles), (IHt root p Hdirs).
    split.
    + intros [(name & Hin & Hs & ->)
             |(d & sub & chain & name & Hc & Hk & Hl & Hks & Hs & ->)].
      * exists [], name. repeat split; try assumption; [|constructor].
        now constructor.
      * exists (d :: chain), name. repeat split; try assumption.
        -- econstructor; eassumption.
        -- now constructor.
    + intros (chain & name & Hl & Hks & Hs & ->).
      inversion Hl as [? ? ? Hin|? ? d sub chain' ? Hc Hl']; subst.
      * left. exists name. repeat split; assumption.
      * right. exists d, sub, chain', name.
        inversion Hks; subst. repeat split; assumption.
  - (* no subdirectories *)
    intros root p _. cbn [walk_dirs]. split; [intros []|].
    intros (d & sub & chain & name & Hc & _). inversion Hc.
  - (* a subdirectory, then the others *)
    intros root p (Hd & Hsub & Hrest). cbn [walk_dirs]. rewrite in_app_iff.
    rewrite (IHt0 root p Hrest). split.
    + intros [Hin|(d & sub & chain & nm & Hc & Hk & Hl & Hks & Hs & ->)].
      * destruct (member name EXCLUDE_DIRS) eqn:Ex; [destruct Hin|].
        apply (IHt _ _ Hsub) in Hin
          as (chain & nm & Hl & Hks & Hs & ->).
        exists name, t, chain, nm. rewrite file_at_cons by exact Hd.
        repeat split; try assumption. constructor.
      * exists d, sub, chain, nm. repeat split; try assumption.
        now constructor.
    + intros (d & sub & chain & nm & Hc & Hk & Hl & Hks & Hs & ->).
      inversion Hc as [|? ? ? ? ? Hc']; subst.
      * left. unfold kept in Hk. rewrite Hk.
        apply (IHt _ _ Hsub). exists chain, nm.
        rewrite file_at_cons by exact Hd. repeat split; assumption.
      * right. exists d, sub, chain, nm. repeat split; assumption.
Qed.

(** A scan finds exactly the files whose name has one of the source
    extensions and that lie below the project directory in a chain of
    subdirectories none of which has, letter for letter, one of the excluded
    names.  The project directory itself is scanned whatever its name is,
    and it is the suffix of the file name alone that decides. *)
Theorem scan_finds_sources (project_path : path) (t : tree) (p : path) :
  names_ok t ->
  In p (fst (scan_directory project_path t))
  <-> exists chain name,
        located t chain name /\ Forall kept chain /\ source_name name
        /\ p = file_at project_path chain name.
Proof. intros Hok. cbn [scan_directory fst]. now apply walk_finds. Qed.

End ScanFinds.

Section ScanCases.
Import PyStr Scanner PathText FileScanner TreeSpec TreeCases MemFS.

Ltac entry_names :=
  repeat match goal with
         | |- _ /\ _ => split
         | |- Forall _ _ => constructor
         | |- True => exact I
         | |- _ <> _ => discriminate
         | |- ~ In _ _ =>
             let H := fresh in
             intros H; cbn in H;
             repeat (destruct H as [H|H]; [discriminate H|]); exact H
         end.

Lemma sample_tree_ok : names_ok sample_tree.
Proof. cbn. unfold entry_name. entry_names. Qed.

(** In the sample tree the file below [pkg.egg-info] is found: the excluded
    name [*.egg-info] is compared as it stands. *)
Lemma scan_finds_sources_witness :
  In {| absolute := true;
        parts := [lit "proj"; lit "pkg.egg-info"; lit "meta.json"] |}
    (fst (scan_directory proj sample_tree))
  <-> exists chain name,
        located sample_tree chain name /\ Forall kept chain
        /\ source_name name
        /\ {| absolute := true;
              parts := [lit "proj"; lit "pkg.egg-info"; lit "meta.json"] |}
           = file_at proj chain name.
Proof. apply (scan_finds_sources proj sample_tree), sample_tree_ok. Defined.

(** What the scan of the sample tree finds: neither the file without a
    source extension, nor the dot file, nor what lies below [node_modules],
    nor the backup. *)
Example scan_sample_tree :
  map to_str (fst (scan_directory proj sample_tree))
  = [lit "/proj/main.py"; lit "/proj/src/app.py";
     lit "/proj/pkg.egg-info/meta.json"]
  /\ get_file_list proj (fst (scan_directory proj sample_tree))
     = [lit "main.py"; lit "pkg.egg-info/meta.json"; lit "src/app.py"].
Proof. split; vm_compute; reflexivity. Qed.

End ScanCases.

(** ** The file list: ascending, and the same however directories list
    their entries *)

Section StrOrder.
Import PyStr PathText.

Lemma str_leb_refl (a : str) : str_leb a a = true.
Proof.
  induction a as [|x a IH]; [reflexivity|]. cbn [str_leb].
  now rewrite Nat.ltb_irrefl.
Qed.

Lemma str_leb_total (a b : str) : str_leb a b = false -> str_leb b a = true.
Proof.
  revert b. induction a as [|x a IH]; intros [|y b]; cbn [str_leb];
    try congruence.
  destruct (nat_of_ascii x <? nat_of_ascii y) eqn:E1; [discriminate|].
  destruct (nat_of_ascii y <? nat_of_ascii x) eqn:E2; [reflexivity|].
  apply IH.
Qed.

Lemma str_leb_antisym (a b : str) :
  str_leb a b = true -> str_leb b a = true -> a = b.
Proof.
  revert b. induction a as [|x a IH]; intros [|y b]; cbn [str_leb];
    try congruence.
  destruct (nat_of_ascii x <? nat_of_ascii y) eqn:E1;
    destruct (nat_of_ascii y <? nat_of_ascii x) eqn:E2; try discriminate.
  - apply Nat.ltb_lt in E1, E2. lia.
  - intros H1 H2. apply Nat.ltb_ge in E1, E2.
    assert (Hxy : nat_of_ascii x = nat_of_ascii y) by lia.
    rewrite <- (ascii_nat_embedding x), <- (ascii_nat_embedding y), Hxy.
    f_equal. now apply IH.
Qed.

Lemma str_leb_trans (a b c : str) :
  str_leb a b = true -> str_leb b c = true -> str_leb a c = true.
Proof.
  revert b c. induction a as [|x a IH]; intros [|y b] [|z c];
    cbn [str_leb]; try congruence.
  destruct (nat_of_ascii x <? nat_of_ascii y) eqn:E1;
    destruct (nat_of_ascii y <? nat_of_ascii z) eqn:E2;
    destruct (nat_of_ascii x <? nat_of_ascii z) eqn:E3;
    destruct (nat_of_ascii y <? nat_of_ascii x) eqn:E4;
    destruct (nat_of_ascii z <? nat_of_ascii y) eqn:E5;
    destruct (nat_of_ascii z <? nat_of_ascii x) eqn:E6;
    try congruence;
    repeat match goal with
           | H : (_ <? _) = true |- _ => apply Nat.ltb_lt in H
           | H : (_ <? _) = false |- _ => apply Nat.ltb_ge in H
           end; try lia.
  apply IH.
Qed.

Lemma insert_sorted_comm (x y : str) (l : list str) :
  insert_sorted x (insert_sorted y l) = insert_sorted y (insert_sorted x l).
Proof.
  induction l as [|z l IH]; cbn [insert_sorted].
  - destruct (str_leb x y) eqn:Exy, (str_leb y x) eqn:Eyx;
      try reflexivity.
    + now rewrite (str_leb_antisym x y Exy Eyx).
    + apply str_leb_total in Exy. congruence.
  - destruct (str_leb y z) eqn:Eyz, (str_leb x z) eqn:Exz;
      cbn [insert_sorted]; rewrite ?Eyz, ?Exz.
    + destruct (str_leb x y) eqn:Exy, (str_leb y x) eqn:Eyx;
        try reflexivity.
      * now rewrite (str_leb_antisym x y Exy Eyx).
      * apply str_leb_total in Exy. congruence.
    + destruct (str_leb x y) eqn:Exy.
      * rewrite (str_leb_trans x y z Exy Eyz) in Exz. discriminate.
      * reflexivity.
    + destruct (str_leb y x) eqn:Eyx.
      * rewrite (str_leb_trans y x z Eyx Exz) in Eyz. discriminate.
      * reflexivity.
    + now rewrite IH.
Qed.

Lemma sorted_permutation (l l' : list str) :
  Permutation l l' -> sorted l = sorted l'.
Proof.
  unfold sorted. induction 1 as [|x l l' _ IH|x y l|l l' l'' _ IH1 _ IH2];
    cbn [fold_right].
  - reflexivity.
  - now rewrite IH.
  - apply insert_sorted_comm.
  - now rewrite IH1.
Qed.

Lemma insert_sorted_permutation (x : str) (l : list str) :
  Permutation (insert_sorted x l) (x :: l).
Proof.
  induction l as [|y l IH]; cbn [insert_sorted]; [reflexivity|].
  destruct (str_leb x y); [reflexivity|].
  rewrite IH. apply perm_swap.
Qed.

Lemma sorted_is_permutation (l : list str) : Permutation (sorted l) l.
Proof.
  unfold sorted. induction l as [|x l IH]; cbn [fold_right]; [reflexivity|].
  rewrite insert_sorted_permutation. now rewrite IH.
Qed.

Lemma insert_sorted_ascending (x : str) (l : list str) :
  TreeSpec.ascending l -> TreeSpec.ascending (insert_sorted x l).
Proof.
  induction l as [|y l IH]; cbn [insert_sorted].
  - intros _. cbn. tauto.
  - intros [Hhead Htail]. destruct (str_leb x y) eqn:Exy.
    + cbn [TreeSpec.ascending]. repeat split; assumption.
    + specialize (IH Htail). cbn [TreeSpec.ascending]. split; [|exact IH].
      destruct l as [|z l]; cbn [insert_sorted].
      * now apply str_leb_total.
      * destruct (str_leb x z); [now apply str_leb_total|exact Hhead].
Qed.

Lemma sorted_ascending (l : list str) : TreeSpec.ascending (sorted l).
Proof.
  unfold sorted. induction l as [|x l IH]; cbn [fold_right]; [exact I|].
  now apply insert_sorted_ascending.
Qed.

End StrOrder.

Section ListingOrder.
Import PyStr Scanner PathText FileScanner TreeSpec.

Lemma scan_files_permutation (root : path) (files files' : list str) :
  Permutation files files' ->
  Permutation (scan_files root files) (scan_files root files').
Proof.
  induction 1 as [|x l l' _ IH|x y l|l l' l'' _ IH1 _ IH2];
    cbn [scan_files].
  - reflexivity.
  - destruct (member _ SOURCE_EXTENSIONS); [now constructor|exact IH].
  - destruct (member (suffix (Path.join root (Path.of_str y))) _),
             (member (suffix (Path.join root (Path.of_str x))) _);
      try reflexivity.
    apply perm_swap.
  - now rewrite IH1.
Qed.

Lemma walk_permutation (t t' : tree) :
  same_tree t t' -> forall root, Permutation (walk root t) (walk root t').
Proof.
  induction 1 using same_tree_dirs_ind with
    (P0 := fun dirs dirs' =>
       forall root,
         Permutation (walk_dirs root dirs) (walk_dirs root dirs')).
  - intros root. cbn [walk]. apply Permutation_app.
    + now apply scan_files_permutation.
    + apply IHsame_tree.
  - reflexivity.
  - intros root. cbn [walk_dirs]. apply Permutation_app.
    + destruct (member d EXCLUDE_DIRS); [reflexivity|apply IHsame_tree].
    + apply IHsame_tree0.
  - intros root. cbn [walk_dirs]. rewrite !app_assoc.
    apply Permutation_app; [apply Permutation_app_comm|reflexivity].
  - intros root. now rewrite IHsame_tree, IHsame_tree0.
Qed.

(** The list of files is in ascending order of its strings and holds, for
    each file the scan found, the path it is listed under, once per find.
    It does not depend on the order in which the directories list their
    files and subdirectories. *)
Theorem file_list_canonical (project_path : path) (t : tree) :
  let found := fst (scan_directory project_path t) in
  let listing := get_file_list project_path found in
  ascending listing
  /\ Permutation listing (map (listed_as project_path) found)
  /\ (forall t',
        same_tree t t' ->
        get_file_list project_path (fst (scan_directory project_path t'))
        = listing).
Proof.
  intros found listing. split; [apply sorted_ascending|].
  split; [apply sorted_is_permutation|].
  intros t' Hsame. subst listing found. unfold get_file_list.
  cbn [scan_directory fst]. apply sorted_permutation.
  apply Permutation_map. symmetry. now apply walk_permutation.
Qed.

End ListingOrder.

Section ListingCases.
Import PyStr Scanner PathText FileScanner TreeSpec TreeCases MemFS.

Lemma same_tree_refl (t : tree) : same_tree t t.
Proof.
  induction t using tree_forest_ind with
    (P0 := fun dirs => same_dirs dirs dirs).
  - now constructor.
  - constructor.
  - now constructor.
Qed.

Lemma same_dirs_refl (dirs : forest) : same_dirs dirs dirs.
Proof.
  induction dirs using forest_tree_ind with
    (P := fun t => same_tree t t).
  - now constructor.
  - constructor.
  - now constructor.
Qed.

Example sample_trees_same : same_tree sample_tree sample_tree_reordered.
Proof.
  constructor; [apply perm_swap|].
  eapply same_trans; [apply same_swap|].
  apply same_skip; [apply same_tree_refl|].
  apply same_skip; [|apply same_dirs_refl].
  constructor; [|constructor].
  change (Permutation ([lit "app.py"; lit ".env"] ++ [lit "Makefile"])
            ([lit "Makefile"] ++ [lit "app.py"; lit ".env"])).
  apply Permutation_app_comm.
Qed.

Example sample_trees_listed_alike :
  get_file_list proj (fst (scan_directory proj sample_tree_reordered))
  = get_file_list proj (fst (scan_directory proj sample_tree)).
Proof. vm_compute. reflexivity. Qed.

End ListingCases.

(** ** Dictionaries *)

Section DictFacts.
Import PyStr.
Context {V : Type}.

Lemma dict_get_set_same (d : PyDict.dict V) (k : str) (v : V) :
  PyDict.get (PyDict.set d k v) k = Some v.
Proof.
  induction d as [|[k' v'] d IH]; cbn [PyDict.set PyDict.get].
  - now rewrite (proj2 (eqb_eq k k) eq_refl).
  - destruct (eqb k k') eqn:E; cbn [PyDict.get]; rewrite E; [reflexivity|].
    exact IH.
Qed.

Lemma dict_get_set_other (d : PyDict.dict V) (k k' : str) (v : V) :
  k <> k' -> PyDict.get (PyDict.set d k v) k' = PyDict.get d k'.
Proof.
  intros Hne. induction d as [|[k0 v0] d IH]; cbn [PyDict.set PyDict.get].
  - assert (E : eqb k' k = false) by (apply eqb_neq; congruence).
    now rewrite E.
  - destruct (eqb k k0) eqn:E; cbn [PyDict.get].
    + apply eqb_eq in E. subst k0.
      assert (E' : eqb k' k = false) by (apply eqb_neq; congruence).
      now rewrite E'.
    + destruct (eqb k' k0); [reflexivity|exact IH].
Qed.

Lemma dict_get_in_keys (d : PyDict.dict V) (k : str) :
  PyDict.get d k = None <-> ~ In k (PyDict.keys d).
Proof.
  induction d as [|[k' v'] d IH]; cbn [PyDict.get PyDict.keys map fst In].
  - tauto.
  - destruct (eqb k k') eqn:E.
    + apply eqb_eq in E. subst k'. split; [discriminate|]. tauto.
    + apply eqb_neq in E. rewrite IH. unfold PyDict.keys.
      split; [intros H [H'|H']; [congruence|tauto]|tauto].
Qed.

Lemma dict_keys_set (d : PyDict.dict V) (k : str) (v : V) :
  PyDict.keys (PyDict.set d k v)
  = match PyDict.get d k with
    | Some _ => PyDict.keys d
    | None => PyDict.keys d ++ [k]
    end.
Proof.
  induction d as [|[k' v'] d IH]; cbn [PyDict.set PyDict.get]; [reflexivity|].
  destruct (eqb k k') eqn:E; [reflexivity|].
  unfold PyDict.keys in *. cbn [map fst]. rewrite IH.
  now destruct (PyDict.get d k).
Qed.

Lemma nodup_snoc {A : Type} (l : list A) (x : A) :
  List.NoDup l -> ~ In x l -> List.NoDup (l ++ [x]).
Proof.
  induction 1 as [|y l Hy Hl IH]; cbn [app In]; intros Hx.
  - constructor; [intros []|constructor].
  - constructor.
    + rewrite in_app_iff. cbn [In]. intros [H|[H|[]]]; [tauto|].
      subst y. tauto.
    + apply IH. tauto.
Qed.

Lemma dict_keys_nodup (d : PyDict.dict V) (k : str) (v : V) :
  List.NoDup (PyDict.keys d) -> List.NoDup (PyDict.keys (PyDict.set d k v)).
Proof.
  intros Hd. rewrite dict_keys_set.
  destruct (PyDict.get d k) eqn:E; [exact Hd|].
  apply dict_get_in_keys in E. now apply nodup_snoc.
Qed.

End DictFacts.

(** ** The statistics of a scan *)

Section Statistics.
Import PyStr Scanner PathText FileScanner TreeSpec Run.
Context {W : Type} `{OS W}.

Lemma scanner_read_file_reads (file_path : path) (s : Session W) :
  world (snd (read_file file_path s)) = world s
  /\ pending_proposals (snd (read_file file_path s)) = pending_proposals s.
Proof.
  unfold read_file, bind, ask, emit, ret. cbn [world].
  destruct (read_utf8 _ (world s)); cbn [world snd]; try (split; reflexivity).
  destruct (read_latin1 _ (world s)); split; reflexivity.
Qed.

(** What [read_file] returns is decided by the world alone. *)
Lemma scanner_read_file_content (file_path : path) (s1 s2 : Session W) :
  world s1 = world s2 ->
  fst (read_file file_path s1) = fst (read_file file_path s2).
Proof.
  intros Hw. unfold read_file, bind, ask, emit, ret. cbn [world].
  rewrite Hw.
  destruct (read_utf8 file_path (world s2)); cbn [fst world];
    try reflexivity.
  destruct (read_latin1 file_path (world s2)); reflexivity.
Qed.

Lemma dict_set_sum (d : PyDict.dict nat) (k : str) (v : nat) :
  list_sum (PyDict.values (PyDict.set d k v)) + counted d k
  = list_sum (PyDict.values d) + v.
Proof.
  unfold counted, PyDict.values, list_sum.
  induction d as [|[k' n] d IH]; cbn [PyDict.get PyDict.set]; [cbn; lia|].
  destruct (eqb k k'); cbn [map snd fold_right]; lia.
Qed.

Lemma count_one_sum (extensions : PyDict.dict nat) (ext : str) :
  list_sum (PyDict.values (count_one extensions ext))
  = list_sum (PyDict.values extensions) + 1.
Proof.
  unfold count_one.
  pose proof (dict_set_sum extensions ext (counted extensions ext + 1))
    as Hsum.
  unfold counted in *. lia.
Qed.

Lemma count_one_counted (extensions : PyDict.dict nat) (ext ext' : str) :
  counted (count_one extensions ext) ext'
  = counted extensions ext' + (if eqb ext ext' then 1 else 0).
Proof.
  unfold counted, count_one. destruct (eqb ext ext') eqn:E.
  - apply eqb_eq in E. subst ext'. rewrite dict_get_set_same. reflexivity.
  - apply eqb_neq in E. rewrite dict_get_set_other by exact E. lia.
Qed.

Lemma count_one_present (extensions : PyDict.dict nat) (ext ext' : str) :
  PyDict.get (count_one extensions ext) ext' = None
  <-> PyDict.get extensions ext' = None /\ ext <> ext'.
Proof.
  unfold count_one. destruct (eqb ext ext') eqn:E.
  - apply eqb_eq in E. subst ext'. rewrite dict_get_set_same.
    split; [discriminate|tauto].
  - apply eqb_neq in E. rewrite dict_get_set_other by exact E. tauto.
Qed.

Lemma statistics_loop_effect (source_files : list path) :
  forall (stats : statistics) (s : Session W),
    let r := statistics_loop source_files stats s in
    total_files (fst r) = total_files stats
    /\ total_lines (fst r)
       = total_lines stats
         + list_sum (map (fun f => count nlc (fst (read_file f s)) + 1)
                       source_files)
    /\ total_chars (fst r)
       = total_chars stats
         + list_sum (map (fun f => length (fst (read_file f s)))
                       source_files)
    /\ list_sum (PyDict.values (by_extension (fst r)))
       = list_sum (PyDict.values (by_extension stats)) + length source_files
    /\ (List.NoDup (PyDict.keys (by_extension stats)) ->
        List.NoDup (PyDict.keys (by_extension (fst r))))
    /\ (forall ext,
          counted (by_extension (fst r)) ext
          = counted (by_extension stats) ext + with_suffix ext source_files)
    /\ (forall ext,
          PyDict.get (by_extension (fst r)) ext = None
          <-> PyDict.get (by_extension stats) ext = None
              /\ with_suffix ext source_files = 0)
    /\ world (snd r) = world s
    /\ pending_proposals (snd r) = pending_proposals s.
Proof.
  induction source_files as [|f rest IH]; intros stats s r; subst r.
  - cbn. repeat split; try lia; try tauto.
  - cbn [statistics_loop]. unfold bind.
    destruct (scanner_read_file_reads f s) as [Hw Hp].
    pose proof (scanner_read_file_content f s) as Hc.
    destruct (read_file f s) as [content s1] eqn:Er. cbn [fst snd] in *.
    specialize (IH {| total_files := total_files stats;
                      total_lines := total_lines stats
                                     + (count nlc content + 1);
                      total_chars := total_chars stats + length content;
                      by_extension := count_one (by_extension stats)
                                        (suffix f) |} s1).
    cbv zeta in IH. cbn [total_files total_lines total_chars by_extension]
      in IH.
    destruct IH as (H1 & H2 & H3 & H4 & H5 & H6 & H7 & H8 & H9).
    assert (Hreads : forall g, fst (read_file g s1) = fst (read_file g s)).
    { intros g. now apply scanner_read_file_content. }
    split; [exact H1|]. split.
    { rewrite H2. unfold list_sum. cbn [map fold_right]. rewrite Er.
      cbn [fst].
      rewrite (map_ext _ _ (fun g => f_equal (fun c => count nlc c + 1)
                                       (Hreads g))). lia. }
    split.
    { rewrite H3. unfold list_sum. cbn [map fold_right]. rewrite Er.
      cbn [fst].
      rewrite (map_ext _ _ (fun g => f_equal (@length ascii) (Hreads g))).
      lia. }
    split; [rewrite H4, count_one_sum; cbn [length]; lia|].
    split; [intros Hd; apply H5; now apply dict_keys_nodup|].
    split.
    { intros ext. rewrite H6, count_one_counted. unfold with_suffix.
      cbn [List.filter]. destruct (eqb (suffix f) ext); cbn [length]; lia. }
    split.
    { intros ext. rewrite H7, count_one_present. unfold with_suffix.
      cbn [List.filter]. destruct (eqb (suffix f) ext) eqn:E.
      - apply eqb_eq in E. cbn [length]. split; [tauto|]. intros [_ Hz]. lia.
      - apply eqb_neq in E. tauto. }
    split; congruence.
Qed.

(** The statistics agree with the files they are taken from.  The counts by
    extension add up to the number of files, each suffix is listed once,
    with the number of files that have it, and a suffix that no file has is
    not listed.  Every file counts one line more than it has newline
    characters, so an empty file and a file that cannot be read count one
    line each.  Taking the statistics reads the files and changes
    nothing. *)
Theorem statistics_consistent (source_files : list path) (s : Session W) :
  let r := get_statistics source_files s in
  let stats := fst r in
  total_files stats = length source_files
  /\ list_sum (PyDict.values (by_extension stats)) = length source_files
  /\ List.NoDup (PyDict.keys (by_extension stats))
  /\ (forall ext,
        PyDict.get (by_extension stats) ext
        = if with_suffix ext source_files =? 0 then None
          else Some (with_suffix ext source_files))
  /\ total_lines stats
     = list_sum (map (fun f => count nlc (fst (read_file f s)) + 1)
                   source_files)
  /\ total_chars stats
     = list_sum (map (fun f => length (fst (read_file f s))) source_files)
  /\ length source_files <= total_lines stats
  /\ world (snd r) = world s
  /\ pending_proposals (snd r) = pending_proposals s.
Proof.
  intros r stats. subst stats r. unfold get_statistics.
  destruct (statistics_loop_effect source_files
              {| total_files := length source_files; total_lines := 0;
                 total_chars := 0; by_extension := [] |} s)
    as (H1 & H2 & H3 & H4 & H5 & H6 & H7 & H8 & H9).
  cbn [total_files total_lines total_chars by_extension] in *.
  repeat split; try assumption.
  - apply H5. constructor.
  - intros ext. specialize (H6 ext). specialize (H7 ext).
    unfold counted in H6. cbn [PyDict.get] in H6, H7.
    destruct (with_suffix ext source_files =? 0) eqn:Ez.
    + apply Nat.eqb_eq in Ez. apply H7. tauto.
    + apply Nat.eqb_neq in Ez.
      destruct (PyDict.get _ ext) as [n|] eqn:Eg.
      * f_equal. lia.
      * exfalso. apply Ez. now apply H7.
  - rewrite H2. clear. unfold list_sum.
    induction source_files as [|f l IH]; cbn [map fold_right length]; lia.
Qed.

End Statistics.

(** ** Backups are no source files *)

Section BackupsNotScanned.
Import PyStr Scanner PathText FileScanner TreeSpec ApplySpec.

Lemma rfind_from_absent (c : ascii) (s : str) (pos : nat)
  (found : option nat) :
  ~ In c s -> rfind_from c s pos found = found.
Proof.
  revert pos found. induction s as [|x s IH]; intros pos found Hin;
    [reflexivity|].
  cbn [rfind_from]. destruct (Ascii.eqb x c) eqn:E.
  - apply Ascii.eqb_eq in E. subst x. exfalso. apply Hin. now left.
  - apply IH. intros H. apply Hin. now right.
Qed.

Lemma rfind_from_last (c : ascii) (a b : str) (pos : nat)
  (found : option nat) :
  ~ In c b -> rfind_from c (a ++ c :: b) pos found = Some (pos + length a).
Proof.
  revert pos found. induction a as [|x a IH]; intros pos found Hin.
  - cbn [app rfind_from length]. rewrite Ascii.eqb_refl.
    rewrite rfind_from_absent by exact Hin. f_equal. lia.
  - cbn [app rfind_from length]. rewrite IH by exact Hin. f_equal. lia.
Qed.

(** A name that ends in [.bak] after something has the suffix [.bak]. *)
Lemma suffix_bak (stem : str) :
  stem <> [] -> suffix_of_name (stem ++ lit ".bak") = lit ".bak".
Proof.
  intros Hne. unfold suffix_of_name, rfind.
  change (lit ".bak") with (dot :: lit "bak").
  rewrite rfind_from_last
    by (cbn; intros H; repeat destruct H as [H|H]; try discriminate H;
        exact H).
  rewrite length_app. change (length (dot :: lit "bak")) with 4.
  cbn [Nat.add].
  destruct stem as [|c stem]; [congruence|].
  destruct (0 <? length (c :: stem)) eqn:E1;
    [|apply Nat.ltb_ge in E1; cbn [length] in E1; lia].
  destruct (length (c :: stem) <? length (c :: stem) + 4 - 1) eqn:E2;
    [|apply Nat.ltb_ge in E2; lia].
  cbn [andb]. unfold from.
  now rewrite skipn_app, skipn_all, Nat.sub_diag.
Qed.

Lemma backup_name_entry (file : str) (dt : datetime) :
  entry_name (FileEditor.backup_name (Path.of_str file) (Clock.strftime dt)).
Proof.
  unfold FileEditor.backup_name, entry_name.
  pose proof (strftime_length dt) as Hlen.
  assert (Hlong : 27 <= length (Path.name (Path.of_str file) ++ [dot]
                                  ++ Clock.strftime dt ++ lit ".bak")).
  { rewrite !length_app, Hlen. cbn. lia. }
  split; [intros E; rewrite E in Hlong; cbn in Hlong; lia|].
  split; [|split; intros E; rewrite E in Hlong; cbn in Hlong; lia].
  intros Hin. apply in_app_or in Hin as [Hin|Hin];
    [exact (name_no_slash _ (of_str_parts_no_slash file) Hin)|].
  apply in_app_or in Hin as [Hin|Hin];
    [destruct Hin as [Hin|[]]; discriminate|].
  apply in_app_or in Hin as [Hin|Hin];
    [exact (timestamp_no_slash _ (strftime_shaped dt) Hin)|].
  cbn in Hin. repeat destruct Hin as [Hin|Hin]; try discriminate Hin.
  exact Hin.
Qed.

(** The name of a backup has the suffix [.bak], which is none of the source
    extensions: a scan never lists a backup, although the backup directory
    is walked like any other.  The name passes the test by which
    [get_backup_list] picks backups. *)
Theorem backups_not_scanned (file : str) (dt : datetime) :
  let name :=
    FileEditor.backup_name (Path.of_str file) (Clock.strftime dt) in
  suffix_of_name name = lit ".bak"
  /\ member (suffix_of_name name) SOURCE_EXTENSIONS = false
  /\ endswith (lit ".bak") name = true
  /\ (forall root, scan_files root [name] = []).
Proof.
  intros name.
  assert (Hs : suffix_of_name name = lit ".bak").
  { subst name. unfold FileEditor.backup_name. rewrite !app_assoc.
    apply suffix_bak. intros E. apply (f_equal (@length ascii)) in E.
    rewrite !length_app in E. cbn in E. lia. }
  split; [exact Hs|]. split; [now rewrite Hs|]. split.
  - subst name. unfold FileEditor.backup_name, endswith.
    rewrite !app_assoc, rev_app_distr. apply startswith_app.
  - intros root. cbn [scan_files].
    rewrite (file_at_nil root name (backup_name_entry file dt)).
    now rewrite suffix_file_at, Hs.
Qed.

End BackupsNotScanned.

(** ** The directory structure of a scan *)

Section Structure.
Import PyStr Scanner PathText FileScanner TreeSpec.
Variable project_path : path.

Lemma names_at_set (structure : PyDict.dict (list str)) (k key : str)
  (names : list str) :
  names_at (PyDict.set structure k names) key
  = if eqb k key then names else names_at structure key.
Proof.
  unfold names_at. destruct (eqb k key) eqn:E.
  - apply eqb_eq in E. subst key. now rewrite dict_get_set_same.
  - apply eqb_neq in E. now rewrite dict_get_set_other.
Qed.

Lemma file_structure_names (source_files : list path) :
  forall structure key,
    names_at (file_structure project_path source_files structure) key
    = names_at structure key ++ names_under project_path key source_files.
Proof.
  induction source_files as [|f rest IH]; intros structure key;
    cbn [file_structure names_under].
  - now rewrite app_nil_r.
  - unfold filed_under.
    destruct (Path.relative_to f project_path) as [rel|]; [|apply IH].
    cbv zeta. rewrite IH, names_at_set. fold (names_at structure).
    set (k := if eqb (to_str (Path.parent rel)) (lit ".") then lit "root"
              else to_str (Path.parent rel)).
    fold (names_at structure k).
    destruct (eqb k key) eqn:E; [|reflexivity].
    apply eqb_eq in E. subst key. now rewrite <- app_assoc.
Qed.

Lemma file_structure_absent (source_files : list path) :
  forall structure key,
    PyDict.get (file_structure project_path source_files structure) key
    = None
    <-> PyDict.get structure key = None
        /\ names_under project_path key source_files = [].
Proof.
  induction source_files as [|f rest IH]; intros structure key;
    cbn [file_structure names_under].
  - tauto.
  - unfold filed_under.
    destruct (Path.relative_to f project_path) as [rel|]; [|apply IH].
    cbv zeta. rewrite IH.
    set (k := if eqb (to_str (Path.parent rel)) (lit ".") then lit "root"
              else to_str (Path.parent rel)).
    destruct (eqb k key) eqn:E.
    + apply eqb_eq in E. subst key. rewrite dict_get_set_same.
      split; [intros [H _]; discriminate|intros [_ H]; discriminate].
    + apply eqb_neq in E. rewrite dict_get_set_other by exact E. tauto.
Qed.

Lemma file_structure_nodup (source_files : list path) :
  forall structure,
    List.NoDup (PyDict.keys structure) ->
    List.NoDup
      (PyDict.keys (file_structure project_path source_files structure)).
Proof.
  induction source_files as [|f rest IH]; intros structure Hd;
    cbn [file_structure]; [exact Hd|].
  destruct (Path.relative_to f project_path) as [rel|]; [|now apply IH].
  cbv zeta. apply IH. now apply dict_keys_nodup.
Qed.

Lemma relative_to_file_at (chain : list str) (name : str) :
  Path.relative_to (file_at project_path chain name) project_path
  = Some {| absolute := false; parts := chain ++ [name] |}.
Proof.
  unfold Path.relative_to, file_at. cbn [absolute parts].
  now rewrite Bool.eqb_reflx, strip_prefix_app.
Qed.

(** The structure files every scanned file below the project under the
    string of its directory, and a file at the top of the project under
    [root]: a key holds, in scan order, the names of the files so filed, and
    keys without a file are absent.  A directory that is itself named
    [root] shares its key with the top of the project. *)
Theorem structure_groups (source_files : list path) (key : str) :
  let structure := get_file_structure project_path source_files in
  PyDict.get structure key
  = match names_under project_path key source_files with
    | [] => None
    | name :: names => Some (name :: names)
    end
  /\ List.NoDup (PyDict.keys structure)
  /\ (forall top below,
        filed_under project_path (file_at project_path [] top)
        = Some (lit "root", top)
        /\ filed_under project_path (file_at project_path [lit "root"] below)
           = Some (lit "root", below)).
Proof.
  intros structure. subst structure. unfold get_file_structure.
  split; [|split].
  - pose proof (file_structure_names source_files [] key) as Hn.
    pose proof (file_structure_absent source_files [] key) as Ha.
    unfold names_at in Hn. cbn [PyDict.get app] in Hn, Ha.
    destruct (PyDict.get _ key) as [names|] eqn:Eg.
    + subst names.
      destruct (names_under project_path key source_files) eqn:Eu;
        [|reflexivity].
      destruct Ha as [_ Ha]. specialize (Ha (conj eq_refl eq_refl)).
      discriminate Ha.
    + destruct Ha as [Ha _]. destruct (Ha eq_refl) as [_ ->]. reflexivity.
  - apply file_structure_nodup. constructor.
  - intros top below. unfold filed_under.
    rewrite !relative_to_file_at. split; reflexivity.
Qed.

End Structure.

(** ** The README of a project, written and read back *)

Section Readme.
Import PyStr ProjectManager.

Lemma lines_of_line (line rest : str) :
  ~ In nlc line ->
  lines_of (line ++ nl ++ rest) = (line ++ nl) :: lines_of rest.
Proof.
  induction line as [|c line IH]; intros Hin.
  - cbn [app nl lines_of]. now rewrite Ascii.eqb_refl.
  - cbn [app lines_of].
    destruct (Ascii.eqb c nlc) eqn:E.
    + apply Ascii.eqb_eq in E. subst c. exfalso. apply Hin. now left.
    + rewrite IH; [reflexivity|]. intros H. apply Hin. now right.
Qed.

(** A text without carriage returns is read as it is. *)
Lemma universal_newlines_plain (text : str) :
  ~ In crc text -> universal_newlines text = text.
Proof.
  induction text as [|c text IH]; intros Hin; [reflexivity|].
  cbn [universal_newlines].
  destruct (Ascii.eqb c crc) eqn:E.
  - apply Ascii.eqb_eq in E. subst c. exfalso. apply Hin. now left.
  - rewrite IH; [reflexivity|]. intros H. apply Hin. now right.
Qed.

Ltac no_newline :=
  let H := fresh in
  intros H; cbn in H;
  repeat (destruct H as [H|H]; [discriminate H|]); exact H.

(** A project description does not survive the round trip through the
    README.  For a description of one line (no newline and no carriage
    return in it), what [load_existing_project] takes from the README that
    [create_new_project] wrote, read back in text mode, is not the
    description: it is the README from its third line on, that is the
    heading of the description, the description, and the notes that follow
    it. *)
Theorem readme_description_roundtrip (description previous : str) :
  one_line description ->
  description_from_readme (readme_content description) previous
  = lit "## Description" ++ nl ++ description ++ nl ++ nl
    ++ lit "## Notes" ++ nl
    ++ lit "This project was created and is managed by the Code Assistant tool."
  /\ description_from_readme (readme_content description) previous
     <> description.
Proof.
  intros [Hd Hcr].
  set (notes :=
         lit "This project was created and is managed by the Code Assistant tool.").
  assert (Hlines :
    readlines (readme_content description)
    = [lit "# Project" ++ nl; nl; lit "## Description" ++ nl;
       description ++ nl; nl; lit "## Notes" ++ nl; notes ++ nl]).
  { unfold readlines. rewrite universal_newlines_plain.
    2:{ unfold readme_content. intros Hin.
        repeat (apply in_app_or in Hin; destruct Hin as [Hin|Hin]);
          first [now apply Hcr | revert Hin; no_newline]. }
    unfold readme_content. fold notes.
    rewrite (lines_of_line (lit "# Project")) by no_newline.
    change (nl ++ lit "## Description" ++ ?r)
      with ([] ++ nl ++ lit "## Description" ++ r).
    rewrite (lines_of_line []) by no_newline.
    rewrite (lines_of_line (lit "## Description")) by no_newline.
    rewrite (lines_of_line description) by exact Hd.
    change (nl ++ lit "## Notes" ++ ?r) with ([] ++ nl ++ lit "## Notes" ++ r).
    rewrite (lines_of_line []) by no_newline.
    rewrite (lines_of_line (lit "## Notes")) by no_newline.
    replace (notes ++ nl) with (notes ++ nl ++ []) at 1
      by now rewrite app_nil_r.
    rewrite (lines_of_line notes) by (subst notes; no_newline).
    reflexivity. }
  assert (Hloaded :
    description_from_readme (readme_content description) previous
    = lit "## Description" ++ nl ++ description ++ nl ++ nl
      ++ lit "## Notes" ++ nl ++ notes).
  { unfold description_from_readme. rewrite Hlines.
    cbn [length Nat.ltb Nat.leb skipn firstn concat].
    rewrite app_nil_r, <- !app_assoc.
    set (body := description ++ nl ++ nl ++ lit "## Notes" ++ nl ++ notes).
    replace (description ++ nl ++ nl ++ lit "## Notes" ++ nl ++ notes ++ nl)
      with (body ++ nl) by (subst body; now rewrite <- !app_assoc).
    unfold strip.
    replace (lstrip_by isspace (lit "## Description" ++ nl ++ body ++ nl))
      with (lit "## Description" ++ nl ++ body ++ nl) by reflexivity.
    rewrite !app_assoc.
    rewrite rstrip_by_all by (repeat constructor).
    subst body notes.
    change (lit "This project was created and is managed by the Code Assistant tool.")
      with (lit "This project was created and is managed by the Code Assistant tool"
            ++ [Scanner.dot]).
    rewrite !app_assoc. apply rstrip_by_app; [discriminate|reflexivity]. }
  split; [exact Hloaded|].
  rewrite Hloaded. intros E. apply (f_equal (@length ascii)) in E.
  rewrite !length_app in E. cbn in E. lia.
Qed.

(** The round trip for the description [A parser]. *)
Lemma readme_description_roundtrip_witness :
  description_from_readme (readme_content (lit "A parser")) []
  = lit "## Description" ++ nl ++ lit "A parser" ++ nl ++ nl
    ++ lit "## Notes" ++ nl
    ++ lit "This project was created and is managed by the Code Assistant tool."
  /\ description_from_readme (readme_content (lit "A parser")) []
     <> lit "A parser".
Proof.
  apply (readme_description_roundtrip (lit "A parser") []).
  split; intros H; cbn in H;
    repeat (destruct H as [H|H]; [discriminate H|]); exact H.
Defined.

(** A carriage return in the description is read back as a newline: the
    description then takes two lines of the README. *)
Example carriage_return_read_back :
  readlines (readme_content [ascii_of_nat 97; crc; ascii_of_nat 98])
  = [lit "# Project" ++ nl; nl; lit "## Description" ++ nl;
     lit "a" ++ nl; lit "b" ++ nl; nl; lit "## Notes" ++ nl;
     lit "This project was created and is managed by the Code Assistant tool."
     ++ nl].
Proof. vm_compute. reflexivity. Qed.

End Readme.

(** ** The front end: what its computations leave as it is *)

Section Preserves.
Import PyStr Scanner Run Console FrontSpec.
Context {W : Type}.

Lemma preserves_unit {A X : Type} (g : Front W -> X) (a : A) :
  preserves g (unit_ a).
Proof. intros f. reflexivity. Qed.

Lemma preserves_then {A B X : Type} (g : Front W -> X) (m : MF W A)
  (k : A -> MF W B) :
  preserves g m -> (forall a, preserves g (k a)) -> preserves g (then_ m k).
Proof.
  intros Hm Hk f. unfold then_. specialize (Hm f).
  destruct (m f) as [a f1]. cbn [snd] in Hm. now rewrite (Hk a f1).
Qed.

Lemma preserves_if {A X : Type} (g : Front W -> X) (b : bool)
  (m1 m2 : MF W A) :
  preserves g m1 -> preserves g m2 -> preserves g (if b then m1 else m2).
Proof. now destruct b. Qed.

Lemma eof_count_lift {A : Type} (m : M W A) : preserves (W := W) eof_count (lift m).
Proof. intros f. unfold lift. now destruct (m (core f)). Qed.

Lemma eof_count_show (what : shown) : preserves (W := W) eof_count (show what).
Proof. intros f. reflexivity. Qed.

Lemma eof_count_look {A : Type} (g : W -> A) : preserves (W := W) eof_count (look g).
Proof. intros f. reflexivity. Qed.

Lemma eof_count_call {A : Type} (g : W -> W * A) :
  preserves (W := W) eof_count (call g).
Proof. intros f. unfold call. now destruct (g (world (core f))). Qed.

Lemma eof_count_history : preserves (W := W) eof_count get_history.
Proof. intros f. reflexivity. Qed.

Lemma eof_count_append (role content : str) :
  preserves (W := W) eof_count (append_history role content).
Proof. intros f. reflexivity. Qed.

Lemma queue_show (what : shown) : preserves (W := W) queue (show what).
Proof. intros f. reflexivity. Qed.

Lemma queue_look {A : Type} (g : W -> A) : preserves (W := W) queue (look g).
Proof. intros f. reflexivity. Qed.

Lemma queue_call {A : Type} (g : W -> W * A) : preserves (W := W) queue (call g).
Proof. intros f. unfold call. now destruct (g (world (core f))). Qed.

Lemma queue_history : preserves (W := W) queue get_history.
Proof. intros f. reflexivity. Qed.

Lemma queue_append (role content : str) :
  preserves (W := W) queue (append_history role content).
Proof. intros f. reflexivity. Qed.

Lemma queue_lift {A : Type} (m : M W A) :
  (forall s, pending_proposals (snd (m s)) = pending_proposals s) ->
  preserves (W := W) queue (lift m).
Proof.
  intros Hm f. unfold lift, queue. specialize (Hm (core f)).
  now destruct (m (core f)).
Qed.

End Preserves.

Create HintDb front.
#[local] Hint Resolve preserves_unit preserves_if eof_count_lift
  eof_count_show eof_count_look eof_count_call eof_count_history
  eof_count_append queue_show queue_look queue_call queue_history
  queue_append : front.
#[local] Hint Extern 2 (FrontSpec.preserves _ (Console.then_ _ _)) =>
  apply preserves_then; [|intros ?] : front.
#[local] Hint Extern 3 (FrontSpec.preserves _ (match ?x with _ => _ end)) =>
  destruct x : front.

(** ** Sending a message *)

Section SendMessage.
Import PyStr Scanner Run Console FrontSpec ChatFront.
Context {W : Type} `{OS W} `{Desk W}.

Lemma show_chunks_effect (chunks : list str) :
  forall (so_far : str) (f : Front W),
    show_chunks chunks so_far f
    = (so_far ++ concat chunks,
       {| core := core f; chat_history := chat_history f;
          eof_count := eof_count f;
          journal := journal f ++ map ShowChunk chunks |}).
Proof.
  induction chunks as [|chunk rest IH]; intros so_far f.
  - cbn. rewrite !app_nil_r. now destruct f.
  - cbn [show_chunks]. unfold then_, show. rewrite IH.
    cbn [core chat_history eof_count journal map concat].
    now rewrite <- !app_assoc.
Qed.

(** [send_message] adds the user's message to the chat history and streams
    the answer to the history so extended.  When the stream ends, by itself
    or with an exception, the full response (all chunks, and after them the
    line about the exception) is returned and added to the history as the
    assistant's message.  When the user interrupts the stream, nothing is
    returned and the history keeps the user's message without an answer.
    The queue of proposals and the trace of the core stay as they are. *)
Theorem send_message_history (message : str) (f : Front W) :
  let messages := chat_history f ++ [(lit "user", message)] in
  let stream := chat_stream messages (world (core f)) in
  let chunks := fst (snd stream) in
  let ended := snd (snd stream) in
  let r := send_message message f in
  world (core (snd r)) = fst stream
  /\ trace (core (snd r)) = trace (core f)
  /\ queue (snd r) = queue f
  /\ eof_count (snd r) = eof_count f
  /\ match ended with
     | Interrupted => fst r = None /\ chat_history (snd r) = messages
     | _ =>
         fst r = Some (full_response chunks ended)
         /\ chat_history (snd r)
            = messages ++ [(lit "assistant", full_response chunks ended)]
     end.
Proof.
  intros messages stream chunks ended r. subst r.
  unfold send_message, then_, append_history, show, get_history, call.
  cbn [core chat_history eof_count journal world trace pending_proposals].
  fold messages. fold stream.
  destruct stream as [w [chunks0 ended0]] eqn:Es.
  cbn [fst snd] in *. subst chunks ended.
  rewrite show_chunks_effect.
  cbn [core chat_history eof_count journal world trace pending_proposals].
  unfold full_response, queue.
  destruct ended0 as [|text|]; cbn; rewrite ?app_nil_r;
    repeat split; reflexivity.
Qed.

End SendMessage.

(** ** Processing one input *)

Section ProcessInput.
Import PyStr Scanner Run Console FrontSpec ChatFront Words.
Context {W : Type} `{OS W} `{Desk W}.
Variable project_path : path.

Lemma approve_leaves_none (s : Session W) :
  pending_proposals (snd (Chat.approve_proposal project_path s)) = [].
Proof.
  unfold Chat.approve_proposal, bind, get_pending.
  destruct (pending_proposals s) as [|p ps] eqn:Hq; [simpl; exact Hq|].
  cbn [Chat.is_empty].
  destruct (Chat.apply_all project_path (p :: ps) [] [] s)
    as [[successful failed] s1].
  cbn [fst snd]. destruct successful as [|x successful]; cbn [Chat.is_empty].
  - reflexivity.
  - unfold act, set_pending, emit, ret. cbn.
    destruct (commit_changes _ _ (world s1)) as [w ok]. cbn.
    destruct failed; reflexivity.
Qed.

Lemma reject_leaves_none (s : Session W) :
  pending_proposals (snd (Chat.reject_proposal s)) = [].
Proof.
  unfold Chat.reject_proposal, bind, get_pending.
  destruct (pending_proposals s) as [|p ps] eqn:Hq; [simpl; exact Hq|].
  cbn [Chat.is_empty]. unfold emit. cbn [fst snd].
  match goal with
  | |- context [Chat.print_rejected ?l ?s0] =>
      destruct (Chat.print_rejected l s0) as [[] s1]
  end.
  reflexivity.
Qed.

Lemma lift_queue {A : Type} (m : M W A) (f : Front W) :
  queue (snd (lift m f)) = pending_proposals (snd (m (core f))).
Proof. unfold lift, queue. now destruct (m (core f)). Qed.

Lemma show_chunks_preserves {X : Type} (g : Front W -> X)
  (chunks : list str) (so_far : str) :
  (forall what, preserves g (show what)) ->
  preserves g (show_chunks chunks so_far).
Proof.
  intros Hshow. revert so_far.
  induction chunks as [|chunk rest IH]; intros so_far; cbn [show_chunks].
  - apply preserves_unit.
  - apply preserves_then; [apply Hshow|intros _; apply IH].
Qed.

Lemma send_message_queue (message : str) :
  preserves (W := W) queue (send_message message).
Proof.
  unfold send_message.
  repeat (apply preserves_then; [solve [auto with front]|intros ?]).
  apply preserves_then;
    [apply show_chunks_preserves; auto with front|intros ?].
  destruct (snd _); auto 10 with front.
Qed.

Lemma send_message_eof_count (message : str) :
  preserves (W := W) eof_count (send_message message).
Proof.
  unfold send_message.
  repeat (apply preserves_then; [solve [auto with front]|intros ?]).
  apply preserves_then;
    [apply show_chunks_preserves; auto with front|intros ?].
  destruct (snd _); auto 10 with front.
Qed.

Ltac keeps :=
  repeat first
    [ apply preserves_unit
    | apply send_message_queue | apply send_message_eof_count
    | apply preserves_then; [|intros ?]
    | apply preserves_if
    | apply eof_count_lift | apply eof_count_show | apply eof_count_look
    | apply eof_count_call | apply eof_count_history
    | apply eof_count_append
    | apply queue_show | apply queue_look | apply queue_call
    | apply queue_history | apply queue_append
    | apply queue_lift; intros ?;
      first [ reflexivity
            | apply (get_file_content_pending project_path) ]
    | match goal with
      | |- preserves _ (match ?x with _ => _ end) => destruct x
      end ].

Lemma readers_keep_queue :
  preserves (W := W) queue _get_project_status
  /\ (forall target, preserves (W := W) queue
                       (_show_file_content project_path target))
  /\ preserves (W := W) queue _list_files
  /\ preserves (W := W) queue _show_git_history
  /\ (forall commit_hash, preserves (W := W) queue
                            (_revert_to_commit commit_hash))
  /\ preserves (W := W) queue _revert_last_change.
Proof.
  unfold _get_project_status, _show_file_content, _list_files,
    _show_git_history, _revert_to_commit, _revert_last_change, revert.
  repeat split; intros; keeps.
Qed.

Lemma process_keeps_eof_count (user_input : str) :
  preserves (W := W) eof_count (process_user_input project_path user_input).
Proof.
  unfold process_user_input, chat_turn, approve, _get_project_status,
    _show_file_content, _list_files, _show_git_history, _revert_to_commit,
    _revert_last_change, revert.
  keeps.
Qed.

Lemma answers_unit {A : Type} (P : A -> Prop) (a : A) :
  P a -> answers (W := W) P (unit_ a).
Proof. intros Ha f. exact Ha. Qed.

Lemma answers_then {A B : Type} (P : B -> Prop) (m : MF W A)
  (k : A -> MF W B) :
  (forall a, answers P (k a)) -> answers P (then_ m k).
Proof.
  intros Hk f. unfold then_. destruct (m f) as [a f1]. apply Hk.
Qed.

Lemma answers_reply (h : MF W str) :
  answers (fun response => response <> lit "QUIT") h ->
  answers goes_on (let+ response := h in unit_ (Reply response)).
Proof.
  intros Hh f. unfold then_, unit_, goes_on. specialize (Hh f).
  destruct (h f) as [response f1]. cbn [fst] in *. congruence.
Qed.

Ltac goes_on_text :=
  let E := fresh in
  intros E; try injection E as E; cbn in E; discriminate E.

Ltac answering :=
  repeat first
    [ apply answers_then; intros ?
    | apply answers_unit; first [goes_on_text | discriminate]
    | match goal with
      | |- answers _ (if ?b then _ else _) => destruct b
      | |- answers _ (match ?x with _ => _ end) => destruct x
      end ].

Lemma handlers_go_on (user_input : str) :
  answers (W := W) goes_on
    (approve project_path "Proposal approved and applied"
       "Failed to approve proposal")
  /\ answers (W := W) goes_on
       (let+ status := _get_project_status in unit_ (Reply status))
  /\ answers (W := W) goes_on
       (let+ content :=
          _show_file_content project_path (strip (from user_input 6)) in
        unit_ (Reply content))
  /\ answers (W := W) goes_on
       (let+ files := _list_files in unit_ (Reply files))
  /\ answers (W := W) goes_on
       (let+ history := _show_git_history in unit_ (Reply history))
  /\ (forall commit_hash,
        answers (W := W) goes_on
          (let+ result := _revert_to_commit commit_hash in
           unit_ (Reply result)))
  /\ answers (W := W) goes_on
       (let+ result := _revert_last_change in unit_ (Reply result))
  /\ answers (W := W) goes_on (chat_turn project_path user_input)
  /\ answers (W := W) goes_on
       (let+ _ := lift Chat.reject_proposal in
        unit_ (Reply (lit "Proposal rejected"))).
Proof.
  repeat split; intros; try apply answers_reply;
    unfold goes_on, approve, chat_turn, _get_project_status,
      _show_file_content, _list_files, _show_git_history, _revert_to_commit,
      _revert_last_change, revert, status_text;
    answering.
Qed.

Lemma quitsb_quits (user_input : str) :
  quitsb user_input = true <-> quits user_input.
Proof.
  unfold quitsb, quits. rewrite orb_true_iff, !eqb_eq. tauto.
Qed.

Lemma process_quit_reply (user_input : str) (f : Front W) :
  quits user_input ->
  process_user_input project_path user_input f = (Reply (lit "QUIT"), f).
Proof.
  unfold process_user_input. intros [E|E]; rewrite E; reflexivity.
Qed.

Lemma process_other_reply (user_input : str) (f : Front W) :
  quitsb user_input = false ->
  fst (process_user_input project_path user_input f) <> Reply (lit "QUIT").
Proof.
  intros Eq.
  destruct (handlers_go_on (strip user_input))
    as (Ha & Hs & Hf & Hl & Hh & Hrc & Hrl & Hc & Hj).
  unfold process_user_input. fold (quitsb user_input).
  rewrite Eq.
  repeat match goal with
         | |- context [if ?b then _ else _] => destruct b
         end;
    try match goal with
        | |- context [words ?u] => destruct (words u) as [|? [|? ?]]
        end;
    first [ apply Ha | apply Hs | apply Hf | apply Hl | apply Hh
          | apply Hrc | apply Hrl | apply Hc | apply Hj
          | intros E; injection E as E; cbn in E; discriminate E ].
Qed.

(** Only [/quit] and [/exit] end the session: [process_user_input] returns
    [QUIT] exactly for these two inputs, written in any case and with any
    whitespace around them, and then it does nothing else.  No other
    command and no answer of the assistant makes it return [QUIT]. *)
Theorem only_quit_quits (user_input : str) (f : Front W) :
  (fst (process_user_input project_path user_input f) = Reply (lit "QUIT")
   <-> quits user_input)
  /\ (quits user_input ->
      process_user_input project_path user_input f
      = (Reply (lit "QUIT"), f)).
Proof.
  split; [|apply process_quit_reply]. split.
  - intros Hr. apply quitsb_quits.
    destruct (quitsb user_input) eqn:Eq; [reflexivity|].
    exfalso. exact (process_other_reply user_input f Eq Hr).
  - intros Hq. now rewrite (process_quit_reply user_input f Hq).
Qed.

Lemma approve_settles (approved failed : String.string) (f : Front W) :
  queue (snd (approve project_path approved failed f)) = [].
Proof.
  unfold approve, then_.
  pose proof (lift_queue (Chat.approve_proposal project_path) f) as Hq.
  rewrite approve_leaves_none in Hq.
  destruct (lift (Chat.approve_proposal project_path) f) as [[] f1];
    exact Hq.
Qed.

Lemma reject_settles (r : reply) (f : Front W) :
  queue (snd ((let+ _ := lift Chat.reject_proposal in unit_ r) f)) = [].
Proof.
  unfold then_.
  pose proof (lift_queue Chat.reject_proposal f) as Hq.
  rewrite reject_leaves_none in Hq.
  destruct (lift Chat.reject_proposal f) as [[] f1]. exact Hq.
Qed.

Lemma chat_turn_settles (user_input : str) (f : Front W) :
  let after := queue (snd (chat_turn project_path user_input f)) in
  after = [] \/ after = queue f.
Proof.
  cbv zeta.
  remember (chat_turn project_path user_input f) as r eqn:Er.
  revert Er. unfold chat_turn. unfold then_ at 1.
  pose proof (send_message_queue user_input f) as Hq1.
  destruct (send_message user_input f) as [[response|] f1];
    cbn [snd] in Hq1; [|intros ->; right; exact Hq1].
  unfold then_ at 1.
  pose proof (lift_queue
                (Chat.auto_create_files project_path response user_input)
                f1) as Hq2.
  destruct (auto_create_files_count project_path response user_input
              (core f1)) as (new & Hn & Hp).
  unfold lift in *.
  destruct (Chat.auto_create_files project_path response user_input
              (core f1)) as [scanned s2].
  cbn [fst snd] in *. subst scanned.
  destruct (0 <? length new) eqn:En.
  - unfold then_ at 1. unfold show at 1. unfold then_ at 1.
    unfold call at 1. cbn [core world].
    destruct (input (world s2)) as [w answer].
    unfold then_ at 1. unfold show at 1.
    destruct answer as [text|].
    + destruct (says_yes text); intros ->; left;
        [apply approve_settles|apply reject_settles].
    + unfold then_ at 1. unfold show at 1. intros ->. left.
      apply reject_settles.
  - intros ->. right. apply Nat.ltb_ge in En.
    destruct new; [|cbn in En; lia].
    rewrite app_nil_r in Hp. unfold unit_, queue in *.
    cbn [snd core] in *. now rewrite Hp.
Qed.

(** Proposals do not outlive the turn that made them.  Whatever the input,
    [process_user_input] leaves the queue of pending proposals either empty
    or as it was: a chat message whose answer holds files is settled at
    once, approved or rejected as a whole, and every other input but
    [/approve] and [/reject] leaves the queue alone.  A queue that is empty
    before an input is empty after it. *)
Theorem turn_settles_queue (user_input : str) (f : Front W) :
  let after := queue (snd (process_user_input project_path user_input f)) in
  (after = [] \/ after = queue f)
  /\ (queue f = [] -> after = []).
Proof.
  cbv zeta.
  assert (Hmain :
    queue (snd (process_user_input project_path user_input f)) = []
    \/ queue (snd (process_user_input project_path user_input f))
       = queue f).
  { destruct readers_keep_queue as (Hs & Hf & Hl & Hh & Hrc & Hrl).
    unfold process_user_input.
    repeat match goal with
           | |- context [if ?b then _ else _] => destruct b
           end;
      try match goal with
          | |- context [words ?u] => destruct (words u) as [|? [|? ?]]
          end;
      first [ left; apply approve_settles
            | left; apply reject_settles
            | apply chat_turn_settles
            | right;
              match goal with
              | |- queue (snd (?m f)) = queue f =>
                  assert (Hm : preserves (W := W) queue m);
                  [|exact (Hm f)]
              end;
              first [ apply preserves_unit
                    | apply preserves_then;
                      [first [ exact Hs | apply Hf | exact Hl | exact Hh
                             | apply Hrc | exact Hrl ]
                      |intros ?; apply preserves_unit] ] ]. }
  split; [exact Hmain|].
  intros Hempty. destruct Hmain as [E|E]; [exact E|congruence].
Qed.

Lemma process_scans (user_input : str) (f : Front W) :
  fst (process_user_input project_path user_input f) <> Unscanned.
Proof.
  assert (Hturn : forall u f1,
            fst (chat_turn project_path u f1) <> Unscanned).
  { intros u f1. unfold chat_turn. unfold then_ at 1.
    destruct (send_message u f1) as [[response|] f2]; [|discriminate].
    unfold then_ at 1.
    destruct (auto_create_files_count project_path response u (core f2))
      as (new & Hn & _).
    unfold lift.
    destruct (Chat.auto_create_files project_path response u (core f2))
      as [scanned s3].
    cbn [fst] in Hn. subst scanned.
    assert (Hgo : answers (W := W) (fun r => r <> Unscanned)
                    (if 0 <? length new then
                       let+ _ := show (ShowDetected (length new)) in
                       let+ answer := call input in
                       let+ _ := show (Asked answer) in
                       match answer with
                       | Some text =>
                           if says_yes text
                           then approve project_path EmptyString
                                  "Failed to approve proposal"
                           else
                             let+ _ := lift Chat.reject_proposal in
                             unit_ (Reply [])
                       | None =>
                           let+ _ := show ShowRejecting in
                           let+ _ := lift Chat.reject_proposal in
                           unit_ (Reply [])
                       end
                     else unit_ (Reply []))).
    { unfold approve. answering. }
    apply Hgo. }
  unfold process_user_input.
  repeat match goal with
         | |- context [if ?b then _ else _] => destruct b
         end;
    try match goal with
        | |- context [words ?u] => destruct (words u) as [|? [|? ?]]
        end;
    try apply Hturn;
    match goal with
    | |- fst (?m f) <> Unscanned =>
        assert (Hm : answers (W := W) (fun r => r <> Unscanned) m);
        [unfold approve; answering|exact (Hm f)]
    end.
Qed.

End ProcessInput.

(** ** The loop of the chat interface *)

Section RunLoop.
Import PyStr Scanner Run Console FrontSpec ChatFront Words.
Context {W : Type} `{OS W} `{Desk W}.
Variable project_path : path.

Lemma run_loop_ends (keys : list keyed) :
  forall f : Front W,
    fst (run_loop project_path keys f)
    = match unread_after (eof_count f) keys with
      | Some rest => Exited rest
      | None => AtPrompt
      end.
Proof.
  induction keys as [|key rest IH]; intros f; [reflexivity|].
  destruct key as [user_input| |]; cbn [run_loop unread_after].
  - unfold then_ at 1. unfold set_eof_count at 1. unfold then_ at 1.
    set (f0 := {| core := core f; chat_history := chat_history f;
                  eof_count := 0; journal := journal f |}).
    pose proof (process_other_reply project_path user_input f0) as Hother.
    pose proof (process_scans project_path user_input f0) as Hscan.
    pose proof (process_keeps_eof_count project_path user_input f0) as Hc.
    destruct (quitsb user_input) eqn:Eq.
    + apply quitsb_quits in Eq.
      now rewrite (process_quit_reply project_path user_input f0 Eq).
    + destruct (process_user_input project_path user_input f0)
        as [answered f1].
      cbn [fst snd] in *.
      destruct answered as [response| |]; [| |congruence].
      * destruct (eqb response (lit "QUIT")) eqn:Er.
        -- apply eqb_eq in Er. subst response.
           exfalso. now apply Hother.
        -- unfold then_ at 1.
           destruct (truthy response); unfold show, unit_;
             rewrite IH; cbn [eof_count]; now rewrite Hc.
      * unfold then_ at 1. unfold show at 1. unfold then_ at 1.
        unfold set_eof_count at 1. now rewrite IH.
  - unfold then_ at 1. unfold show at 1. unfold then_ at 1.
    unfold set_eof_count at 1. now rewrite IH.
  - unfold then_ at 1. unfold get_eof_count at 1. unfold then_ at 1.
    unfold set_eof_count at 1.
    destruct (eof_count f) as [|presses]; cbn [Nat.add Nat.eqb].
    + unfold then_ at 1. unfold show at 1. now rewrite IH.
    + replace (presses + 1) with (S presses) by lia. reflexivity.
Qed.

Lemma unread_after_some (keys : list keyed) :
  forall presses,
    (exists rest, unread_after presses keys = Some rest)
    <-> (exists user_input, In (Typed user_input) keys /\ quits user_input)
        \/ double_press keys
        \/ (0 < presses /\ exists rest, keys = CtrlD :: rest).
Proof.
  induction keys as [|key rest IH]; intros presses; cbn [unread_after].
  - split; [intros [? ?]; discriminate|].
    intros [(u & [] & _)|[(before & after & E)|(_ & after & E)]];
      [destruct before; discriminate|discriminate].
  - destruct key as [user_input| |].
    + destruct (quitsb user_input) eqn:Eq.
      * split; [|intros _; eauto]. intros _. left.
        exists user_input. split; [now left|now apply quitsb_quits].
      * rewrite IH. split.
        -- intros [(u & Hin & Hq)|[(before & after & ->)|(Hp & _)]];
             [| |lia].
           ++ left. exists u. split; [now right|exact Hq].
           ++ right. left. exists (Typed user_input :: before), after.
              reflexivity.
        -- intros [(u & [E|Hin] & Hq)|[(before & after & E)|(_ & after & E)]];
             [| | |discriminate].
           ++ injection E as ->. apply quitsb_quits in Hq. congruence.
           ++ left. exists u. split; assumption.
           ++ destruct before as [|k before]; [discriminate|].
              injection E as _ ->. right. left. now exists before, after.
    + rewrite IH. split.
      * intros [(u & Hin & Hq)|[(before & after & ->)|(Hp & _)]]; [| |lia].
        -- left. exists u. split; [now right|exact Hq].
        -- right. left. exists (CtrlC :: before), after. reflexivity.
      * intros [(u & [E|Hin] & Hq)|[(before & after & E)|(_ & after & E)]];
          [discriminate| | |discriminate].
        -- left. exists u. split; assumption.
        -- destruct before as [|k before]; [discriminate|].
           injection E as _ ->. right. left. now exists before, after.
    + destruct presses as [|presses].
      * rewrite IH. split.
        -- intros [(u & Hin & Hq)|[(before & after & ->)|(_ & after & ->)]].
           ++ left. exists u. split; [now right|exact Hq].
           ++ right. left. exists (CtrlD :: before), after. reflexivity.
           ++ right. left. exists [], after. reflexivity.
        -- intros [(u & [E|Hin] & Hq)|[(before & after & E)|(Hp & _)]];
             [discriminate| | |lia].
           ++ left. exists u. split; assumption.
           ++ destruct before as [|k before].
              ** injection E as ->. right. right. split; [lia|eauto].
              ** injection E as _ ->. right. left. now exists before, after.
      * split; [|intros _; eauto]. intros _. right. right.
        split; [lia|eauto].
Qed.

(** Where [exists()] answers, [run] returns at the first line that quits or
    at the second of two consecutive [Ctrl-D] presses, whichever comes
    first, and until then it waits for the next key. *)
Lemma run_returns_where (keys : list keyed) (f : Front W) :
  fst (run project_path keys f)
  = match unread_after (eof_count f) keys with
    | Some rest => Exited rest
    | None => AtPrompt
    end.
Proof.
  unfold run. unfold then_ at 1. unfold show at 1. unfold then_ at 1.
  set (f0 := {| core := core f; chat_history := chat_history f;
                eof_count := eof_count f;
                journal := journal f ++ [ShowBanner] |}).
  assert (Hc : preserves (W := W) eof_count add_system_context).
  { unfold add_system_context.
    repeat first
      [ apply preserves_unit | apply preserves_then; [|intros ?]
      | apply preserves_if | apply eof_count_look
      | apply eof_count_append ]. }
  specialize (Hc f0). destruct (add_system_context f0) as [[] f1].
  cbn [snd] in Hc. rewrite run_loop_ends, Hc. reflexivity.
Qed.

(** With no [Ctrl-D] counted yet, the keys end the session exactly when
    they hold a line that quits or two [Ctrl-D] presses in a row. *)
Lemma unread_after_start (keys : list keyed) :
  (exists rest, unread_after 0 keys = Some rest)
  <-> (exists user_input, In (Typed user_input) keys /\ quits user_input)
      \/ double_press keys.
Proof.
  rewrite (unread_after_some keys 0). split.
  - intros [Hq|[Hd|[Hp _]]]; [now left|now right|lia].
  - tauto.
Qed.

End RunLoop.

Section FrontCases.
Import PyStr Scanner Run Console FrontSpec ChatFront MemFS ScriptedDesk.

(** A short session from its first key to the end: the file the assistant
    wrote is created and committed, the single [Ctrl-D] does not end the
    session, [/QUIT] does, and the line after it is left unread. *)
Example session_one_file :
  let r := run proj one_file_keys (begin one_file_desk) in
  fst r = Exited [Typed (lit "x")]
  /\ content_of (lit "main.py") (disk (world (core (snd r))))
     = Some (lit "print('Hello')")
  /\ commits (disk (world (core (snd r))))
     = [(lit "Applied changes to 1 file(s)", [lit "main.py"])]
  /\ queue (snd r) = []
  /\ map fst (chat_history (snd r)) = [lit "user"; lit "assistant"]
  /\ journal (snd r)
     = [ShowBanner; ShowAssistant;
        Streamed [(lit "user", lit "write main.py")];
        ShowChunk
          (text_of_lines ["Here it is:"; "```python"; "# main.py"; "print"]);
        ShowChunk (text_of_lines ["('Hello')"; "```"; EmptyString]);
        ShowBlank; ShowDetected 1; Asked (Some []); ShowPressAgain;
        ShowGoodbye].
Proof. vm_compute. repeat split; reflexivity. Qed.

End FrontCases.

(** ** Deleting, appending, replacing and restoring *)

Section BenchFacts.
Import PyStr Scanner Run Workbench Replace FileEditorMore ApplySpec BenchSpec.
Context {W : Type} `{OS W} `{Disk W}.
Variable project_path : path.

Lemma backup_first_outside (target : path) (s : Session W) :
  Path.relative_to target project_path = None ->
  backup_first project_path target true s
  = (tt, logged s [Print (MsgBackupError target)]).
Proof.
  intros Hout. unfold backup_first, FileEditor._create_backup.
  rewrite Hout. reflexivity.
Qed.

Lemma guarded_change (relative_path : str) (create_backup : bool)
  (change : W -> W * bool) (log : bool -> note) (on_error : note)
  (b : Bench W) :
  let target := Path.join project_path (Path.of_str relative_path) in
  let guarded :=
    let- present := core_ (ask (path_exists target) (CallExists target)) in
    if present then
      let- _ := core_ (backup_first project_path target create_backup) in
      let- changed := perform change log in
      if changed then pure_ true
      else let- _ := jot on_error in pure_ false
    else
      let- _ := jot (SayMissing relative_path) in pure_ false in
  (path_exists target (world (session b)) = false ->
   guarded b
   = (false,
      {| session := logged (session b) [CallExists target false];
         notes := notes b ++ [SayMissing relative_path] |}))
  /\ (path_exists target (world (session b)) = true ->
      guarded b
      = finish_with change log on_error
          (with_session b
             (snd (backup_first project_path target create_backup
                     (logged (session b) [CallExists target true]))))).
Proof.
  intros target guarded. subst guarded. split; intros Hex.
  - unfold next_, core_, ask, jot, pure_. cbn [world]. rewrite Hex.
    reflexivity.
  - unfold next_ at 1. unfold core_ at 1. unfold ask. cbn [world].
    rewrite Hex. unfold next_ at 1. unfold core_ at 1.
    cbn [session notes]. fold (logged (session b) [CallExists target true]).
    destruct (backup_first project_path target create_backup
                (logged (session b) [CallExists target true])) as [[] s1].
    unfold finish_with, with_session, next_, perform, jot, pure_.
    cbn [session notes snd fst].
    destruct (change (world s1)) as [w ok]. cbn [fst snd].
    destruct ok; cbn [notes session]; try reflexivity.
    now rewrite <- app_assoc.
Qed.

(** [delete_file] refuses a file that does not exist and then changes
    nothing.  For a file that exists it goes on to unlink the file whatever
    became of the backup: a backup that fails does not stop the deletion.
    For a file outside the project the backup fails at once, with the line
    about the error and without any copy, so such a file is deleted without
    a backup although one was asked for. *)
Theorem delete_file_despite_backup (relative_path : str)
  (create_backup : bool) (b : Bench W) :
  let target := Path.join project_path (Path.of_str relative_path) in
  (path_exists target (world (session b)) = false ->
   delete_file project_path relative_path create_backup b
   = (false,
      {| session := logged (session b) [CallExists target false];
         notes := notes b ++ [SayMissing relative_path] |}))
  /\ (path_exists target (world (session b)) = true ->
      delete_file project_path relative_path create_backup b
      = finish_with (unlink target) (CallUnlink target)
          (SayDeleteError relative_path)
          (with_session b
             (snd (backup_first project_path target create_backup
                     (logged (session b) [CallExists target true])))))
  /\ (path_exists target (world (session b)) = true ->
      Path.relative_to target project_path = None ->
      delete_file project_path relative_path true b
      = finish_with (unlink target) (CallUnlink target)
          (SayDeleteError relative_path)
          (with_session b
             (logged (session b)
                [CallExists target true; Print (MsgBackupError target)]))).
Proof.
  intros target.
  destruct (guarded_change relative_path create_backup (unlink target)
              (CallUnlink target) (SayDeleteError relative_path) b)
    as [Hmissing Hthere].
  split; [exact Hmissing|]. split; [exact Hthere|].
  intros Hex Hout.
  destruct (guarded_change relative_path true (unlink target)
              (CallUnlink target) (SayDeleteError relative_path) b)
    as [_ Hthere'].
  etransitivity; [exact (Hthere' Hex)|].
  rewrite backup_first_outside by exact Hout.
  cbn [snd]. unfold logged. cbn [world trace pending_proposals].
  now rewrite <- app_assoc.
Qed.

(** [append_to_file] never creates a file: it refuses a file that does not
    exist and then changes nothing.  For a file that exists it appends
    whatever became of the backup, and for a file outside the project it
    appends without any backup although one was asked for. *)
Theorem append_to_file_despite_backup (relative_path content : str)
  (create_backup : bool) (b : Bench W) :
  let target := Path.join project_path (Path.of_str relative_path) in
  (path_exists target (world (session b)) = false ->
   append_to_file project_path relative_path content create_backup b
   = (false,
      {| session := logged (session b) [CallExists target false];
         notes := notes b ++ [SayMissing relative_path] |}))
  /\ (path_exists target (world (session b)) = true ->
      append_to_file project_path relative_path content create_backup b
      = finish_with (append_text target content)
          (CallAppend target content) (SayAppendError relative_path)
          (with_session b
             (snd (backup_first project_path target create_backup
                     (logged (session b) [CallExists target true])))))
  /\ (path_exists target (world (session b)) = true ->
      Path.relative_to target project_path = None ->
      append_to_file project_path relative_path content true b
      = finish_with (append_text target content)
          (CallAppend target content) (SayAppendError relative_path)
          (with_session b
             (logged (session b)
                [CallExists target true; Print (MsgBackupError target)]))).
Proof.
  intros target.
  destruct (guarded_change relative_path create_backup
              (append_text target content) (CallAppend target content)
              (SayAppendError relative_path) b) as [Hmissing Hthere].
  split; [exact Hmissing|]. split; [exact Hthere|].
  intros Hex Hout.
  destruct (guarded_change relative_path true
              (append_text target content) (CallAppend target content)
              (SayAppendError relative_path) b) as [_ Hthere'].
  etransitivity; [exact (Hthere' Hex)|].
  rewrite backup_first_outside by exact Hout.
  cbn [snd]. unfold logged. cbn [world trace pending_proposals].
  now rewrite <- app_assoc.
Qed.

End BenchFacts.

Section ReplaceFacts.
Import PyStr Scanner Run Workbench Replace FileEditorMore ApplySpec BenchSpec.
Context {W : Type} `{OS W} `{Disk W}.
Variable project_path : path.

Lemma contains_empty_text (old_text : str) :
  old_text <> [] -> contains old_text [] = false.
Proof. destruct old_text; [congruence|reflexivity]. Qed.

Lemma contains_nothing (content : str) : contains [] content = true.
Proof. unfold contains, find. cbn. now destruct content. Qed.

(** [replace_in_file] writes only when the text to replace occurs in what
    [read_file] gave: otherwise it prints that the text was not found and
    leaves the file system as the read left it.  When the text occurs, the
    file is written through [write_file], with the backup as asked for, and
    its new content is the content read with the occurrences replaced.  A
    file that is missing or cannot be read counts as empty: a text that is
    not empty is then reported as not found, whereas the empty text is
    found in every content, the empty one too, where replacing it gives the
    new text: the file is then written with the new text alone. *)
Theorem replace_in_file_cases (relative_path old_text new_text : str)
  (create_backup : bool) (b : Bench W) :
  let read := FileEditor.read_file project_path relative_path (session b) in
  let content := fst read in
  (contains old_text content = false ->
   replace_in_file project_path relative_path old_text new_text
     create_backup b
   = (false,
      {| session := snd read;
         notes := notes b ++ [SayNotFound relative_path] |})
   /\ world (snd read) = world (session b))
  /\ (contains old_text content = true ->
      replace_in_file project_path relative_path old_text new_text
        create_backup b
      = core_ (FileEditor.write_file project_path relative_path
                 (replace old_text new_text content) create_backup)
          (with_session b (snd read)))
  /\ (old_text <> [] -> content = [] -> contains old_text content = false)
  /\ (old_text = [] ->
      contains old_text content = true
      /\ (content = [] -> replace old_text new_text content = new_text)).
Proof.
  intros read content. split; [|split; [|split]].
  - intros Hno. split.
    + unfold replace_in_file. unfold next_ at 1. unfold core_ at 1.
      fold read. destruct read as [text s1] eqn:Er. subst content.
      cbn [fst snd] in *. rewrite Hno. reflexivity.
    + subst read. apply get_file_content_world.
  - intros Hyes. unfold replace_in_file. unfold next_ at 1.
    unfold core_ at 1. fold read. destruct read as [text s1] eqn:Er.
    subst content. cbn [fst snd] in *. rewrite Hyes. reflexivity.
  - intros Hold ->. now apply contains_empty_text.
  - intros ->. split; [apply contains_nothing|].
    intros ->. cbn. apply app_nil_r.
Qed.

End ReplaceFacts.

(** ** A backup restores what it saved *)

Section RestoreFacts.
Import PyStr Scanner Run Workbench Replace FileEditorMore ApplySpec BenchSpec.
Context {W : Type} `{OS W} `{Disk W} `{!FileStore W}.
Variable project_path : path.

(** A backup never lies at the path of the file it saves. *)
Lemma backup_not_target (relative_path : str) (dt : datetime) :
  absolute (Path.of_str relative_path) = false ->
  parts (FileEditor.backup_path project_path (Path.of_str relative_path)
           (Clock.strftime dt))
  <> parts (Path.join project_path (Path.of_str relative_path)).
Proof.
  intros Hrel E.
  rewrite backup_path_parts in E;
    [|exact Hrel|apply of_str_parts_no_slash|apply strftime_shaped].
  unfold Path.join in E. rewrite Hrel in E. cbn [parts] in E.
  apply app_inv_head in E. apply (f_equal (@length str)) in E.
  rewrite !length_app in E. cbn [length] in E.
  destruct (parts (Path.of_str relative_path)) as [|x l] eqn:Ep.
  - cbn in E. lia.
  - pose proof (app_removelast_last (l := x :: l) [] ltac:(discriminate))
      as Hl.
    apply (f_equal (@length str)) in Hl. rewrite length_app in Hl.
    cbn [length] in Hl, E. lia.
Qed.

(** What [put] leaves at another path than the one it writes. *)
Lemma put_keeps (target : path) (content : str) (on_error : message)
  (q : path) (s : Session W) :
  parts q <> parts target ->
  holds q (world (snd (FileEditor.put target content on_error s)))
  = holds q (world s).
Proof.
  intros Hq. unfold FileEditor.put, bind, act, emit, ret.
  pose proof (mkdir_keeps (Path.parent target) q (world s)) as Hm.
  destruct (mkdir_parents (Path.parent target) (world s)) as [w1 made].
  cbn [fst] in Hm. cbn [world].
  destruct made; cbn [world snd]; [|exact Hm].
  pose proof (write_keeps target content q w1 Hq) as Hw.
  destruct (write_text target content w1) as [w2 written].
  cbn [fst] in Hw. destruct written; cbn [world snd]; congruence.
Qed.

(** The round trip of a backup.  When [write_file] overwrites a file of the
    project and the backup it takes first succeeds, restoring the file from
    that backup gives it back the content it had before the write, whatever
    was written in between and whether or not that write succeeded. *)
Theorem backup_restores (relative_path new_content backup_str : str)
  (s : Session W) (jotted : list note) :
  let rel := Path.of_str relative_path in
  let target := Path.join project_path rel in
  let saved :=
    FileEditor.backup_path project_path rel
      (Clock.strftime (now (world s))) in
  let made :=
    mkdir_parents (FileEditor.backup_subdir project_path rel) (world s) in
  let written :=
    FileEditor.write_file project_path relative_path new_content true s in
  let restored :=
    restore_from_backup project_path backup_str relative_path
      {| session := snd written; notes := jotted |} in
  absolute rel = false ->
  path_exists target (world s) = true ->
  snd made = true ->
  snd (copy2 target saved (fst made)) = true ->
  Path.of_str backup_str = saved ->
  fst restored = true ->
  holds saved (world (snd written)) = holds target (world s)
  /\ holds target (world (session (snd restored))) = holds target (world s).
Proof.
  intros rel target saved made written restored
    Hrel Hex Hmade Hcopied Hstr Hrestored.
  assert (Hsaved : holds saved (world (snd written)) = holds target (world s)).
  { subst written. unfold FileEditor.write_file. fold rel. fold target.
    unfold bind at 1. unfold bind at 1. unfold ask at 1.
    cbn [world]. rewrite Hex. unfold bind at 1.
    unfold FileEditor._create_backup.
    unfold target at 1. rewrite (relative_to_join project_path rel Hrel).
    fold target. unfold bind at 1. unfold ask at 1. cbn [world].
    unfold bind at 1. unfold act at 1. cbn [world]. fold made.
    pose proof (mkdir_keeps (FileEditor.backup_subdir project_path rel)
                  target (world s)) as Hm.
    fold made in Hm. destruct made as [w1 ok1] eqn:Em.
    cbn [fst snd] in *. subst ok1.
    unfold bind at 1. unfold act at 1. cbn [world]. fold saved.
    pose proof (copy_holds target saved w1 Hcopied) as Hc.
    destruct (copy2 target saved w1) as [w2 ok2] eqn:Ec.
    cbn [fst snd] in *. subst ok2.
    unfold ret at 1. unfold emit at 1. cbn [world].
    rewrite put_keeps; [cbn [world]; congruence|].
    subst saved target rel. now apply backup_not_target. }
  split; [exact Hsaved|].
  subst restored. unfold restore_from_backup in *. fold rel in Hrestored |- *.
  fold target in Hrestored |- *. rewrite Hstr in *.
  unfold next_, core_, act, jot, pure_ in *. cbn [session notes world] in *.
  pose proof (copy_holds saved target (world (snd written))) as Hback.
  destruct (copy2 saved target (world (snd written))) as [w3 ok3].
  cbn [fst snd] in *. destruct ok3; cbn [fst snd session world] in *;
    [|discriminate].
  rewrite Hback by reflexivity. exact Hsaved.
Qed.

End RestoreFacts.

(** ** The in-memory file system keeps the laws of a file store *)

Section MemStore.
Import PyStr MemFS MemDisk.

Lemma mem_write_other (p q : path) (content : str) (w : fs) :
  parts q <> parts p ->
  files (fst (mem_write p content w)) !! parts q = files w !! parts q.
Proof.
  intros Hq. unfold mem_write.
  destruct (bool_decide (parts p ∈ locked w)); [reflexivity|].
  cbn [fst with_files files]. apply lookup_insert_ne. congruence.
Qed.

Lemma mem_store : FileStore fs.
Proof.
  refine {| holds := fun p w => files w !! parts p |}.
  - intros src dst w. cbn [copy2 mem_os]. unfold mem_copy, readable.
    destruct (bool_decide (parts src ∈ unreadable w));
      [discriminate|].
    destruct (files w !! parts src) as [content|] eqn:Es; [|discriminate].
    unfold mem_write.
    destruct (bool_decide (parts dst ∈ locked w)); [discriminate|].
    intros _. cbn [fst with_files files]. apply lookup_insert_eq.
  - intros src dst q w Hq. cbn [copy2 mem_os]. unfold mem_copy.
    destruct (readable src w); [|reflexivity].
    now apply mem_write_other.
  - intros p content q w Hq. cbn [write_text mem_os].
    now apply mem_write_other.
  - reflexivity.
Defined.

End MemStore.

#[local] Existing Instance mem_store.

Section BenchCases.
Import PyStr Scanner Run Workbench Replace FileEditorMore ApplySpec BenchSpec.
Import MemFS MemDisk Cases.

(** The update of [src/app.py] in [inside_world], and the restore from the
    backup it made: the file holds [old] again. *)
Lemma backup_restores_witness :
  holds
    (FileEditor.backup_path proj (Path.of_str (lit "src/app.py"))
       (Clock.strftime (now (world (start inside_world)))))
    (world (snd (FileEditor.write_file proj (lit "src/app.py") (lit "new")
                   true (start inside_world))))
  = holds (Path.join proj (Path.of_str (lit "src/app.py")))
      (world (start inside_world))
  /\ holds (Path.join proj (Path.of_str (lit "src/app.py")))
       (world
          (session
             (snd (restore_from_backup proj noon_backup (lit "src/app.py")
                     {| session :=
                          snd (FileEditor.write_file proj (lit "src/app.py")
                                 (lit "new") true (start inside_world));
                        notes := [] |}))))
     = holds (Path.join proj (Path.of_str (lit "src/app.py")))
         (world (start inside_world)).
Proof.
  apply (backup_restores proj (lit "src/app.py") (lit "new") noon_backup
           (start inside_world) []); vm_compute; reflexivity.
Defined.

(** Deleting [/etc/app.conf] through the editor of the project [/proj],
    with a backup asked for: the file is gone and nothing was copied. *)
Example delete_outside_project :
  let r := delete_file proj outside_file true (at_bench outside_world) in
  fst r = true
  /\ files (world (session (snd r))) = ∅
  /\ trace (session (snd r))
     = [CallExists (Path.of_str outside_file) true;
        Print (MsgBackupError (Path.of_str outside_file))]
  /\ notes (snd r) = [CallUnlink (Path.of_str outside_file) true].
Proof. vm_compute. repeat split; reflexivity. Qed.

(** Replacing the empty text in a file that does not exist creates the
    file. *)
Example replace_nothing_creates :
  let r :=
    replace_in_file proj (lit "new.txt") [] (lit "x") true
      (at_bench empty_fs) in
  fst r = true
  /\ content_of (lit "new.txt") (world (session (snd r))) = Some (lit "x").
Proof. vm_compute. split; reflexivity. Qed.

End BenchCases.

(** ** Calls that raise *)

Section Follows.
Import PyStr Scanner Run Raising RaisingSpec ApplySpec.
Context {W : Type} `{OS W} `{Stat W}.
Variable project_path : path.

Lemma follows_safe {A : Type} (m : M W A) : follows (safe m) m.
Proof. intros s. unfold safe. now destruct (m s). Qed.

Lemma follows_returns {A : Type} (a : A) : follows (W := W) (returns a) (ret a).
Proof. intros s. reflexivity. Qed.

Lemma follows_andthen {A B : Type} (mx : MX W A) (kx : A -> MX W B)
  (m : M W A) (k : A -> M W B) :
  follows mx m -> (forall a, follows (kx a) (k a)) ->
  follows (andthen mx kx) (bind m k).
Proof.
  intros Hm Hk s. unfold andthen, bind. specialize (Hm s).
  destruct (mx s) as [[a|] s1]; [|exact Hm].
  rewrite Hm. apply Hk.
Qed.

Lemma follows_exists (p : path) :
  follows (RaisingEditor.exists_ p) (ask (path_exists p) (CallExists p)).
Proof.
  intros s. unfold RaisingEditor.exists_.
  destruct (stat_fails p (world s)) eqn:E; [|apply follows_safe].
  exists p, (trace s). split; [reflexivity|exact E].
Qed.

Lemma follows_write_file (relative_path content : str)
  (create_backup : bool) :
  follows (RaisingEditor.write_file project_path relative_path content
             create_backup)
    (FileEditor.write_file project_path relative_path content create_backup).
Proof.
  unfold RaisingEditor.write_file, FileEditor.write_file.
  apply follows_andthen; [|intros ?; apply follows_safe].
  destruct create_backup; [|apply follows_returns].
  apply follows_andthen; [apply follows_exists|].
  intros [|]; [apply follows_safe|apply follows_returns].
Qed.

Lemma follows_create_file (relative_path content : str) :
  follows (RaisingEditor.create_file project_path relative_path content)
    (FileEditor.create_file project_path relative_path content).
Proof.
  unfold RaisingEditor.create_file, FileEditor.create_file.
  apply follows_andthen; [apply follows_exists|].
  intros [|]; apply follows_safe.
Qed.

Lemma follows_apply_proposal (proposal : Proposal) :
  follows (RaisingEditor.apply_proposal project_path proposal)
    (Chat.apply_proposal project_path proposal).
Proof.
  unfold RaisingEditor.apply_proposal, Chat.apply_proposal.
  apply follows_andthen; [|intros [|]; apply follows_safe].
  destruct (negb (truthy (current_content proposal)));
    [|apply follows_write_file].
  apply follows_andthen; [apply follows_create_file|].
  intros [|]; [apply follows_returns|apply follows_write_file].
Qed.

Lemma follows_apply_all (proposals : list Proposal) :
  forall successful failed,
    follows (RaisingEditor.apply_all project_path proposals successful failed)
      (Chat.apply_all project_path proposals successful failed).
Proof.
  induction proposals as [|p ps IH]; intros successful failed;
    [apply follows_returns|].
  cbn [RaisingEditor.apply_all Chat.apply_all].
  apply follows_andthen; [apply follows_apply_proposal|].
  intros [|]; apply IH.
Qed.

Lemma follows_approve_proposal :
  follows (RaisingEditor.approve_proposal project_path)
    (Chat.approve_proposal project_path).
Proof.
  unfold RaisingEditor.approve_proposal, Chat.approve_proposal.
  apply follows_andthen; [apply follows_safe|].
  intros pending. destruct (Chat.is_empty pending); [apply follows_safe|].
  apply follows_andthen; [apply follows_apply_all|].
  intros outcome. apply follows_safe.
Qed.

(** Where no call of [exists()] raises, the functions return, and do what
    [FileEditor] and [Chat] say. *)
Lemma follows_all_answer {A : Type} (mx : MX W A) (m : M W A) :
  all_answer W -> follows mx m ->
  forall s, mx s = (Returns (fst (m s)), snd (m s)).
Proof.
  intros Hcalm Hf s. specialize (Hf s).
  destruct (mx s) as [[a|] s1].
  - now rewrite Hf.
  - destruct Hf as (p & before & _ & Hp). now rewrite Hcalm in Hp.
Qed.

Lemma exists_answers (p : path) (s : Session W) :
  stat_fails p (world s) = false ->
  RaisingEditor.exists_ p s = safe (ask (path_exists p) (CallExists p)) s.
Proof. intros E. unfold RaisingEditor.exists_. now rewrite E. Qed.

Lemma exists_raises (p : path) (s : Session W) :
  stat_fails p (world s) = true ->
  RaisingEditor.exists_ p s = (Raises, logged s [CallExistsRaised p]).
Proof. intros E. unfold RaisingEditor.exists_. now rewrite E. Qed.

(** [write_file] without backup does not call [exists()]. *)
Lemma write_file_plain_returns (relative_path content : str)
  (s : Session W) :
  RaisingEditor.write_file project_path relative_path content false s
  = safe (FileEditor.write_file project_path relative_path content false) s.
Proof. reflexivity. Qed.

Lemma write_file_answers (relative_path content : str)
  (create_backup : bool) (s : Session W) :
  stat_fails (Path.join project_path (Path.of_str relative_path)) (world s)
  = false ->
  RaisingEditor.write_file project_path relative_path content create_backup s
  = safe (FileEditor.write_file project_path relative_path content
            create_backup) s.
Proof.
  intros E. destruct create_backup; [|reflexivity].
  unfold RaisingEditor.write_file, FileEditor.write_file, andthen.
  rewrite (exists_answers _ _ E). unfold safe, bind.
  destruct (ask _ _ s) as [[|] s1]; [|reflexivity].
  destruct (FileEditor._create_backup _ _ s1) as [[backup|] s2];
    reflexivity.
Qed.

Lemma create_file_answers (relative_path content : str) (s : Session W) :
  stat_fails (Path.join project_path (Path.of_str relative_path)) (world s)
  = false ->
  RaisingEditor.create_file project_path relative_path content s
  = safe (FileEditor.create_file project_path relative_path content) s.
Proof.
  intros E. unfold RaisingEditor.create_file, FileEditor.create_file, andthen.
  rewrite (exists_answers _ _ E). unfold safe, bind.
  destruct (ask _ _ s) as [[|] s1]; reflexivity.
Qed.

(** The exception of one proposal: [exists()] is the first call of the
    editor for it, so nothing else has been done for the proposal when it is
    raised; and where [exists()] answers for the target, the proposal is
    applied as [Chat.apply_proposal] says. *)
Lemma apply_proposal_cases (proposal : Proposal) (s : Session W) :
  let target := Path.join project_path (Path.of_str (file_path proposal)) in
  RaisingEditor.apply_proposal project_path proposal s
  = if stat_fails target (world s)
    then (Raises, logged s [CallExistsRaised target])
    else safe (Chat.apply_proposal project_path proposal) s.
Proof.
  cbv zeta.
  destruct (stat_fails _ (world s)) eqn:E.
  - unfold RaisingEditor.apply_proposal, RaisingEditor.create_file,
      RaisingEditor.write_file, andthen.
    destruct (negb (truthy (current_content proposal)));
      now rewrite (exists_raises _ _ E).
  - unfold RaisingEditor.apply_proposal, Chat.apply_proposal, andthen.
    destruct (negb (truthy (current_content proposal))).
    + rewrite (create_file_answers _ _ _ E). unfold safe, bind.
      destruct (FileEditor.create_file _ _ _ s) as [[|] s1];
        [reflexivity|].
      rewrite write_file_plain_returns. unfold safe.
      destruct (FileEditor.write_file _ _ _ _ s1) as [[|] s2]; reflexivity.
    + rewrite (write_file_answers _ _ _ _ E). unfold safe, bind.
      destruct (FileEditor.write_file _ _ _ _ s) as [[|] s1]; reflexivity.
Qed.

(** The loop over a queue in two parts, with the exception. *)
Lemma raising_apply_all_app (first second : list Proposal) :
  forall (successful failed : list str) (s : Session W),
    RaisingEditor.apply_all project_path (first ++ second) successful failed s
    = match RaisingEditor.apply_all project_path first successful failed s
      with
      | (Returns done, s1) =>
          RaisingEditor.apply_all project_path second (fst done) (snd done) s1
      | (Raises, s1) => (Raises, s1)
      end.
Proof.
  induction first as [|p ps IH]; intros successful failed s; [reflexivity|].
  cbn [app RaisingEditor.apply_all]. unfold andthen.
  destruct (RaisingEditor.apply_proposal project_path p s) as [[[|]|] s1];
    [apply IH|apply IH|reflexivity].
Qed.

(** Where the loop raises: at a proposal whose target [exists()] cannot
    look up, in the state the proposals before it left. *)
Lemma apply_all_raises (proposals : list Proposal) :
  forall (successful failed : list str) (s s' : Session W),
    RaisingEditor.apply_all project_path proposals successful failed s
    = (Raises, s') ->
    exists first proposal rest done s1,
      proposals = first ++ proposal :: rest
      /\ RaisingEditor.apply_all project_path first successful failed s
         = (Returns done, s1)
      /\ stat_fails
           (Path.join project_path (Path.of_str (file_path proposal)))
           (world s1) = true
      /\ s' = logged s1
                [CallExistsRaised
                   (Path.join project_path
                      (Path.of_str (file_path proposal)))].
Proof.
  induction proposals as [|p ps IH]; intros successful failed s s';
    [discriminate|].
  cbn [RaisingEditor.apply_all]. unfold andthen.
  pose proof (apply_proposal_cases p s) as Hc. cbv zeta in Hc.
  destruct (RaisingEditor.apply_proposal project_path p s) as [[ok|] s1] eqn:Ep.
  - clear Hc. intros Hr.
    assert (Hrest : exists successful' failed',
               RaisingEditor.apply_all project_path ps successful' failed' s1
               = (Raises, s')
               /\ RaisingEditor.apply_all project_path [p] successful failed s
                  = (Returns (successful', failed'), s1)).
    { cbn [RaisingEditor.apply_all]. unfold andthen. rewrite Ep.
      destruct ok; eauto. }
    destruct Hrest as (successful' & failed' & Hps & Hp).
    destruct (IH _ _ _ _ Hps) as (first & q & rest & done & s2 & -> & Hf
                                  & Hstat & ->).
    exists (p :: first), q, rest, done, s2. repeat split; try assumption.
    change (p :: first) with ([p] ++ first).
    rewrite raising_apply_all_app, Hp. exact Hf.
  - intros Hr. injection Hr as <-.
    exists [], p, ps, (successful, failed), s.
    destruct (stat_fails _ (world s)) eqn:E.
    + injection Hc as ->. now repeat split.
    + unfold safe in Hc.
      destruct (Chat.apply_proposal project_path p s); discriminate.
Qed.

(** The loop leaves the queue alone, also where it raises. *)
Lemma raising_apply_all_pending (proposals : list Proposal)
  (successful failed : list str) (s : Session W) :
  pending_proposals
    (snd (RaisingEditor.apply_all project_path proposals successful failed s))
  = pending_proposals s.
Proof.
  destruct (RaisingEditor.apply_all project_path proposals successful failed s)
    as [[done|] s1] eqn:Er.
  - pose proof (follows_apply_all proposals successful failed s) as Hf.
    rewrite Er in Hf.
    pose proof (apply_all_outcomes project_path proposals successful failed s)
      as Ho.
    cbv zeta in Ho. rewrite Hf in Ho. apply Ho.
  - destruct (apply_all_raises _ _ _ _ _ Er)
      as (first & q & rest & done & s2 & _ & Hfirst & _ & ->).
    pose proof (follows_apply_all first successful failed s) as Hf.
    rewrite Hfirst in Hf.
    pose proof (apply_all_outcomes project_path first successful failed s)
      as Ho.
    cbv zeta in Ho. rewrite Hf in Ho. apply Ho.
Qed.

End Follows.

Section BestEffort.
Import PyStr Scanner Run Raising RaisingSpec ApplySpec.
Context {W : Type} `{OS W} `{Stat W}.
Variable project_path : path.

(** C5, amended.  [approve_proposal] applies the proposals strictly in
    queue order, each by the loop body in the state the ones before it
    left, and goes on with the rest of the queue whether the editor
    reported success or failure; it records the path under
    [successful_files] or [failed_files] accordingly.  The one thing that
    stops the loop is the [OSError] of [file_path.exists()], which is the
    first call the editor makes for a proposal and lies outside its [try]
    blocks: the exception leaves the loop and [approve_proposal] at that
    proposal, with nothing done for it or for the proposals after it, no
    commit and the queue as it was.  Where [exists()] answers, a proposal
    with empty [current_content] is first tried with [create_file]; this
    fails when the file already exists, and on failure the proposal falls
    back on [write_file] without backup, which involves no backup at all.
    When the loop returns, the outcome lines it printed name the queued
    paths one by one, in order, and the two lists hold exactly the paths
    whose outcome was a success, respectively a failure; [approve_proposal]
    then commits, empties the queue and answers true exactly when some path
    succeeded. *)
Theorem apply_all_best_effort :
  (forall (first rest : list Proposal) (proposal : Proposal)
          (successful failed : list str) (s : Session W),
     RaisingEditor.apply_all project_path (first ++ proposal :: rest)
       successful failed s
     = match RaisingEditor.apply_all project_path first successful failed s
       with
       | (Returns done, s1) =>
           match RaisingEditor.apply_proposal project_path proposal s1 with
           | (Returns true, s2) =>
               RaisingEditor.apply_all project_path rest
                 (fst done ++ [file_path proposal]) (snd done) s2
           | (Returns false, s2) =>
               RaisingEditor.apply_all project_path rest
                 (fst done) (snd done ++ [file_path proposal]) s2
           | (Raises, s2) => (Raises, s2)
           end
       | (Raises, s1) => (Raises, s1)
       end)
  /\ (forall (proposal : Proposal) (s : Session W),
        let target :=
          Path.join project_path (Path.of_str (file_path proposal)) in
        (stat_fails target (world s) = true ->
         RaisingEditor.apply_proposal project_path proposal s
         = (Raises, logged s [CallExistsRaised target]))
        /\ (stat_fails target (world s) = false ->
            RaisingEditor.apply_proposal project_path proposal s
            = safe (Chat.apply_proposal project_path proposal) s))
  /\ (forall (proposal : Proposal) (s : Session W),
        current_content proposal = [] ->
        let target :=
          Path.join project_path (Path.of_str (file_path proposal)) in
        let create :=
          FileEditor.create_file project_path (file_path proposal)
            (new_content proposal) in
        let overwrite :=
          FileEditor.write_file project_path (file_path proposal)
            (new_content proposal) false in
        Chat.apply_proposal project_path proposal s
        = finish proposal
            (if fst (create s) then (true, snd (create s))
             else overwrite (snd (create s)))
        /\ (path_exists target (world s) = true ->
            create s
            = (false, logged s [CallExists target true;
                                Print (MsgExistsError (file_path proposal))]))
        /\ emits no_backup overwrite)
  /\ (forall (proposals : list Proposal) (s s' : Session W)
             (done : list str * list str),
        RaisingEditor.apply_all project_path proposals [] [] s
        = (Returns done, s') ->
        exists evs,
          trace s' = trace s ++ evs
          /\ map fst (outcomes evs) = map file_path proposals
          /\ fst done = succeeded_in (outcomes evs)
          /\ snd done = failed_in (outcomes evs)
          /\ length (fst done) + length (snd done) = length proposals)
  /\ (forall (proposals : list Proposal) (s s' : Session W),
        RaisingEditor.apply_all project_path proposals [] [] s
        = (Raises, s') ->
        exists first proposal rest done s1,
          proposals = first ++ proposal :: rest
          /\ RaisingEditor.apply_all project_path first [] [] s
             = (Returns done, s1)
          /\ stat_fails
               (Path.join project_path (Path.of_str (file_path proposal)))
               (world s1) = true
          /\ s' = logged s1
                    [CallExistsRaised
                       (Path.join project_path
                          (Path.of_str (file_path proposal)))])
  /\ (forall s : Session W,
        pending_proposals s <> [] ->
        match
          RaisingEditor.apply_all project_path (pending_proposals s) [] [] s
        with
        | (Returns done, s1) =>
            exists tail,
              fst (RaisingEditor.approve_proposal project_path s)
              = Returns (negb (Chat.is_empty (fst done)))
              /\ trace (snd (RaisingEditor.approve_proposal project_path s))
                 = trace s1 ++ tail
              /\ outcomes tail = []
              /\ pending_proposals
                   (snd (RaisingEditor.approve_proposal project_path s))
                 = []
        | (Raises, s1) =>
            RaisingEditor.approve_proposal project_path s = (Raises, s1)
            /\ pending_proposals s1 = pending_proposals s
        end)
  /\ (all_answer W ->
      forall (proposals : list Proposal) (s : Session W),
        RaisingEditor.apply_all project_path proposals [] [] s
        = safe (Chat.apply_all project_path proposals [] []) s).
Proof.
  split; [|split; [|split; [|split; [|split; [|split]]]]].
  - intros first rest proposal successful failed s.
    rewrite raising_apply_all_app.
    destruct (RaisingEditor.apply_all project_path first successful failed s)
      as [[done|] s1]; [|reflexivity].
    cbn [RaisingEditor.apply_all]. unfold andthen.
    destruct (RaisingEditor.apply_proposal project_path proposal s1)
      as [[[|]|] s2]; reflexivity.
  - intros proposal s. cbv zeta.
    pose proof (apply_proposal_cases project_path proposal s) as Hc.
    cbv zeta in Hc. split; intros E; now rewrite E in Hc.
  - intros proposal s Hnew. now apply apply_new_file_steps.
  - intros proposals s s' done Hr.
    pose proof (follows_apply_all project_path proposals [] [] s) as Hf.
    rewrite Hr in Hf.
    destruct (apply_all_outcomes project_path proposals [] [] s)
      as (_ & evs & Ht & Hm & Hs & Hfl).
    rewrite Hf in Ht, Hs, Hfl. cbn [fst snd app] in Ht, Hs, Hfl.
    exists evs. rewrite Hs, Hfl. repeat split; try assumption.
    rewrite outcome_lengths, <- (length_map fst), Hm. apply length_map.
  - intros proposals s s' Hr. now apply apply_all_raises.
  - intros s Hq.
    pose proof (raising_apply_all_pending project_path (pending_proposals s)
                  [] [] s) as Hp.
    pose proof (follows_apply_all project_path (pending_proposals s) [] [] s)
      as Hloop.
    pose proof (follows_approve_proposal project_path s) as Hf.
    assert (Happ :
      RaisingEditor.approve_proposal project_path s
      = match
          RaisingEditor.apply_all project_path (pending_proposals s) [] [] s
        with
        | (Returns done, s1) =>
            safe (RaisingEditor.settle (fst done) (snd done)) s1
        | (Raises, s1) => (Raises, s1)
        end).
    { unfold RaisingEditor.approve_proposal, andthen, safe at 1, get_pending.
      destruct (pending_proposals s) as [|p ps]; [congruence|].
      reflexivity. }
    destruct (RaisingEditor.apply_all project_path (pending_proposals s) [] [] s)
      as [[done|] s1]; [|split; [exact Happ|exact Hp]].
    destruct (approve_after_loop project_path s Hq) as (tail & Ht & Ho & Hr).
    rewrite Hloop in Ht, Hr. cbn [fst snd] in Ht, Hr.
    rewrite Happ in Hf |- *. unfold safe in Hf |- *.
    destruct (RaisingEditor.settle (fst done) (snd done) s1) as [a s2].
    cbn [fst snd]. rewrite Hf in Ht, Hr. cbn [fst snd] in Ht, Hr.
    exists tail. repeat split; try assumption; [now rewrite Hr|].
    pose proof (approve_leaves_none project_path s) as Hn.
    now rewrite Hf in Hn.
  - intros Hcalm proposals s. unfold safe.
    rewrite (follows_all_answer _ _ Hcalm
               (follows_apply_all project_path proposals [] []) s).
    now destruct (Chat.apply_all project_path proposals [] [] s).
Qed.

End BestEffort.

Section BestEffortCases.
Import PyStr Scanner Run Raising RaisingSpec ApplySpec MemFS Cases Guarded.

(** C5, as the specification words it, fails.  The project holds a
    directory [vault] that cannot be searched, and two creations are
    queued, the first of them for [vault/a.py].  The call of [exists()] on
    that file raises: [approve_proposal] does not return, [b.py] is not
    created, nothing is recorded, printed or committed, and the queue keeps
    both proposals.  Queued alone, the creation of [b.py] is applied. *)
Lemma exists_error_aborts_batch :
  stat_fails (mkPath true [lit "proj"; lit "vault"; lit "a.py"]) vault_world
  = true
  /\ RaisingEditor.approve_proposal proj (queued vault_world vault_creations)
     = (Raises,
        {| world := vault_world;
           trace :=
             [CallExistsRaised
                (mkPath true [lit "proj"; lit "vault"; lit "a.py"])];
           pending_proposals := vault_creations |})
  /\ files (inner vault_world) = ∅
  /\ fst (RaisingEditor.approve_proposal proj
            (queued vault_world (skipn 1 vault_creations)))
     = Returns true
  /\ map_to_list
       (files
          (inner
             (world
                (snd (RaisingEditor.approve_proposal proj
                        (queued vault_world (skipn 1 vault_creations)))))))
     = [([lit "proj"; lit "b.py"], lit "b = 2")].
Proof. repeat split; vm_compute; reflexivity. Qed.

End BestEffortCases.

(** ** The chat loop and the exception *)

Section FollowsFront.
Import PyStr Scanner Run Console Words Raising RaisingFront RaisingSpec.
Import FrontSpec.
Context {W : Type} `{OS W} `{Desk W} `{Stat W}.
Variable project_path : path.

Lemma follows_front_quiet {A : Type} (m : MF W A) :
  follows_front (quiet m) m.
Proof. intros f. unfold quiet. now destruct (m f). Qed.

Lemma follows_front_unit {A : Type} (a : A) :
  follows_front (W := W) (unit_x a) (unit_ a).
Proof. intros f. reflexivity. Qed.

Lemma follows_front_then {A B : Type} (mx : MFX W A) (kx : A -> MFX W B)
  (m : MF W A) (k : A -> MF W B) :
  follows_front mx m -> (forall a, follows_front (kx a) (k a)) ->
  follows_front (then_x mx kx) (then_ m k).
Proof.
  intros Hm Hk f. unfold then_x, then_. specialize (Hm f).
  destruct (mx f) as [[a|] f1]; [|exact Hm].
  rewrite Hm. apply Hk.
Qed.

Lemma follows_front_lift {A : Type} (mx : MX W A) (m : M W A) :
  follows mx m -> follows_front (lift_x mx) (lift m).
Proof.
  intros Hm f. unfold lift_x, lift. specialize (Hm (core f)).
  destruct (mx (core f)) as [[a|] s1]; [now rewrite Hm|exact Hm].
Qed.

Ltac following :=
  repeat first
    [ apply follows_front_unit
    | apply follows_front_quiet
    | apply follows_front_then; [|intros ?] ].

Lemma follows_front_approve (approved failed : String.string) :
  follows_front (RaisingChat.approve project_path approved failed)
    (ChatFront.approve project_path approved failed).
Proof.
  unfold RaisingChat.approve, ChatFront.approve.
  apply follows_front_then;
    [apply follows_front_lift, follows_approve_proposal|].
  intros [|]; apply follows_front_unit.
Qed.

Lemma follows_front_chat_turn (user_input : str) :
  follows_front (RaisingChat.chat_turn project_path user_input)
    (ChatFront.chat_turn project_path user_input).
Proof.
  unfold RaisingChat.chat_turn, ChatFront.chat_turn.
  apply follows_front_then; [apply follows_front_quiet|].
  intros [response|]; [|apply follows_front_unit].
  apply follows_front_then; [apply follows_front_quiet|].
  intros [files_proposed|]; [|apply follows_front_unit].
  destruct (0 <? files_proposed); [|apply follows_front_unit].
  apply follows_front_then; [apply follows_front_quiet|intros _].
  apply follows_front_then; [apply follows_front_quiet|intros answer].
  apply follows_front_then; [apply follows_front_quiet|intros _].
  destruct answer as [text|]; [|following].
  destruct (ChatFront.says_yes text); [apply follows_front_approve|following].
Qed.

Lemma follows_front_process (user_input : str) :
  follows_front (RaisingChat.process_user_input project_path user_input)
    (ChatFront.process_user_input project_path user_input).
Proof.
  unfold RaisingChat.process_user_input, ChatFront.process_user_input.
  cbv zeta.
  repeat match goal with
         | |- follows_front (if ?b then _ else _) _ =>
             destruct b;
             [solve [ following | apply follows_front_approve
                    | destruct (words (strip user_input)) as [|w0 [|w1 ws]];
                      following ]|]
         end.
  apply follows_front_chat_turn.
Qed.

Lemma follows_front_run_loop (keys : list keyed) :
  follows_front (RaisingChat.run_loop project_path keys)
    (ChatFront.run_loop project_path keys).
Proof.
  induction keys as [|key rest IH]; [apply follows_front_unit|].
  destruct key as [user_input| |];
    cbn [RaisingChat.run_loop ChatFront.run_loop].
  - apply follows_front_then; [apply follows_front_quiet|intros _].
    apply follows_front_then; [apply follows_front_process|].
    intros [response| |]; [| |apply follows_front_unit].
    + destruct (eqb response (lit "QUIT")); [following|].
      apply follows_front_then; [apply follows_front_quiet|intros _].
      exact IH.
    + apply follows_front_then; [apply follows_front_quiet|intros _].
      apply follows_front_then; [apply follows_front_quiet|intros _].
      exact IH.
  - apply follows_front_then; [apply follows_front_quiet|intros _].
    apply follows_front_then; [apply follows_front_quiet|intros _].
    exact IH.
  - apply follows_front_then; [apply follows_front_quiet|intros count].
    apply follows_front_then; [apply follows_front_quiet|intros _].
    destruct (count + 1 =? 1); [|following].
    apply follows_front_then; [apply follows_front_quiet|intros _].
    exact IH.
Qed.

Lemma follows_front_run (keys : list keyed) :
  follows_front (RaisingChat.run project_path keys)
    (ChatFront.run project_path keys).
Proof.
  unfold RaisingChat.run, ChatFront.run.
  apply follows_front_then; [apply follows_front_quiet|intros _].
  apply follows_front_then; [apply follows_front_quiet|intros _].
  apply follows_front_run_loop.
Qed.

(** How [run] ends.  It returns only at a line that quits ([/quit] or
    [/exit]) or at the second of two [Ctrl-D] presses in a row, whichever
    comes first, and leaves the keys after it unread; a line, and also
    [Ctrl-C], between two [Ctrl-D] presses starts the count again.  The
    one other way out is the [OSError] of a call of [exists()], made by the
    editor while an approval applies a proposal: no [except] clause on the
    way catches it, and it ends [run].  Where every call of [exists()]
    answers, [run] returns exactly when the keys hold a line that quits or
    two [Ctrl-D] presses in a row, and waits at the prompt otherwise. *)
Theorem run_ends_on_quit_double_press_or_error (keys : list keyed)
  (f : Front W) :
  let r := RaisingChat.run project_path keys f in
  let where_ :=
    match unread_after (eof_count f) keys with
    | Some rest => Exited rest
    | None => AtPrompt
    end in
  (forall state, fst r = Returns state -> state = where_)
  /\ (fst r = Raises -> ends_raising (core (snd r)))
  /\ (all_answer W -> fst r = Returns where_)
  /\ (eof_count f = 0 ->
      forall rest, fst r = Returns (Exited rest) ->
        (exists user_input, In (Typed user_input) keys /\ quits user_input)
        \/ double_press keys)
  /\ (all_answer W -> eof_count f = 0 ->
      (exists user_input, In (Typed user_input) keys /\ quits user_input)
      \/ double_press keys ->
      exists rest, fst r = Returns (Exited rest)).
Proof.
  cbv zeta.
  pose proof (follows_front_run keys f) as Hf.
  pose proof (run_returns_where project_path keys f) as Hw.
  assert (Hret : forall state,
             fst (RaisingChat.run project_path keys f) = Returns state ->
             state = match unread_after (eof_count f) keys with
                     | Some rest => Exited rest
                     | None => AtPrompt
                     end).
  { intros state Hr.
    destruct (RaisingChat.run project_path keys f) as [[a|] f1];
      [|discriminate].
    cbn [fst] in Hr. injection Hr as ->. rewrite Hf in Hw. exact Hw. }
  assert (Hcalm : all_answer W ->
             fst (RaisingChat.run project_path keys f)
             = Returns match unread_after (eof_count f) keys with
                       | Some rest => Exited rest
                       | None => AtPrompt
                       end).
  { intros Hall.
    destruct (RaisingChat.run project_path keys f) as [[a|] f1] eqn:Er.
    - cbn [fst]. f_equal. now apply Hret.
    - destruct Hf as (p & before & _ & Hp). now rewrite Hall in Hp. }
  split; [exact Hret|]. split; [|split; [exact Hcalm|split]].
  - intros Hr.
    destruct (RaisingChat.run project_path keys f) as [[a|] f1];
      [discriminate|exact Hf].
  - intros Hzero rest Hr. apply Hret in Hr. rewrite Hzero in Hr.
    apply unread_after_start.
    destruct (unread_after 0 keys) as [rest'|]; [eauto|discriminate].
  - intros Hall Hzero Hkeys. rewrite (Hcalm Hall), Hzero.
    apply unread_after_start in Hkeys. destruct Hkeys as [rest ->].
    now exists rest.
Qed.

End FollowsFront.

Section RaisingCases.
Import PyStr Scanner Run Console Raising RaisingFront RaisingSpec.
Import FrontSpec MemFS ScriptedDesk Guarded.

(** A session that the exception ends.  The assistant writes a file for the
    directory [vault], which cannot be searched; the user presses Enter to
    approve, [exists()] raises, and [run] is left by the exception: the
    file is not written, the proposal stays queued, and the line [/quit]
    is never read. *)
Example session_ends_by_error :
  let r := RaisingChat.run proj vault_keys (at_desk vault_desk) in
  fst r = Raises
  /\ files (disk (inner (world (core (snd r))))) = ∅
  /\ map file_path (queue (snd r)) = [lit "vault/main.py"]
  /\ last (trace (core (snd r)))
     = Some (CallExistsRaised
               (Path.join proj (Path.of_str (lit "vault/main.py"))))
  /\ journal (snd r)
     = [ShowBanner; ShowAssistant;
        Streamed [(lit "user", lit "write vault/main.py")];
        ShowChunk
          (text_of_lines ["```python"; "# vault/main.py"; "print(1)"; "```"]);
        ShowBlank; ShowDetected 1; Asked (Some [])].
Proof. vm_compute. repeat split; reflexivity. Qed.

End RaisingCases.
